(** * youtube-subtitle-downloader: queue, retry, parser, statistics, progress

    A shallow embedding of the download orchestration layer of the
    repository (lib/queue.js, lib/retry.js, utils/errors.js, core/parser.js,
    core/downloader.js, lib/stats.js, lib/progress.js) together with the
    properties the specification states about it.

    Conventions of the embedding:
    - a JavaScript string is a [string]: a sequence of code units, here the
      code units below 256;
    - a promise that settles is an [Outcome]: it either returns a value or
      throws; what is thrown is a [Thrown] value;
    - integers of the source (counters, milliseconds, attempt numbers) are
      [Z] or [nat]; the numbers the source multiplies or divides (the
      delays of the retries, the percentages) are binary64 values, with the
      rounding of the IEEE 754 operations;
    - the clock, the styling library, the SRT parsing library and the
      external downloader are inputs of the functions that use them. *)

From Stdlib Require Import ZArith List Ascii String Bool Lia Permutation.
From Stdlib Require Import QArith Qround DecimalString DecimalNat.
From Stdlib Require SpecFloat.
From stdpp Require Import base gmap strings.
Import ListNotations.

Local Open Scope Z_scope.
Local Open Scope nat_scope.

(** ** Settled promises *)

Inductive Outcome (R E : Type) : Type :=
| Returned (r : R)
| Threw (e : E).
Arguments Returned {R E} r.
Arguments Threw {R E} e.

(** ** JavaScript string primitives used by the sources *)

Module JsString.

Definition code (c : ascii) : nat := nat_of_ascii c.

Definition nl : string := String (ascii_of_nat 10) EmptyString.

(** [\d] *)
Definition is_digit (c : ascii) : bool :=
  (48 <=? code c) && (code c <=? 57).

(** [[a-z]] under the [i] flag: the ASCII letters of both cases. *)
Definition is_letter (c : ascii) : bool :=
  ((97 <=? code c) && (code c <=? 122)) || ((65 <=? code c) && (code c <=? 90)).

(** Case folding of the [i] flag, which on code units outside ASCII never
    produces an ASCII code unit. *)
Definition to_lower (c : ascii) : ascii :=
  if (65 <=? code c) && (code c <=? 90) then ascii_of_nat (code c + 32) else c.

Definition eqb_ci (a b : ascii) : bool := Ascii.eqb (to_lower a) (to_lower b).

(** Line terminators, which [.] does not match. *)
Definition is_line_terminator (c : ascii) : bool :=
  (code c =? 10) || (code c =? 13).

(** [\s], and the characters [trim] removes: tab, line feed, vertical tab,
    form feed, carriage return, space and no-break space. *)
Definition is_space (c : ascii) : bool :=
  ((9 <=? code c) && (code c <=? 13)) || (code c =? 32) || (code c =? 160).

Definition is_empty (s : string) : bool :=
  match s with EmptyString => true | String _ _ => false end.

(** [s.startsWith(p)]: returns the rest of [s] after [p]. *)
Fixpoint strip_prefix (p s : string) : option string :=
  match p, s with
  | EmptyString, _ => Some s
  | String a p', String b s' => if Ascii.eqb a b then strip_prefix p' s' else None
  | String _ _, EmptyString => None
  end.

Definition startsWith (p s : string) : bool :=
  match strip_prefix p s with Some _ => true | None => false end.

(** [s.includes(p)] *)
Fixpoint includes (p s : string) : bool :=
  startsWith p s ||
  match s with
  | EmptyString => false
  | String _ s' => includes p s'
  end.

Fixpoint rev_acc (s acc : string) : string :=
  match s with
  | EmptyString => acc
  | String c s' => rev_acc s' (String c acc)
  end.

Definition rev (s : string) : string := rev_acc s EmptyString.

(** [s.endsWith(p)] *)
Definition endsWith (p s : string) : bool := startsWith (rev p) (rev s).

(** [s.split('\n')]: always at least one piece. *)
Fixpoint split_lines (s : string) : list string :=
  match s with
  | EmptyString => [EmptyString]
  | String c s' =>
      if code c =? 10 then EmptyString :: split_lines s'
      else match split_lines s' with
           | h :: t => String c h :: t
           | [] => [String c EmptyString]
           end
  end.

(** [a.join(sep)] *)
Fixpoint join (sep : string) (l : list string) : string :=
  match l with
  | [] => EmptyString
  | [x] => x
  | x :: l' => x +:+ sep +:+ join sep l'
  end.

Fixpoint trimStart (s : string) : string :=
  match s with
  | EmptyString => EmptyString
  | String c s' => if is_space c then trimStart s' else s
  end.

Fixpoint trimEnd (s : string) : string :=
  match s with
  | EmptyString => EmptyString
  | String c s' =>
      let r := trimEnd s' in
      if is_space c && is_empty r then EmptyString else String c r
  end.

(** [s.trim()] *)
Definition trim (s : string) : string := trimEnd (trimStart s).

(** [s.slice(0, n)] for [n >= 0] *)
Fixpoint slice0 (n : nat) (s : string) : string :=
  match n, s with
  | S k, String c s' => String c (slice0 k s')
  | _, _ => EmptyString
  end.

(** [String(n)] for a natural number. *)
Definition of_nat (n : nat) : string := NilEmpty.string_of_uint (Nat.to_uint n).

(** [String(z)] for an integer. *)
Definition of_Z (z : Z) : string :=
  match z with
  | Z0 => "0"
  | Zpos p => of_nat (Pos.to_nat p)
  | Zneg p => "-" +:+ of_nat (Pos.to_nat p)
  end.

(** *** The regular expressions of the sources

    Every pattern of the sources is a sequence of literal characters,
    character classes, [.*] and [\s*]; [Opt c] is [c?]. *)

Inductive item : Type :=
| Chr (c : ascii)        (* a literal character, compared exactly *)
| ChrI (c : ascii)       (* a literal character under the [i] flag *)
| Digit                  (* [\d] *)
| Letter                 (* [[a-z]] under the [i] flag *)
| Opt (c : ascii)        (* [c?] *)
| Spaces                 (* [\s*] *)
| DotStar.               (* [.*] *)

Definition pattern := list item.

Fixpoint lit (s : string) : pattern :=
  match s with
  | EmptyString => []
  | String c s' => Chr c :: lit s'
  end.

Fixpoint lit_i (s : string) : pattern :=
  match s with
  | EmptyString => []
  | String c s' => ChrI c :: lit_i s'
  end.

(** [match_here p s]: the pattern matches a prefix of [s]; the result is
    what follows the match, with the backtracking order of the source
    engine (greedy [?] and [*]). *)
Fixpoint match_here (p : pattern) (s : string) {struct p} : option string :=
  let one (ok : ascii -> bool) (p' : pattern) :=
    match s with
    | String c s' => if ok c then match_here p' s' else None
    | EmptyString => None
    end in
  match p with
  | [] => Some s
  | Chr a :: p' => one (Ascii.eqb a) p'
  | ChrI a :: p' => one (eqb_ci a) p'
  | Digit :: p' => one is_digit p'
  | Letter :: p' => one is_letter p'
  | Opt a :: p' =>
      match one (Ascii.eqb a) p' with
      | Some r => Some r
      | None => match_here p' s
      end
  | Spaces :: p' =>
      (fix star (t : string) : option string :=
         match t with
         | String c t' =>
             if is_space c then
               match star t' with
               | Some r => Some r
               | None => match_here p' t
               end
             else match_here p' t
         | EmptyString => match_here p' t
         end) s
  | DotStar :: p' =>
      (fix star (t : string) : option string :=
         match t with
         | String c t' =>
             if is_line_terminator c then match_here p' t
             else
               match star t' with
               | Some r => Some r
               | None => match_here p' t
               end
         | EmptyString => match_here p' t
         end) s
  end.

(** [re.test(s)] for a pattern without anchor: a match at some position. *)
Fixpoint test (p : pattern) (s : string) : bool :=
  match match_here p s with
  | Some _ => true
  | None =>
      match s with
      | EmptyString => false
      | String _ s' => test p s'
      end
  end.

(** [s.replace(re, '')] with the [g] flag, for the alternatives [ps] tried
    in order at each position; [skip] counts the characters of the match
    that is being removed. Every pattern it is used with matches at least
    one character. *)
Fixpoint remove_all_from (ps : list pattern) (skip : nat) (s : string) : string :=
  match s with
  | EmptyString => EmptyString
  | String c s' =>
      match skip with
      | S k => remove_all_from ps k s'
      | O =>
          let matched :=
            fold_right
              (fun p acc =>
                 match match_here p s with
                 | Some r => Some (String.length s - String.length r)
                 | None => acc
                 end) None ps in
          match matched with
          | Some (S k) => remove_all_from ps k s'
          | _ => String c (remove_all_from ps 0 s')
          end
      end
  end.

Definition remove_all (ps : list pattern) (s : string) : string :=
  remove_all_from ps 0 s.

(** [s.replace(/\s+/g, ' ')] *)
Fixpoint collapse_spaces (s : string) : string :=
  match s with
  | EmptyString => EmptyString
  | String c s' =>
      if is_space c then
        match s' with
        | String c' _ =>
            if is_space c' then collapse_spaces s'
            else String " " (collapse_spaces s')
        | EmptyString => String " " EmptyString
        end
      else String c (collapse_spaces s')
  end.

End JsString.

(** ** utils/errors.js *)

Module Errors.
Import JsString.

(** The error classes of the source; [OtherError] is any other object
    with a message (a plain [Error], a [TypeError], ...). *)
Inductive ErrorClass : Type :=
| OtherError (name : string)
| DownloadError (videoId : string) (isRetryable : bool)
| ParseError (filePath : string)
| FileOperationError (path operation : string).

Record JsError : Type := mkError { cls : ErrorClass; message : string }.

(** What a [throw] can carry: [undefined] or an error object. *)
Inductive Thrown : Type :=
| ThrownUndefined
| ThrownError (e : JsError).

Definition TypeError (msg : string) : JsError := mkError (OtherError "TypeError") msg.

(** Reading [.message] of a thrown value: a [TypeError] on [undefined]. *)
Definition message_of (t : Thrown) : Outcome string Thrown :=
  match t with
  | ThrownUndefined =>
      Threw (ThrownError (TypeError "Cannot read properties of undefined (reading 'message')"))
  | ThrownError e => Returned (message e)
  end.

Definition error_name (e : JsError) : string :=
  match cls e with
  | OtherError n => n
  | DownloadError _ _ => "DownloadError"
  | ParseError _ => "ParseError"
  | FileOperationError _ _ => "FileOperationError"
  end.

(** [error.toString()] *)
Definition toString (e : JsError) : string :=
  if is_empty (message e) then error_name e
  else error_name e +:+ ": " +:+ message e.

Definition nonRetryablePatterns : list pattern :=
  [ lit_i "video" ++ [DotStar] ++ lit_i "not available";
    lit_i "video" ++ [DotStar] ++ lit_i "private";
    lit_i "video" ++ [DotStar] ++ lit_i "deleted";
    lit_i "video" ++ [DotStar] ++ lit_i "removed";
    lit_i "invalid" ++ [DotStar] ++ lit_i "url";
    lit_i "404";
    lit_i "no" ++ [DotStar] ++ lit_i "subtitle";
    lit_i "subtitle" ++ [DotStar] ++ lit_i "not" ++ [DotStar] ++ lit_i "available";
    lit_i "permission denied";
    lit_i "access denied" ].

Definition retryablePatterns : list pattern :=
  [ lit_i "network";
    lit_i "timeout";
    lit_i "ECONNRESET";
    lit_i "ETIMEDOUT";
    lit_i "ENOTFOUND";
    lit_i "rate" ++ [DotStar] ++ lit_i "limit";
    lit_i "too many requests";
    lit_i "503";
    lit_i "502" ].

(** [patterns.some(pattern => pattern.test(s))] *)
Definition some_test (ps : list pattern) (s : string) : bool :=
  existsb (fun p => test p s) ps.

Definition isRetryableError (error : JsError) : bool :=
  let errorMessage := message error in
  if some_test nonRetryablePatterns errorMessage then false
  else
    match cls error with
    | DownloadError _ isRetryable => isRetryable
    | _ => some_test retryablePatterns errorMessage
    end.

End Errors.

(** ** config/constants.js *)

Module CONFIG.
Definition DEFAULT_CONCURRENCY : nat := 3.
Definition MAX_CONCURRENCY : nat := 10.
Definition MIN_CONCURRENCY : nat := 1.
Definition DEFAULT_MAX_RETRIES : Z := 3.
Definition RETRY_BASE_DELAY : Z := 1000.
Definition RETRY_MAX_DELAY : Z := 30000.
Definition RETRY_BACKOFF_FACTOR : Z := 2.
End CONFIG.

(** ** Numbers

    A Number of the language is a binary64 value; products and quotients
    are rounded to the nearest value, ties to even. *)

Module JsDouble.
Import SpecFloat.

Definition number : Type := spec_float.
Definition prec : Z := 53.
Definition emax : Z := 1024.

Definition NaN : number := S754_nan.

(** The Number an integer literal denotes: the nearest binary64 value. *)
Definition of_Z (z : Z) : number := binary_normalize prec emax z 0 false.
Definition of_nat (n : nat) : number := of_Z (Z.of_nat n).

(** [a * b] and [a / b] *)
Definition mul (a b : number) : number := SFmul prec emax a b.
Definition div (a b : number) : number := SFdiv prec emax a b.

Definition is_nan (a : number) : bool :=
  match a with S754_nan => true | _ => false end.

(** [a < b] and [a <= b] *)
Definition ltb (a b : number) : bool := SFltb a b.
Definition leb (a b : number) : bool := SFleb a b.

(** [Math.min(a, b)]: [NaN] when an argument is; of the two zeros the
    negative one is the smaller. *)
Definition Math_min (a b : number) : number :=
  if is_nan a || is_nan b then NaN
  else
    match SFcompare a b with
    | Some Lt => a
    | Some Gt => b
    | _ => match a with S754_zero true => a | _ => b end
    end.

(** The integer a Number is, when it is one. *)
Definition to_Z (a : number) : option Z :=
  match a with
  | S754_zero _ => Some 0%Z
  | S754_finite s m e =>
      let v := if s then Z.neg m else Z.pos m in
      if (0 <=? e)%Z then Some (v * 2 ^ e)%Z
      else if (v mod 2 ^ (- e) =? 0)%Z then Some (v / 2 ^ (- e))%Z else None
  | _ => None
  end.

(** [Math.round(a)] of a finite Number: the nearest integer, a half going
    up; [None] for [NaN] and the infinities, which it returns as they
    are. *)
Definition Math_round (a : number) : option Z :=
  match a with
  | S754_zero _ => Some 0%Z
  | S754_finite s m e =>
      let v := if s then Z.neg m else Z.pos m in
      if (0 <=? e)%Z then Some (v * 2 ^ e)%Z
      else Some ((2 * v + 2 ^ (- e)) / 2 ^ (1 - e))%Z
  | _ => None
  end.
End JsDouble.

(** ** lib/retry.js *)

Module Retry.
Import Errors JsDouble.

(** [maxRetries] is a count; the three parameters of the delay are
    Numbers. *)
Record Options : Type := mkOptions {
  maxRetries : Z;
  baseDelay : number;
  maxDelay : number;
  backoffFactor : number
}.

(** The defaults of the destructuring in [withRetry]. *)
Definition defaults : Options :=
  {| maxRetries := CONFIG.DEFAULT_MAX_RETRIES;
     baseDelay := of_Z CONFIG.RETRY_BASE_DELAY;
     maxDelay := of_Z CONFIG.RETRY_MAX_DELAY;
     backoffFactor := of_Z CONFIG.RETRY_BACKOFF_FACTOR |}.

(** What one call of [withRetry] did: how it settled, how many times it
    invoked the wrapped operation, and the delays it slept, in order. *)
Record Run (R : Type) : Type := mkRun {
  result : Outcome R Thrown;
  calls : nat;
  delays : list number
}.
Arguments mkRun {R} _ _ _.
Arguments result {R} _.
Arguments calls {R} _.
Arguments delays {R} _.

Section WithRetry.
Context {R : Type}.
(** [Math.pow], whose result the language leaves to the engine: an
    approximation of the power. *)
Variable Math_pow : number -> number -> number.
(** [fn k] is how the [k]-th invocation (from 0) of the wrapped
    operation settles. *)
Variable fn : nat -> Outcome R Thrown.
Variable options : Options.

(** [Math.min(baseDelay * Math.pow(backoffFactor, attempt - 1), maxDelay)] *)
Definition delay_of (attempt : Z) : number :=
  Math_min (mul (baseDelay options)
                (Math_pow (backoffFactor options) (of_Z (attempt - 1))))
           (maxDelay options).

(** The [while (attempt <= maxRetries)] loop; [None] when [fuel]
    iterations were not enough. *)
Fixpoint loop (fuel : nat) (attempt : Z) (lastError : Thrown)
         (invoked : nat) (slept : list number) : option (Run R) :=
  if (attempt <=? maxRetries options)%Z then
    match fuel with
    | O => None
    | S fuel' =>
        match fn invoked with
        | Returned r => Some (mkRun (Returned r) (S invoked) slept)
        | Threw error =>
            let attempt := (attempt + 1)%Z in
            match error with
            | ThrownUndefined =>
                (* isRetryableError reads error.message *)
                Some (mkRun
                        (Threw (ThrownError (TypeError
                           "Cannot read properties of undefined (reading 'message')")))
                        (S invoked) slept)
            | ThrownError e =>
                if negb (isRetryableError e) then
                  Some (mkRun (Threw error) (S invoked) slept)
                else if (attempt >? maxRetries options)%Z then
                  Some (mkRun (Threw error) (S invoked) slept)
                else
                  let delay := delay_of attempt in
                  loop fuel' attempt error (S invoked) (slept ++ [delay])
            end
        end
    end
  else Some (mkRun (Threw lastError) invoked slept).

Definition withRetry : option (Run R) :=
  loop (Z.to_nat (maxRetries options + 1)) 0%Z ThrownUndefined 0 [].
End WithRetry.

End Retry.

(** ** lib/queue.js *)

Module Queue.

Section ProcessQueue.
Context {T R E : Type}.

Record Succeeded : Type := mkSucceeded { s_item : T; s_result : R; s_index : nat }.
Record Failed : Type := mkFailed { f_item : T; f_error : E; f_index : nat }.
Record Results : Type := mkResults { succeeded : list Succeeded; failed : list Failed }.

Variable processFn : T -> nat -> Outcome R E.

(** The function given to [limit]: the worker runs and its outcome is
    pushed on one of the two buckets. *)
Definition settle (job : T * nat) (results : Results) : Results :=
  let '(item, index) := job in
  match processFn item index with
  | Returned result =>
      mkResults (succeeded results ++ [mkSucceeded item result index]) (failed results)
  | Threw error =>
      mkResults (succeeded results) (failed results ++ [mkFailed item error index])
  end.

(** [items.map((item, index) => ...)] *)
Fixpoint enumerate (from : nat) (items : list T) : list (T * nat) :=
  match items with
  | [] => []
  | item :: rest => (item, from) :: enumerate (S from) rest
  end.

(** The limiter ([pLimit] of the p-limit library): jobs wait in [pending]
    in submission order and run in [active]. *)
Record Sched : Type := mkSched {
  pending : list (T * nat);
  active : list (T * nat);
  results : Results
}.

(** Jobs start, first submitted first, while fewer than
    [concurrency] are in flight. *)
Fixpoint dequeue (concurrency : nat) (pending active : list (T * nat))
  : list (T * nat) * list (T * nat) :=
  match pending with
  | [] => ([], active)
  | job :: rest =>
      if length active <? concurrency then dequeue concurrency rest (active ++ [job])
      else (pending, active)
  end.

(** Which of the jobs in flight settles next is not decided by the
    queue: [pick n] chooses at the [n]-th completion. *)
Fixpoint drain (fuel : nat) (concurrency : nat) (pick : nat -> nat) (n : nat)
         (st : Sched) : option Results :=
  let '(pending', active') := dequeue concurrency (pending st) (active st) in
  match active' with
  | [] => Some (results st)
  | first :: _ =>
      match fuel with
      | O => None
      | S fuel' =>
          let k := pick n mod length active' in
          let job := nth k active' first in
          drain fuel' concurrency pick (S n)
            (mkSched pending' (firstn k active' ++ skipn (S k) active')
                     (settle job (results st)))
      end
  end.

(** [processQueue(items, processFn, concurrency)]. The limiter refuses a
    concurrency below 1 with a [TypeError]; [None] when the fuel of
    [drain] was not enough. *)
Definition processQueue (items : list T) (concurrency : nat) (pick : nat -> nat)
  : option (Outcome Results string) :=
  if concurrency =? 0 then
    Some (Threw "Expected `concurrency` to be a number from 1 and up")
  else
    match drain (length items) concurrency pick 0
            (mkSched (enumerate 0 items) [] (mkResults [] [])) with
    | Some results => Some (Returned results)
    | None => None
    end.
End ProcessQueue.

Arguments Succeeded : clear implicits.
Arguments Failed : clear implicits.
Arguments Results : clear implicits.
Arguments Sched : clear implicits.

End Queue.

(** ** core/parser.js *)

Module Parser.
Import JsString Errors.

(** [/<\d{2}:\d{2}:\d{2}\.\d{3}>/] *)
Definition timing_tag : pattern :=
  [Chr "<"; Digit; Digit; Chr ":"; Digit; Digit; Chr ":"; Digit; Digit;
   Chr "."; Digit; Digit; Digit; Chr ">"].

(** [/<\/?[a-z]>/i] *)
Definition style_tag : pattern := [Chr "<"; Opt "/"; Letter; Chr ">"].

(** The three replacements and the trim applied to a text line. *)
Definition clean (line : string) : string :=
  let text := remove_all [timing_tag] line in
  let text := remove_all [style_tag] text in
  trim (collapse_spaces text).

(** *** parseVTT *)

Definition vtt_skipped (line : string) : bool :=
  is_empty line
  || startsWith "WEBVTT" line
  || includes "Kind:" line
  || includes "Language:" line
  || includes "-->" line.

(** The loop state: [textLines] and [previousText]. *)
Definition LineState : Type := list string * string.

Definition parseVTT_step (st : LineState) (raw : string) : LineState :=
  let line := trim raw in
  if vtt_skipped line then st
  else
    let text := clean line in
    if negb (is_empty text) && negb (String.eqb text (snd st))
    then (fst st ++ [text], text)
    else st.

Definition parseVTT_lines (content : string) : list string :=
  fst (fold_left parseVTT_step (split_lines content) ([], EmptyString)).

Definition parseVTT (content : string) : string :=
  join nl (parseVTT_lines content).

(** *** parseVTTWithTimestamps *)

Record Cue : Type := mkCue { start : string; end_ : string; text : string }.

(** [HH:MM:SS.mmm] *)
Definition timecode : pattern :=
  [Digit; Digit; Chr ":"; Digit; Digit; Chr ":"; Digit; Digit; Chr "."; Digit; Digit; Digit].

(** [line.match(/^(\d{2}:\d{2}:\d{2}\.\d{3})\s*-->\s*(\d{2}:\d{2}:\d{2}\.\d{3})/)]:
    the two captured groups. *)
Definition timestampMatch (line : string) : option (string * string) :=
  match match_here (timecode ++ [Spaces] ++ lit "-->" ++ [Spaces]) line with
  | Some second =>
      match match_here timecode second with
      | Some _ => Some (slice0 12 line, slice0 12 second)
      | None => None
      end
  | None => None
  end.

Record CueState : Type := mkCueState {
  captions : list Cue;
  currentCaption : option Cue;
  previousText : string
}.

(** [currentCaption && currentCaption.text && currentCaption.text !== previousText] *)
Definition save_caption (st : CueState) : list Cue * string :=
  match currentCaption st with
  | Some c =>
      if negb (is_empty (text c)) && negb (String.eqb (text c) (previousText st))
      then (captions st ++ [c], text c)
      else (captions st, previousText st)
  | None => (captions st, previousText st)
  end.

(** [line.startsWith('WEBVTT') || line.includes('Kind:') || line.includes('Language:')] *)
Definition is_header (line : string) : bool :=
  startsWith "WEBVTT" line || includes "Kind:" line || includes "Language:" line.

Definition parseVTTWithTimestamps_step (st : CueState) (raw : string) : CueState :=
  let line := trim raw in
  if is_header line then st
  else
    match timestampMatch line with
    | Some (s, e) =>
        let '(caps, prev) := save_caption st in
        mkCueState caps (Some (mkCue s e EmptyString)) prev
    | None =>
        match currentCaption st with
        | Some c =>
            if negb (is_empty line) then
              let t := clean line in
              if negb (is_empty t)
              then mkCueState (captions st) (Some (mkCue (start c) (end_ c) t)) (previousText st)
              else st
            else st
        | None => st
        end
    end.

Definition parseVTTWithTimestamps (content : string) : list Cue :=
  let st := fold_left parseVTTWithTimestamps_step (split_lines content)
              (mkCueState [] None EmptyString) in
  fst (save_caption st).

(** *** The files the conversions read and write

    A path holds a content or does not exist; a path in [locked] can be
    neither written nor removed. *)
Record FS : Type := mkFS {
  files : gmap string string;
  locked : gset string
}.

Definition readFile (fs : FS) (filePath : string) : Outcome string Thrown :=
  match files fs !! filePath with
  | Some content => Returned content
  | None =>
      Threw (ThrownError (mkError (FileOperationError filePath "read")
        ("Failed to read file: ENOENT: no such file or directory, open '" +:+ filePath +:+ "'")))
  end.

Definition writeFile (fs : FS) (filePath content : string) : Outcome unit Thrown * FS :=
  if decide (filePath ∈ locked fs) then
    (Threw (ThrownError (mkError (FileOperationError filePath "write")
        ("Failed to write file: EACCES: permission denied, open '" +:+ filePath +:+ "'"))), fs)
  else (Returned tt, mkFS (<[filePath := content]> (files fs)) (locked fs)).

Definition deleteFile (fs : FS) (filePath : string) : Outcome unit Thrown * FS :=
  match files fs !! filePath with
  | None => (Returned tt, fs)
  | Some _ =>
      if decide (filePath ∈ locked fs) then
        (Threw (ThrownError (mkError (FileOperationError filePath "unlink")
          ("Failed to delete file: EACCES: permission denied, unlink '" +:+ filePath +:+ "'"))), fs)
      else (Returned tt, mkFS (delete filePath (files fs)) (locked fs))
  end.

(** *** convertToPlainText *)

(** A caption of the SRT library; [cap_text] is absent on entries that are
    not cues. *)
Record Caption : Type := mkCaption { cap_text : option string }.

Definition srt_step (st : LineState) (caption : Caption) : LineState :=
  match cap_text caption with
  | None => st
  | Some t =>
      if is_empty t then st
      else
        let text := trim t in
        if negb (is_empty text) && negb (String.eqb text (snd st))
        then (fst st ++ [text], text)
        else st
  end.

Definition srt_lines (captions : list Caption) : list string :=
  fst (fold_left srt_step captions ([], EmptyString)).

Section Convert.
(** [subsrt.parse], the SRT library. *)
Variable subsrt_parse : string -> Outcome (list Caption) Thrown.

(** The outer [catch]: a [ParseError] passes, anything else is wrapped. *)
Definition wrap_conversion_error (subtitlePath : string) (error : Thrown) : Thrown :=
  match error with
  | ThrownError (mkError (ParseError _) _) => error
  | _ =>
      match message_of error with
      | Returned m => ThrownError (mkError (ParseError subtitlePath) ("Conversion failed: " +:+ m))
      | Threw typeError => typeError
      end
  end.

(** The part of the [try] block up to [plainText]. *)
Definition plainText_of (subtitlePath content : string) : Outcome string Thrown :=
  if endsWith ".vtt" subtitlePath then Returned (parseVTT content)
  else
    match subsrt_parse content with
    | Threw error =>
        match message_of error with
        | Returned m =>
            Threw (ThrownError (mkError (ParseError subtitlePath)
                                  ("Failed to parse subtitle file: " +:+ m)))
        | Threw typeError => Threw typeError
        end
    | Returned captions => Returned (join nl (srt_lines captions))
    end.

Definition convertToPlainText (fs : FS) (subtitlePath outputPath : string)
           (deleteOriginal : bool) : Outcome string Thrown * FS :=
  let catch (error : Thrown) (fs' : FS) :=
    (Threw (wrap_conversion_error subtitlePath error), fs') in
  match readFile fs subtitlePath with
  | Threw error => catch error fs
  | Returned content =>
      match plainText_of subtitlePath content with
      | Threw error => catch error fs
      | Returned plainText =>
          match writeFile fs outputPath plainText with
          | (Threw error, fs1) => catch error fs1
          | (Returned _, fs1) =>
              if deleteOriginal then
                match deleteFile fs1 subtitlePath with
                | (Threw error, fs2) => catch error fs2
                | (Returned _, fs2) => (Returned plainText, fs2)
                end
              else (Returned plainText, fs1)
          end
      end
  end.
End Convert.

End Parser.

(** ** core/downloader.js and core/extractor.js: one video *)

Module Downloader.
Import JsString Errors.

Record Video : Type := mkVideo {
  id : string;
  title : string;
  url : string;
  upload_date : option string;
  upload_date_raw : option string;
  uploader : option string;
  duration : option Z
}.

Record VideoInfo : Type := mkVideoInfo {
  info_upload_date : option string;
  info_uploader : option string;
  info_duration : option Z
}.

(** [a || b] on optional strings and numbers: absent, [''] and [0] are falsy. *)
Definition or_string (a b : option string) : option string :=
  match a with
  | Some s => if is_empty s then b else a
  | None => b
  end.

Definition or_number (a b : option Z) : option Z :=
  match a with
  | Some z => if (z =? 0)%Z then b else a
  | None => b
  end.

(** [enrichVideoMetadata]: the fields of the supplementary fetch fill the
    descriptor; a failed fetch returns the descriptor as it was. *)
Definition enrichVideoMetadata (video : Video) (fullInfo : Outcome VideoInfo JsError) : Video :=
  match fullInfo with
  | Returned info =>
      mkVideo (id video) (title video) (url video)
              (or_string (info_upload_date info) (upload_date video))
              (upload_date_raw video)
              (or_string (info_uploader info) (uploader video))
              (or_number (info_duration info) (duration video))
  | Threw _ => video
  end.

(** How the external steps of one invocation of [downloadVideoSubtitle]
    settle: the supplementary fetch, the directories, the external
    downloader, the search for caption files, and, for a caption file, its
    conversion and move (the final path and its size). *)
Record Steps : Type := mkSteps {
  getVideoInfo : Outcome VideoInfo JsError;
  ensureTempDir : Outcome unit Thrown;
  executeYtDlp : Outcome unit Thrown;
  findSubtitleFiles : Outcome (list string) Thrown;
  ensureOutputDir : Outcome unit Thrown;
  convertAndMove : string -> Outcome (string * Z) Thrown
}.

Record DownloadResult : Type := mkDownloadResult {
  r_videoId : string;
  r_title : string;
  r_directory : string;
  r_filesCount : nat;
  r_totalSize : Z;
  r_outputFiles : list string
}.

(** The [for (const subtitleFile of subtitleFiles)] loop. *)
Fixpoint convert_all (steps : Steps) (subtitleFiles : list string)
         (totalSize : Z) (outputFiles : list string) : Outcome (Z * list string) Thrown :=
  match subtitleFiles with
  | [] => Returned (totalSize, outputFiles)
  | subtitleFile :: rest =>
      match convertAndMove steps subtitleFile with
      | Threw error => Threw error
      | Returned (finalPath, size) =>
          convert_all steps rest (totalSize + size)%Z (outputFiles ++ [finalPath])
      end
  end.

(** The [try] block. *)
Definition attempt (enrichedVideo : Video) (outputDir : string) (steps : Steps)
  : Outcome DownloadResult Thrown :=
  match executeYtDlp steps with
  | Threw error => Threw error
  | Returned _ =>
      match findSubtitleFiles steps with
      | Threw error => Threw error
      | Returned subtitleFiles =>
          if length subtitleFiles =? 0 then
            Threw (ThrownError (mkError (DownloadError (id enrichedVideo) false)
                                        "No subtitles available for this video"))
          else
            match ensureOutputDir steps with
            | Threw error => Threw error
            | Returned _ =>
                match convert_all steps subtitleFiles 0%Z [] with
                | Threw error => Threw error
                | Returned (totalSize, outputFiles) =>
                    Returned (mkDownloadResult (id enrichedVideo) (title enrichedVideo)
                                outputDir (length subtitleFiles) totalSize outputFiles)
                end
            end
      end
  end.

(** The [catch] block: every failure of the [try] block leaves as a
    [DownloadError] for [video.id]. *)
Definition rethrow (video : Video) (error : Thrown) : Thrown :=
  match error with
  | ThrownUndefined =>
      ThrownError (TypeError "Cannot read properties of undefined (reading 'message')")
  | ThrownError e =>
      let errorMessage := if is_empty (message e) then toString e else message e in
      if includes "No subtitles" errorMessage
         || includes "not available" errorMessage
         || includes "private" errorMessage
         || includes "deleted" errorMessage
      then ThrownError (mkError (DownloadError (id video) false) errorMessage)
      else ThrownError (mkError (DownloadError (id video) true) errorMessage)
  end.

Definition downloadVideoSubtitle (video : Video) (outputDir : string) (steps : Steps)
  : Outcome DownloadResult Thrown :=
  let enrichedVideo :=
    match or_string (upload_date video) None with
    | None => enrichVideoMetadata video (getVideoInfo steps)
    | Some _ => video
    end in
  match ensureTempDir steps with
  | Threw error => Threw error
  | Returned _ =>
      match attempt enrichedVideo outputDir steps with
      | Returned r => Returned r
      | Threw error => Threw (rethrow video error)
      end
  end.

(** The operation [downloadSubtitles] hands to [withRetry] for a video:
    [world k] is how the external steps settle at the [k]-th invocation;
    only [maxRetries] is passed on, the delays are the defaults. *)
Definition retry_options (maxRetries : Z) : Retry.Options :=
  Retry.mkOptions maxRetries (Retry.baseDelay Retry.defaults)
                  (Retry.maxDelay Retry.defaults) (Retry.backoffFactor Retry.defaults).

Definition download_with_retry (Math_pow : JsDouble.number -> JsDouble.number -> JsDouble.number)
           (video : Video) (outputDir : string)
           (world : nat -> Steps) (maxRetries : Z) : option (Retry.Run DownloadResult) :=
  Retry.withRetry Math_pow (fun k => downloadVideoSubtitle video outputDir (world k))
                  (retry_options maxRetries).

End Downloader.

(** ** Numbers and terminal styling shared by the reports *)

Module JsNumber.
Import JsDouble.
(** [Math.round((a / b) * 100)] on two counters: the quotient and the
    product are rounded as Numbers, then the nearest integer is taken, a
    half going up. (A counter starts at 0 and grows by 1, so neither [NaN]
    nor an infinity comes out of a division by a counter that is not 0;
    they count as 0 here.) *)
Definition round_percent (a b : nat) : Z :=
  match Math_round (mul (div (of_nat a) (of_nat b)) (of_Z 100)) with
  | Some percentage => percentage
  | None => 0%Z
  end.
End JsNumber.

(** The styling functions of the terminal library; a chain such as
    [chalk.bold.red] applies both. *)
Record Chalk : Type := mkChalk {
  bold : string -> string;
  dim : string -> string;
  red : string -> string;
  green : string -> string;
  cyan : string -> string;
  yellow : string -> string
}.

(** ** lib/stats.js *)

Module Stats.
Import JsString Errors.

Record FailureRecord : Type := mkFailureRecord {
  videoId : string;
  title : string;
  error : string
}.

Record StatsCollector : Type := mkStats {
  startTime : Z;
  endTime : option Z;
  total : nat;
  succeeded : nat;
  failed : nat;
  count : nat;
  totalSize : Z;
  languages : list string;
  errors : list FailureRecord
}.

(** [reset()], called by the constructor at time [now]. *)
Definition reset (now : Z) : StatsCollector :=
  mkStats now None 0 0 0 0 0%Z [] [].

Definition start (st : StatsCollector) (now : Z) (totalVideos : nat) : StatsCollector :=
  mkStats now (endTime st) totalVideos (succeeded st) (failed st)
          (count st) (totalSize st) (languages st) (errors st).

(** [Set.prototype.add]: insertion order, no duplicate. *)
Definition set_add (l : list string) (x : string) : list string :=
  if existsb (String.eqb x) l then l else l ++ [x].

(** [languages] is [None] when the argument is not an array. *)
Definition recordSuccess (st : StatsCollector) (videoId title : string)
           (fileSize : Z) (langs : option (list string)) : StatsCollector :=
  mkStats (startTime st) (endTime st) (total st) (S (succeeded st)) (failed st)
          (S (count st)) (totalSize st + fileSize)%Z
          (match langs with
           | Some ls => fold_left set_add ls (languages st)
           | None => languages st
           end)
          (errors st).

Definition recordFailure (st : StatsCollector) (videoId title : string)
           (error : JsError) : StatsCollector :=
  mkStats (startTime st) (endTime st) (total st) (succeeded st) (S (failed st))
          (count st) (totalSize st) (languages st)
          (errors st ++ [mkFailureRecord videoId title (message error)]).

Definition end_ (st : StatsCollector) (now : Z) : StatsCollector :=
  mkStats (startTime st) (Some now) (total st) (succeeded st) (failed st)
          (count st) (totalSize st) (languages st) (errors st).

(** [this.endTime || Date.now()] *)
Definition getElapsedTime (st : StatsCollector) (now : Z) : Z :=
  let end_time :=
    match endTime st with
    | Some e => if (e =? 0)%Z then now else e
    | None => now
    end in
  (end_time - startTime st)%Z.

Definition getAverageTime (st : StatsCollector) (now : Z) : Q :=
  let completed := succeeded st + failed st in
  if completed =? 0 then 0%Q
  else (inject_Z (getElapsedTime st now) / inject_Z (Z.of_nat completed))%Q.

Definition getSuccessRate (st : StatsCollector) : Z :=
  if total st =? 0 then 0%Z
  else JsNumber.round_percent (succeeded st) (total st).

(** utils/file.js [formatDuration] *)
Definition formatDuration (ms : Q) : string :=
  let seconds := Qfloor (ms / 1000)%Q in
  let minutes := (seconds / 60)%Z in
  let hours := (minutes / 60)%Z in
  if (hours >? 0)%Z then
    of_Z hours +:+ "h " +:+ of_Z (Z.rem minutes 60) +:+ "m " +:+ of_Z (Z.rem seconds 60) +:+ "s"
  else if (minutes >? 0)%Z then
    of_Z minutes +:+ "m " +:+ of_Z (Z.rem seconds 60) +:+ "s"
  else of_Z seconds +:+ "s".

(** The glyphs of the report, each written as its UTF-8 bytes. *)
Definition RULE : string := "╠════════════════════════════════════════════════════════╣".
Definition CHECK : string := "✓".
Definition CROSS : string := "✗".
Definition BULLET : string := "•".

Section Report.
Variable chalk : Chalk.
(** utils/file.js [formatFileSize], a rendering with two decimals. *)
Variable formatFileSize : Z -> string.

(** The line of one failure in the itemized listing. *)
Definition failure_line (f : FailureRecord) : string :=
  red chalk ("  " +:+ BULLET +:+ " " +:+ title f +:+ ": " +:+ error f).

(** The [lines] array of [generateReport]. *)
Definition reportLines (st : StatsCollector) (now : Z) : list string :=
  let elapsed := getElapsedTime st now in
  let avgTime := getAverageTime st now in
  let successRate := getSuccessRate st in
  let lines :=
    [ "";
      bold chalk RULE;
      bold chalk (cyan chalk "📊 DOWNLOAD SUMMARY");
      bold chalk RULE;
      "Total Videos: " +:+ bold chalk (of_nat (total st));
      green chalk CHECK +:+ " Succeeded: " +:+ bold chalk (green chalk (of_nat (succeeded st))) ] in
  let lines :=
    if 0 <? failed st
    then lines ++ [red chalk CROSS +:+ " Failed: " +:+ bold chalk (red chalk (of_nat (failed st)))]
    else lines in
  let lines :=
    lines ++
    [ "Success Rate: " +:+ bold chalk (of_Z successRate +:+ "%");
      "Total Time: " +:+ bold chalk (formatDuration (inject_Z elapsed));
      "Avg Time/Video: " +:+ bold chalk (formatDuration avgTime) ] in
  let lines :=
    if (totalSize st >? 0)%Z
    then lines ++ ["Total Size: " +:+ bold chalk (formatFileSize (totalSize st))]
    else lines in
  let lines :=
    if 0 <? length (languages st)
    then lines ++ ["Languages: " +:+ bold chalk (join ", " (languages st))]
    else lines in
  let lines := lines ++ [bold chalk RULE] in
  if (0 <? length (errors st)) && (length (errors st) <=? 5) then
    fold_left (fun ls f => ls ++ [failure_line f]) (errors st)
              (lines ++ [""; bold chalk (red chalk "Failed Videos:")])
  else if 5 <? length (errors st) then
    lines ++ [""; red chalk (of_nat (length (errors st))
                             +:+ " videos failed (use --verbose for details)")]
  else lines.

Definition generateReport (st : StatsCollector) (now : Z) : string :=
  join nl (reportLines st now).
End Report.

Record StatsSnapshot : Type := mkSnapshot {
  snap_total : nat;
  snap_succeeded : nat;
  snap_failed : nat;
  snap_count : nat;
  snap_totalSize : Z;
  snap_languages : list string;
  snap_elapsed : Z;
  snap_averageTime : Q;
  snap_successRate : Z;
  snap_errors : list FailureRecord
}.

Definition getStats (st : StatsCollector) (now : Z) : StatsSnapshot :=
  mkSnapshot (total st) (succeeded st) (failed st) (count st) (totalSize st)
             (languages st) (getElapsedTime st now) (getAverageTime st now)
             (getSuccessRate st) (errors st).

End Stats.

(** ** lib/progress.js *)

Module Progress.
Import JsString.

(** A terminal spinner: its text, whether it spins, and the line it left
    when it was stopped with a mark. *)
Inductive Mark : Type := MarkSucceed | MarkFail | MarkWarn.

Record Spinner : Type := mkSpinner {
  sp_text : string;
  isSpinning : bool;
  persisted : option (Mark * string)
}.

Definition ora (text : string) : Spinner := mkSpinner text false None.
Definition sp_start (s : Spinner) : Spinner := mkSpinner (sp_text s) true (persisted s).
Definition sp_stop (s : Spinner) : Spinner := mkSpinner (sp_text s) false (persisted s).
Definition sp_persist (m : Mark) (text : string) (s : Spinner) : Spinner :=
  mkSpinner text false (Some (m, text)).

Inductive Status : Type := processing | succeeded | failed.

Definition Status_eqb (a b : Status) : bool :=
  match a, b with
  | processing, processing | succeeded, succeeded | failed, failed => true
  | _, _ => false
  end.

Record VideoEntry : Type := mkEntry {
  spinner : Spinner;
  title : string;
  status : Status
}.

Record Counters : Type := mkCounters {
  total : nat;
  completed : nat;
  n_succeeded : nat;
  n_failed : nat
}.

(** [videoSpinners] is a [Map]: keys in insertion order, one entry a key. *)
Record ProgressTracker : Type := mkTracker {
  mainSpinner : option Spinner;
  videoSpinners : list (string * VideoEntry);
  stats : Counters
}.

Fixpoint map_get (m : list (string * VideoEntry)) (k : string) : option VideoEntry :=
  match m with
  | [] => None
  | (k', v) :: m' => if String.eqb k k' then Some v else map_get m' k
  end.

Fixpoint map_set (m : list (string * VideoEntry)) (k : string) (v : VideoEntry)
  : list (string * VideoEntry) :=
  match m with
  | [] => [(k, v)]
  | (k', v') :: m' => if String.eqb k k' then (k, v) :: m' else (k', v') :: map_set m' k v
  end.

(** [truncate(text, maxLength)]; [text.slice(0, maxLength - 3)] counts
    from the end of the text when [maxLength] is below 3. *)
Definition truncate (text : string) (maxLength : nat) : string :=
  if String.length text <=? maxLength then text
  else if 3 <=? maxLength then slice0 (maxLength - 3) text +:+ "..."
  else slice0 (String.length text - (3 - maxLength)) text +:+ "...".

(** [title || video.title] *)
Definition or_title (title fallback : string) : string :=
  if is_empty title then fallback else title.

Definition new : ProgressTracker := mkTracker None [] (mkCounters 0 0 0 0).

Section Tracker.
Variable chalk : Chalk.

Definition getMainSpinnerText (t : ProgressTracker) : string :=
  let percentage :=
    if 0 <? total (stats t)
    then JsNumber.round_percent (completed (stats t)) (total (stats t))
    else 0%Z in
  let parts :=
    [ bold chalk ("Overall Progress: " +:+ of_Z percentage +:+ "%");
      green chalk (of_nat (n_succeeded (stats t)) +:+ " succeeded") ] in
  let parts :=
    if 0 <? n_failed (stats t)
    then parts ++ [red chalk (of_nat (n_failed (stats t)) +:+ " failed")]
    else parts in
  join (dim chalk " | ") parts.

Definition start (t : ProgressTracker) (totalVideos : nat) : ProgressTracker :=
  let t1 := mkTracker (mainSpinner t) (videoSpinners t)
              (mkCounters totalVideos (completed (stats t))
                          (n_succeeded (stats t)) (n_failed (stats t))) in
  mkTracker (Some (sp_start (ora (getMainSpinnerText t1)))) (videoSpinners t1) (stats t1).

(** The loop of [updateDisplay]: at most 5 processing entries are shown. *)
Fixpoint updateDisplay_from (activeCount : nat) (m : list (string * VideoEntry))
  : list (string * VideoEntry) :=
  match m with
  | [] => []
  | (k, v) :: m' =>
      if Status_eqb (status v) processing && (activeCount <? 5) then
        (k, mkEntry (if isSpinning (spinner v) then spinner v else sp_start (spinner v))
                    (title v) (status v))
          :: updateDisplay_from (S activeCount) m'
      else (k, v) :: updateDisplay_from activeCount m'
  end.

Definition updateDisplay (t : ProgressTracker) : ProgressTracker :=
  mkTracker (mainSpinner t) (updateDisplay_from 0 (videoSpinners t)) (stats t).

Definition updateMainSpinner (t : ProgressTracker) : ProgressTracker :=
  match mainSpinner t with
  | Some s =>
      mkTracker (Some (mkSpinner (getMainSpinnerText t) (isSpinning s) (persisted s)))
                (videoSpinners t) (stats t)
  | None => t
  end.

Definition startVideo (t : ProgressTracker) (videoId title : string) : ProgressTracker :=
  let spinner := ora (dim chalk (truncate title 60)) in
  updateDisplay
    (mkTracker (mainSpinner t)
               (map_set (videoSpinners t) videoId (mkEntry spinner title processing))
               (stats t)).

Definition succeedVideo (t : ProgressTracker) (videoId title : string) : ProgressTracker :=
  let stats1 := mkCounters (total (stats t)) (S (completed (stats t)))
                           (S (n_succeeded (stats t))) (n_failed (stats t)) in
  let spinners :=
    match map_get (videoSpinners t) videoId with
    | Some video =>
        map_set (videoSpinners t) videoId
          (mkEntry (sp_persist MarkSucceed
                      (green chalk (truncate (or_title title (Progress.title video)) 60))
                      (spinner video))
                   (Progress.title video) succeeded)
    | None => videoSpinners t
    end in
  updateMainSpinner (mkTracker (mainSpinner t) spinners stats1).

Definition failVideo (t : ProgressTracker) (videoId title errorMessage : string)
  : ProgressTracker :=
  let stats1 := mkCounters (total (stats t)) (S (completed (stats t)))
                           (n_succeeded (stats t)) (S (n_failed (stats t))) in
  let spinners :=
    match map_get (videoSpinners t) videoId with
    | Some video =>
        let message :=
          truncate (or_title title (Progress.title video)) 50
          +:+ " - " +:+ red chalk errorMessage in
        map_set (videoSpinners t) videoId
          (mkEntry (sp_persist MarkFail message (spinner video))
                   (Progress.title video) failed)
    | None => videoSpinners t
    end in
  updateMainSpinner (mkTracker (mainSpinner t) spinners stats1).

Definition stop_entry (e : string * VideoEntry) : string * VideoEntry :=
  (fst e, mkEntry (sp_stop (spinner (snd e))) (Progress.title (snd e)) (status (snd e))).

Definition complete (t : ProgressTracker) : ProgressTracker :=
  let main :=
    match mainSpinner t with
    | Some s =>
        if n_failed (stats t) =? 0
        then Some (sp_persist MarkSucceed
                     (green chalk (bold chalk "All downloads completed successfully!")) s)
        else Some (sp_persist MarkWarn
                     (yellow chalk (bold chalk
                        ("Completed with " +:+ of_nat (n_failed (stats t)) +:+ " failure(s)"))) s)
    | None => None
    end in
  mkTracker main (map stop_entry (videoSpinners t)) (stats t).

Definition stop (t : ProgressTracker) : ProgressTracker :=
  mkTracker (match mainSpinner t with Some s => Some (sp_stop s) | None => None end)
            (map stop_entry (videoSpinners t)) (stats t).

Definition getStats (t : ProgressTracker) : Counters := stats t.

(** The calls a caller can make on a tracker. *)
Inductive Call : Type :=
| CallStart (totalVideos : nat)
| CallStartVideo (videoId title : string)
| CallSucceedVideo (videoId title : string)
| CallFailVideo (videoId title errorMessage : string)
| CallComplete
| CallStop.

Definition call (t : ProgressTracker) (c : Call) : ProgressTracker :=
  match c with
  | CallStart n => start t n
  | CallStartVideo i ti => startVideo t i ti
  | CallSucceedVideo i ti => succeedVideo t i ti
  | CallFailVideo i ti m => failVideo t i ti m
  | CallComplete => complete t
  | CallStop => stop t
  end.

(** The tracker after a sequence of calls on a fresh one. *)
Definition after (calls : list Call) : ProgressTracker := fold_left call calls new.

Definition is_startVideo (videoId : string) (c : Call) : bool :=
  match c with
  | CallStartVideo i _ => String.eqb i videoId
  | _ => false
  end.

(** [videoId] was passed to [startVideo] by one of the calls. *)
Definition started (videoId : string) (calls : list Call) : bool :=
  existsb (is_startVideo videoId) calls.
End Tracker.

End Progress.

(** ** Sample inputs and auxiliary notions of the properties *)

Module Samples.
Import JsString Errors.

(** A [DownloadError] that says "retryable" while its message names an
    HTTP 404. *)
Definition flagged_404 : JsError :=
  mkError (DownloadError "dQw4w9WgXcQ" true) "HTTP Error 404: Not Found".

(** An operation that always times out, and an error no pattern knows. *)
Definition timeout_error : JsError := mkError (OtherError "Error") "connect ETIMEDOUT".
Definition always_times_out : nat -> Outcome unit Thrown :=
  fun _ => Threw (ThrownError timeout_error).
Definition boom : JsError := mkError (OtherError "Error") "boom".

(** Every delay of [slept] is the capped exponential of its position. *)
Definition delays_ok (Math_pow : JsDouble.number -> JsDouble.number -> JsDouble.number)
           (o : Retry.Options) (slept : list JsDouble.number) : Prop :=
  forall i d, nth_error slept i = Some d -> d = Retry.delay_of Math_pow o (Z.of_nat i + 1).

(** What holds of the queue while it runs. *)
Section QueueNotions.
Import Queue.
Context {T R E : Type}.
Variable processFn : T -> nat -> Outcome R E.
Variable items : list T.

(** A job is an item of the input with its position. *)
Definition job_ok (job : T * nat) : Prop :=
  nth_error items (snd job) = Some (fst job).

(** A bucket entry records what the worker did on that item. *)
Definition succeeded_ok (s : Succeeded T R) : Prop :=
  nth_error items (s_index s) = Some (s_item s)
  /\ processFn (s_item s) (s_index s) = Returned (s_result s).

Definition failed_ok (f : Failed T E) : Prop :=
  nth_error items (f_index f) = Some (f_item f)
  /\ processFn (f_item f) (f_index f) = Threw (f_error f).

Definition results_ok (res : Results T R E) : Prop :=
  Forall succeeded_ok (succeeded res) /\ Forall failed_ok (failed res).

(** The positions that have an entry in a bucket. *)
Definition indices (res : Results T R E) : list nat :=
  map s_index (succeeded res) ++ map f_index (failed res).

(** Every position is waiting, in flight, or in a bucket, once. *)
Definition sched_ok (st : Sched T R E) : Prop :=
  Permutation (map snd (pending st ++ active st) ++ indices (results st))
              (seq 0 (length items))
  /\ Forall job_ok (pending st ++ active st)
  /\ results_ok (results st).
End QueueNotions.

(** Caption documents. *)
Import Parser.

(** Three one-line cues, the second a repeat of the first. *)
Definition vtt_hello_hello_world : string :=
  join nl [ "WEBVTT"; "Kind: captions"; "Language: en"; "";
            "00:00:01.000 --> 00:00:02.000"; "Hello"; "";
            "00:00:02.000 --> 00:00:03.000"; "Hello"; "";
            "00:00:03.000 --> 00:00:04.000"; "World"; "" ].

Definition srt_hello_hello_world : list Caption :=
  [mkCaption (Some "Hello"); mkCaption (Some "Hello"); mkCaption (Some "World")].

(** Two cues of two text lines each, the second a repeat of the first. *)
Definition vtt_two_line_cue_twice : string :=
  join nl [ "WEBVTT"; "";
            "00:00:01.000 --> 00:00:02.000"; "A"; "B"; "";
            "00:00:02.000 --> 00:00:03.000"; "A"; "B"; "" ].

(** One cue of two text lines. *)
Definition vtt_hello_world_one_cue : string :=
  join nl [ "WEBVTT"; "";
            "00:00:01.000 --> 00:00:04.000"; "Hello"; "World"; "" ].

(** The cues of a tagged document in the words of the specification: a
    time-range line opens a cue, and the non-blank lines that follow it,
    up to the next time-range line or the end of the input, are its text
    lines. *)
Fixpoint spec_cues_from (current : option (list string)) (lines : list string)
  : list (list string) :=
  let closed := match current with Some block => [block] | None => [] end in
  match lines with
  | [] => closed
  | raw :: rest =>
      let line := trim raw in
      match timestampMatch line with
      | Some _ => closed ++ spec_cues_from (Some []) rest
      | None =>
          match current with
          | Some block =>
              if is_empty line then spec_cues_from current rest
              else spec_cues_from (Some (block ++ [line])) rest
          | None => spec_cues_from None rest
          end
      end
  end.

Definition spec_cue_lines (content : string) : list (list string) :=
  spec_cues_from None (split_lines content).

(** The test both plain-text loops apply to a text: it is pushed when it
    is not empty and differs from the text pushed last. *)
Definition push_distinct (st : LineState) (text : string) : LineState :=
  if negb (is_empty text) && negb (String.eqb text (snd st))
  then (fst st ++ [text], text)
  else st.

(** No entry equals the entry before it. *)
Fixpoint adjacent_distinct (l : list string) : Prop :=
  match l with
  | x :: ((y :: _) as rest) => x <> y /\ adjacent_distinct rest
  | _ => True
  end.

(** The state of a plain-text loop is coherent when [previousText] is the
    line pushed last and no line repeats its predecessor. *)
Definition coherent (st : LineState) : Prop :=
  snd st = List.last (fst st) EmptyString /\ adjacent_distinct (fst st).

(** A line of cue text: neither a header line nor a time-range line. *)
Definition is_text_line (raw : string) : Prop :=
  is_header (trim raw) = false /\ timestampMatch (trim raw) = None.

(** The cleaned text of the last of [texts] that is not empty after
    cleaning, [d] when there is none. *)
Definition last_text (d : string) (texts : list string) : string :=
  List.last (List.filter (fun t => negb (is_empty t)) (map (fun raw => clean (trim raw)) texts)) d.

(** A library that cannot parse anything. *)
Definition subsrt_fails : string -> Outcome (list Caption) Thrown :=
  fun _ => Threw (ThrownError (mkError (OtherError "Error") "Cannot determine subtitle format"))  .

Definition subsrt_hello : string -> Outcome (list Caption) Thrown :=
  fun _ => Returned srt_hello_hello_world.

Definition one_srt_file : FS := mkFS {[ "video.en.srt" := "junk" ]} ∅.

(** A file that is no subtitle file under a tagged name. *)
Definition junk : string := "%PDF-1.4 binary junk".
Definition one_junk_vtt_file : FS := mkFS {[ "video.en.vtt" := junk ]} ∅.

(** The tagged container of the three cues on disk, next to an SRT file. *)
Definition hello_files : FS :=
  mkFS (<[ "video.en.vtt" := vtt_hello_hello_world ]> {[ "video.en.srt" := "1" ]}) ∅.

(** A video, and a world in which the external downloader finds no
    caption file. *)
Definition sample_video : Downloader.Video :=
  Downloader.mkVideo "dQw4w9WgXcQ" "A video" "https://youtu.be/dQw4w9WgXcQ"
                     (Some "2009-10-25T06:57:33.000Z") (Some "20091025") None None.

Definition no_captions : Downloader.Steps :=
  Downloader.mkSteps (Threw boom) (Returned tt) (Returned tt) (Returned [])
                     (Returned tt) (fun _ => Threw ThrownUndefined).

(** A terminal without colours. *)
Definition plain_chalk : Chalk :=
  mkChalk (fun s => s) (fun s => s) (fun s => s) (fun s => s) (fun s => s) (fun s => s).

(** The collector with another failure list, and with none. *)
Definition with_errors (st : Stats.StatsCollector) (errs : list Stats.FailureRecord)
  : Stats.StatsCollector :=
  Stats.mkStats (Stats.startTime st) (Stats.endTime st) (Stats.total st)
                (Stats.succeeded st) (Stats.failed st) (Stats.count st)
                (Stats.totalSize st) (Stats.languages st) errs.

Definition without_errors (st : Stats.StatsCollector) : Stats.StatsCollector :=
  with_errors st [].

(** [recordFailure] for each of [failures], in order. *)
Definition record_failures (st : Stats.StatsCollector)
           (failures : list (string * string * JsError)) : Stats.StatsCollector :=
  fold_left (fun st f => Stats.recordFailure st (fst (fst f)) (snd (fst f)) (snd f))
            failures st.

Definition failure_record (f : string * string * JsError) : Stats.FailureRecord :=
  Stats.mkFailureRecord (fst (fst f)) (snd (fst f)) (message (snd f)).

Definition six_failures : Stats.StatsCollector :=
  record_failures (Stats.start (Stats.reset 0) 0 6)
    [ ("v1", "One", boom); ("v2", "Two", boom); ("v3", "Three", boom);
      ("v4", "Four", boom); ("v5", "Five", boom); ("v6", "Six", boom) ].
End Samples.

(** ** Notions of the numbers *)

Module NumberNotions.
Import JsDouble.

(** A [Math.pow] that is right on the integers: for an integer base and a
    natural exponent it returns the Number nearest to the power. (What it
    returns elsewhere plays no part.) *)
Definition nearest_pow (base exponent : number) : number :=
  match to_Z base, to_Z exponent with
  | Some b, Some e => if (0 <=? e)%Z then of_Z (b ^ e) else NaN
  | _, _ => NaN
  end.

(** [Math.pow(b, e)] is the power itself. *)
Definition exact_at (Math_pow : number -> number -> number) (b e : Z) : Prop :=
  Math_pow (of_Z b) (of_Z e) = of_Z (b ^ e).

(** The percentage of [s] in [t] on the rationals, rounded to the nearest
    integer with a half going up; and whether it is an integer and a
    half. *)
Definition half_up_percent (s t : nat) : Z :=
  ((200 * Z.of_nat s + Z.of_nat t) / (2 * Z.of_nat t))%Z.

Definition is_half (s t : nat) : bool :=
  ((200 * Z.of_nat s + Z.of_nat t) mod (2 * Z.of_nat t) =? 0)%Z.

(** A decision of what the rounded percentage of the code is held to:
    within 0 and 100, the rounded percentage of the rationals or, at a
    half, one below it, and 100 from 99.5 percent on. *)
Definition rate_ok (s t : nat) : bool :=
  let r := JsNumber.round_percent s t in
  let e := half_up_percent s t in
  (0 <=? r)%Z && (r <=? 100)%Z
  && ((r =? e)%Z || ((r =? e - 1)%Z && is_half s t))
  && Bool.eqb (r =? 100)%Z (199 * Z.of_nat t <=? 200 * Z.of_nat s)%Z.

Definition rates_ok (bound : nat) : bool :=
  forallb (fun t => forallb (fun s => rate_ok s t) (seq 0 (S t))) (seq 1 bound).
End NumberNotions.

(** ** Further notions of the properties *)

Module Notions.
Import JsString Errors.

(** The message with its ASCII capitals replaced by small letters. *)
Fixpoint lower (s : string) : string :=
  match s with
  | EmptyString => EmptyString
  | String c s' => String (to_lower c) (lower s')
  end.

(** A pattern under the [i] flag made of literal characters and [.*]. *)
Definition ci_item (i : item) : bool :=
  match i with
  | ChrI _ | DotStar => true
  | _ => false
  end.

(** The delays slept before the retries [from + 1], ..., [from + n]. *)
Definition delays_from (Math_pow : JsDouble.number -> JsDouble.number -> JsDouble.number)
           (o : Retry.Options) (from n : nat) : list JsDouble.number :=
  map (fun i => Retry.delay_of Math_pow o (Z.of_nat i + 1)) (seq from n).

(** The text the [catch] of [downloadVideoSubtitle] tests: [error.message || error.toString()]. *)
Definition message_or_string (e : JsError) : string :=
  if is_empty (message e) then toString e else message e.

(** The four substrings the [catch] of [downloadVideoSubtitle] looks for. *)
Definition mentions_unavailable (errorMessage : string) : bool :=
  includes "No subtitles" errorMessage
  || includes "not available" errorMessage
  || includes "private" errorMessage
  || includes "deleted" errorMessage.
End Notions.

(** ** core/parser.js: conversion to JSON *)

Module ParserJson.
Import JsString Errors Parser.

Section ConvertJSON.
(** [JSON.stringify({videoId, subtitles}, null, 2)] *)
Variable stringify : string -> list Cue -> string.

(** The [catch] of [convertToJSON]. *)
Definition wrap_json_error (subtitlePath : string) (error : Thrown) : Thrown :=
  match error with
  | ThrownError (mkError (ParseError _) _) => error
  | _ =>
      match message_of error with
      | Returned m => ThrownError (mkError (ParseError subtitlePath) ("JSON conversion failed: " +:+ m))
      | Threw typeError => typeError
      end
  end.

(** [convertToJSON]: the result is the [jsonData] object, its [videoId] and
    its [subtitles]. *)
Definition convertToJSON (fs : FS) (subtitlePath outputPath videoId : string)
           (deleteOriginal : bool) : Outcome (string * list Cue) Thrown * FS :=
  let catch (error : Thrown) (fs' : FS) :=
    (Threw (wrap_json_error subtitlePath error), fs') in
  match readFile fs subtitlePath with
  | Threw error => catch error fs
  | Returned content =>
      let captions := parseVTTWithTimestamps content in
      match writeFile fs outputPath (stringify videoId captions) with
      | (Threw error, fs1) => catch error fs1
      | (Returned _, fs1) =>
          if deleteOriginal then
            match deleteFile fs1 subtitlePath with
            | (Threw error, fs2) => catch error fs2
            | (Returned _, fs2) => (Returned (videoId, captions), fs2)
            end
          else (Returned (videoId, captions), fs1)
      end
  end.
End ConvertJSON.

(** The state of the timestamped loop keeps: the cues saved so far have a
    text, none repeats the text of the cue before it, [previousText] is the
    text saved last, and every timecode, saved or of the open cue, has the
    shape [HH:MM:SS.mmm]. *)
Definition is_timecode (s : string) : Prop := match_here timecode s = Some EmptyString.

Definition cue_ok (c : Cue) : Prop := is_timecode (start c) /\ is_timecode (end_ c).

Definition cues_ok (st : CueState) : Prop :=
  Forall (fun c => text c <> EmptyString /\ cue_ok c) (captions st)
  /\ Samples.adjacent_distinct (map text (captions st))
  /\ previousText st = List.last (map text (captions st)) EmptyString
  /\ match currentCaption st with Some c => cue_ok c | None => True end.

(** A pattern of single characters and digits only. *)
Definition simple_item (i : item) : bool :=
  match i with
  | Chr _ | Digit => true
  | _ => false
  end.

(** An SRT time-range line, with its commas. *)
Definition srt_time_line : string := "00:00:01,000 --> 00:00:04,000".
End ParserJson.

(** ** Sequences of calls on the collector *)

Module StatsNotions.
Import JsString Errors Stats.

(** The two recording calls of the collector. *)
Inductive Record_call : Type :=
| Success (videoId title : string) (fileSize : Z) (langs : option (list string))
| Failure (videoId title : string) (error : JsError).

Definition record (st : StatsCollector) (c : Record_call) : StatsCollector :=
  match c with
  | Success videoId title fileSize langs => recordSuccess st videoId title fileSize langs
  | Failure videoId title error => recordFailure st videoId title error
  end.

(** The collector after [start] and a sequence of recording calls. *)
Definition recorded (t0 t1 : Z) (totalVideos : nat) (calls : list Record_call)
  : StatsCollector :=
  fold_left record calls (start (reset t0) t1 totalVideos).

(** The failures among the calls, as the collector lists them. *)
Fixpoint failures_of (calls : list Record_call) : list FailureRecord :=
  match calls with
  | [] => []
  | Success _ _ _ _ :: rest => failures_of rest
  | Failure videoId title error :: rest =>
      mkFailureRecord videoId title (message error) :: failures_of rest
  end.

(** The languages passed with the successes among the calls. *)
Fixpoint languages_of (calls : list Record_call) : list string :=
  match calls with
  | [] => []
  | Success _ _ _ (Some langs) :: rest => langs ++ languages_of rest
  | _ :: rest => languages_of rest
  end.
End StatsNotions.

(** ** Notions of the queue in serial mode *)

Module SerialNotions.
Import Queue.

(** The buckets after the jobs were settled one after another. *)
Definition settled_in_order {T R E : Type} (processFn : T -> nat -> Outcome R E)
           (items : list T) : Results T R E :=
  fold_left (fun res job => settle processFn job res) (enumerate 0 items) (mkResults [] []).
End SerialNotions.

(** ** Counting the calls on a tracker *)

Module ProgressNotions.
Import Progress.

Definition is_succeed (c : Call) : bool :=
  match c with CallSucceedVideo _ _ => true | _ => false end.

Definition is_fail (c : Call) : bool :=
  match c with CallFailVideo _ _ _ => true | _ => false end.

(** How many of the calls satisfy [p]. *)
Definition count_calls (p : Call -> bool) (calls : list Call) : nat :=
  length (List.filter p calls).
End ProgressNotions.

(** ** core/validator.js *)

Module Validator.

(** The loop of [isVersionValid] over the parts of the two versions, as
    numbers; a missing part and a part that is not a number count as 0. *)
Fixpoint isVersionValid_from (n i : nat) (currentParts requiredParts : list Z) : bool :=
  match n with
  | O => true
  | S n' =>
      let currentPart := nth i currentParts 0%Z in
      let requiredPart := nth i requiredParts 0%Z in
      if (currentPart >? requiredPart)%Z then true
      else if (currentPart <? requiredPart)%Z then false
      else isVersionValid_from n' (S i) currentParts requiredParts
  end.

Definition isVersionValid (currentParts requiredParts : list Z) : bool :=
  isVersionValid_from (length requiredParts) 0 currentParts requiredParts.

(** [CONFIG.MIN_NODE_VERSION], ['18.0.0']. *)
Definition MIN_NODE_VERSION : list Z := [18; 0; 0]%Z.
End Validator.

(** ** core/searcher.js *)

Module Searcher.
Import JsString.

Fixpoint drop (n : nat) (s : string) : string :=
  match n, s with
  | S k, String _ s' => drop k s'
  | _, _ => s
  end.

(** [s.slice(from, to)] for [0 <= from <= to]. *)
Definition slice (from to : nat) (s : string) : string :=
  slice0 (to - from) (drop from s).

(** [formatUploadDate]: [None] is [null]. *)
Definition formatUploadDate (uploadDate : option string) : option string :=
  match uploadDate with
  | None => None
  | Some dateStr =>
      if is_empty dateStr then None
      else if String.length dateStr =? 8 then
        let year := slice 0 4 dateStr in
        let month := slice 4 6 dateStr in
        let day := slice 6 8 dateStr in
        Some (year +:+ "-" +:+ month +:+ "-" +:+ day)
      else Some dateStr
  end.
End Searcher.

(** ** utils/file.js *)

Module FileUtils.
Import JsString Errors Parser Searcher.

(** The class of invalid characters: the angle brackets, the colon, the
    double quote (code 34), the slash, the backslash, the bar, the question
    mark, the star and the control characters below 32. *)
Definition is_invalid (c : ascii) : bool :=
  (code c <? 32)
  || Ascii.eqb c "<" || Ascii.eqb c ">" || Ascii.eqb c ":" || (code c =? 34)
  || Ascii.eqb c "/" || Ascii.eqb c "\" || Ascii.eqb c "|" || Ascii.eqb c "?"
  || Ascii.eqb c "*".

(** The first replacement, which removes every invalid character. *)
Fixpoint remove_invalid (s : string) : string :=
  match s with
  | EmptyString => EmptyString
  | String c s' => if is_invalid c then remove_invalid s' else String c (remove_invalid s')
  end.

(** [s.replace(/^\.+/, '')] *)
Fixpoint strip_leading_dots (s : string) : string :=
  match s with
  | String "." s' => strip_leading_dots s'
  | _ => s
  end.

(** [s.replace(/\.+$/, '')] *)
Fixpoint strip_trailing_dots (s : string) : string :=
  match s with
  | EmptyString => EmptyString
  | String c s' =>
      let r := strip_trailing_dots s' in
      if Ascii.eqb c "." && is_empty r then EmptyString else String c r
  end.

(** The index of the last dot. *)
Fixpoint last_dot_from (i : nat) (s : string) : option nat :=
  match s with
  | EmptyString => None
  | String c s' =>
      match last_dot_from (S i) s' with
      | Some j => Some j
      | None => if Ascii.eqb c "." then Some i else None
      end
  end.

(** [path.extname(name)] for a name without a separator: from the last dot
    on, and nothing when there is no dot, when the only dot comes first,
    and for the name of two dots. *)
Definition extname (name : string) : string :=
  match last_dot_from 0 name with
  | None => EmptyString
  | Some O => EmptyString
  | Some i =>
      if startsWith "." name && (i =? String.length name - 1) && (i =? 1)
      then EmptyString
      else drop i name
  end.

(** [path.basename(name, ext)] for a name without a separator. *)
Definition basename (name ext : string) : string :=
  if is_empty ext then name
  else if String.length name <? String.length ext then name
  else if String.eqb ext name then EmptyString
  else if endsWith ext name then slice0 (String.length name - String.length ext) name
  else name.

(** [s.slice(0, k)] for an integer [k]: a negative [k] counts from the
    end. *)
Definition slice_to (k : Z) (s : string) : string :=
  if (k <? 0)%Z then slice0 (Z.to_nat (Z.of_nat (String.length s) + k)) s
  else slice0 (Z.to_nat k) s.

(** The chain of replacements at the head of [sanitizeFilename]. *)
Definition cleaned (filename : string) : string :=
  strip_trailing_dots (strip_leading_dots (trim (collapse_spaces (remove_invalid filename)))).

(** The decimal digits of an integer, as a template literal prints them. *)
Definition decimal (z : Z) : string := NilEmpty.string_of_int (Z.to_int z).

(** [sanitizeFilename]; [now] is [Date.now()]. *)
Definition sanitizeFilename (now : Z) (filename : string) : string :=
  let sanitized := cleaned filename in
  let sanitized :=
    if 200 <? String.length sanitized then
      let ext := extname sanitized in
      let base := basename sanitized ext in
      slice_to (200 - Z.of_nat (String.length ext)) base +:+ ext
    else sanitized in
  if is_empty sanitized then "subtitle_" +:+ decimal now else sanitized.

(** [fileExists] *)
Definition fileExists (fs : FS) (filePath : string) : bool :=
  match files fs !! filePath with Some _ => true | None => false end.

Section Unique.
(** [path.extname] *)
Variable path_extname : string -> string.

(** [`${base}_${counter}${ext}`] *)
Definition candidate (base ext : string) (counter : nat) : string :=
  base +:+ "_" +:+ of_nat counter +:+ ext.

(** The [while (await fileExists(uniquePath))] loop; [None] when [fuel]
    iterations were not enough. *)
Fixpoint unique_loop (fs : FS) (base ext : string) (fuel counter : nat)
         (uniquePath : string) : option string :=
  if fileExists fs uniquePath then
    match fuel with
    | O => None
    | S fuel' => unique_loop fs base ext fuel' (S counter) (candidate base ext counter)
    end
  else Some uniquePath.

(** [ensureUniqueFilename]; [filePath.slice(0, -ext.length)] is empty when
    [ext] is. *)
Definition ensureUniqueFilename (fs : FS) (filePath : string) : option string :=
  let ext := path_extname filePath in
  let base := slice_to (- Z.of_nat (String.length ext)) filePath in
  unique_loop fs base ext (S (size (files fs))) 1 filePath.
End Unique.
End FileUtils.

(** ** Notions of the file utilities *)

Module FileNotions.
Import JsString FileUtils.

(** Every character of the string satisfies [p]. *)
Fixpoint all_chars (p : ascii -> bool) (s : string) : bool :=
  match s with
  | EmptyString => true
  | String c s' => p c && all_chars p s'
  end.

Definition is_valid (c : ascii) : bool := negb (is_invalid c).

(** The parts of two versions agree from [i] up to [j]. *)
Definition agree_between (a b : list Z) (i j : nat) : Prop :=
  forall k, i <= k < j -> nth k a 0%Z = nth k b 0%Z.
End FileNotions.

(** ** Regular expressions with alternatives

    The patterns of [URL_PATTERNS] have alternatives and repetitions;
    [test] only asks whether some part of the string is in the language of
    the pattern, which the derivatives of the pattern decide. *)

Module Regex.

Inductive re : Type :=
| Void
| Eps
| Sym (p : ascii -> bool)
| Cat (r s : re)
| Alt (r s : re)
| Star (r : re).

Fixpoint nullable (r : re) : bool :=
  match r with
  | Void => false
  | Eps => true
  | Sym _ => false
  | Cat r s => nullable r && nullable s
  | Alt r s => nullable r || nullable s
  | Star _ => true
  end.

Fixpoint deriv (c : ascii) (r : re) : re :=
  match r with
  | Void => Void
  | Eps => Void
  | Sym p => if p c then Eps else Void
  | Cat r s =>
      if nullable r then Alt (Cat (deriv c r) s) (deriv c s)
      else Cat (deriv c r) s
  | Alt r s => Alt (deriv c r) (deriv c s)
  | Star r => Cat (deriv c r) (Star r)
  end.

(** Some prefix of [s] is in the language of [r]. *)
Fixpoint matches_prefix (r : re) (s : string) : bool :=
  nullable r ||
  match s with
  | EmptyString => false
  | String c s' => matches_prefix (deriv c r) s'
  end.

(** [r.test(s)] *)
Fixpoint test (r : re) (s : string) : bool :=
  matches_prefix r s ||
  match s with
  | EmptyString => false
  | String _ s' => test r s'
  end.

(** A literal text. *)
Fixpoint str (s : string) : re :=
  match s with
  | EmptyString => Eps
  | String c s' => Cat (Sym (Ascii.eqb c)) (str s')
  end.

(** [r?], [r+] and [r{n}] *)
Definition opt (r : re) : re := Alt Eps r.
Definition plus (r : re) : re := Cat r (Star r).
Fixpoint rep (n : nat) (r : re) : re :=
  match n with
  | O => Eps
  | S n' => Cat r (rep n' r)
  end.
End Regex.

(** ** core/extractor.js *)

Module Extractor.
Import JsString Errors FileUtils Regex.

(** [[a-zA-Z0-9_-]] *)
Definition is_id_char (c : ascii) : bool :=
  ((97 <=? code c) && (code c <=? 122)) || ((65 <=? code c) && (code c <=? 90))
  || ((48 <=? code c) && (code c <=? 57)) || Ascii.eqb c "_" || Ascii.eqb c "-".

(** [[?&]] *)
Definition is_query_mark (c : ascii) : bool := Ascii.eqb c "?" || Ascii.eqb c "&".

(** [URL_PATTERNS] of config/constants.js. *)
Definition VIDEO : re :=
  Cat (Alt (Cat (opt (str "www.")) (str "youtube.com/watch?v=")) (str "youtu.be/"))
      (rep 11 (Sym is_id_char)).

Definition PLAYLIST : re :=
  Cat (Sym is_query_mark) (Cat (str "list=") (plus (Sym is_id_char))).

Definition CHANNEL : re :=
  Cat (opt (str "www."))
      (Cat (str "youtube.com/")
           (Cat (Alt (Cat (Alt (str "channel") (Alt (str "c") (str "user"))) (str "/"))
                     (str "@"))
                (Cat (plus (Sym is_id_char))
                     (opt (Cat (str "/")
                               (opt (Alt (str "videos")
                                    (Alt (str "streams")
                                    (Alt (str "playlists")
                                    (Alt (str "community") (str "about"))))))))))).

Inductive UrlType : Type := video | playlist | channel.

(** [detectUrlType]: [None] is [null]. *)
Definition detectUrlType (url : string) : option UrlType :=
  if test PLAYLIST url then Some playlist
  else if test CHANNEL url then Some channel
  else if test VIDEO url then Some video
  else None.

(** An entry of the JSON the external tool prints, and a video as the
    extractor describes it. *)
Record Entry : Type := mkEntry {
  e_id : option string;
  e_title : option string;
  e_duration : option Z;
  e_uploader : option string;
  e_release_timestamp : option Z;
  e_timestamp : option Z;
  e_upload_date : option string;
  e_view_count : option Z;
  e_description : option string
}.

Record Video : Type := mkVideo {
  id : string;
  title : string;
  url : string;
  duration : option Z;
  uploader : option string;
  upload_date : option string;
  upload_date_raw : option string;
  view_count : option Z;
  description : option string
}.

(** [a || b] on optional numbers and strings. *)
Definition or_number (a b : option Z) : option Z :=
  match a with
  | Some z => if (z =? 0)%Z then b else a
  | None => b
  end.

(** Messages of [CONFIG.ERRORS]. *)
Definition INVALID_URL : string := "Invalid YouTube URL provided".
Definition NO_VIDEOS : string := "No videos found at the provided URL".

(** The error classes of utils/errors.js that the extractor throws, next
    to a plain [Error]. *)
Inductive Failure : Type :=
| ValidationError (message : string)
| ExtractionError (message url : string)
| PlainError (message : string).

Definition failure_message (f : Failure) : string :=
  match f with
  | ValidationError m => m
  | ExtractionError m _ => m
  | PlainError m => m
  end.

Section Extract.
(** [new Date(ms).toISOString()], and [Date.now()] as read while the
    [k]-th video of a listing is built. *)
Variable toISOString : Z -> string.
Variable now : nat -> Z.

Definition unixToISO (unixTimestamp : option Z) : option string :=
  match or_number unixTimestamp None with
  | None => None
  | Some t => Some (toISOString (t * 1000)%Z)
  end.

(** The video of an entry that has an id, the [k]-th that is built. *)
Definition video_of (k : nat) (entry : Entry) (entry_id : string) : Video :=
  let uploadTimestamp := or_number (e_release_timestamp entry) (e_timestamp entry) in
  mkVideo entry_id
          (sanitizeFilename (now k)
             (match e_title entry with
              | Some t => if is_empty t then entry_id else t
              | None => entry_id
              end))
          ("https://www.youtube.com/watch?v=" +:+ entry_id)
          (e_duration entry) (e_uploader entry)
          (unixToISO uploadTimestamp) (e_upload_date entry)
          (e_view_count entry) (e_description entry).

(** [entries.filter(entry => entry && entry.id).map(...)]; an entry that is
    [null] is [None]. *)
Fixpoint videos_of (k : nat) (entries : list (option Entry)) : list Video :=
  match entries with
  | [] => []
  | Some entry :: rest =>
      match e_id entry with
      | Some i =>
          if is_empty i then videos_of k rest
          else video_of k entry i :: videos_of (S k) rest
      | None => videos_of k rest
      end
  | None :: rest => videos_of k rest
  end.

(** [getPlaylistVideos]: [fetched] is how running the external tool and
    parsing its output settles, with [data.entries], absent or present.
    Before it filters, the function logs fields of the first entry, and
    reading them from an entry that is [null] throws. *)
Definition getPlaylistVideos (fetched : Outcome (option (list (option Entry))) JsError)
  : Outcome (list Video) Failure :=
  match fetched with
  | Threw error => Threw (PlainError ("Failed to get playlist videos: " +:+ message error))
  | Returned data_entries =>
      let entries := match data_entries with Some l => l | None => [] end in
      match entries with
      | None :: _ =>
          Threw (PlainError ("Failed to get playlist videos: "
                             +:+ message (TypeError "Cannot read properties of null (reading 'id')")))
      | _ =>
          let videos := videos_of 0 entries in
          if length videos =? 0
          then Threw (PlainError ("Failed to get playlist videos: " +:+ NO_VIDEOS))
          else Returned videos
      end
  end.

(** [extractVideos]; [info] is how [getVideoInfo] settles for a single
    video. *)
Definition extractVideos (url : string)
           (info : Outcome Video Failure)
           (fetched_list : Outcome (option (list (option Entry))) JsError)
  : Outcome (list Video) Failure :=
  match detectUrlType url with
  | None => Threw (ValidationError INVALID_URL)
  | Some video =>
      match info with
      | Returned info => Returned [info]
      | Threw error =>
          Threw (ExtractionError ("Failed to extract videos: " +:+ failure_message error) url)
      end
  | Some _ =>
      match getPlaylistVideos fetched_list with
      | Returned videos => Returned videos
      | Threw error =>
          Threw (ExtractionError ("Failed to extract videos: " +:+ failure_message error) url)
      end
  end.
End Extract.
End Extractor.

(** ** The language of a pattern *)

Module RegexNotions.
Import Regex.

(** The strings a pattern matches as a whole. *)
Inductive lang : re -> string -> Prop :=
| lang_Eps : lang Eps EmptyString
| lang_Sym p c : p c = true -> lang (Sym p) (String c EmptyString)
| lang_Cat r s u v : lang r u -> lang s v -> lang (Cat r s) (u +:+ v)
| lang_AltL r s u : lang r u -> lang (Alt r s) u
| lang_AltR r s u : lang s u -> lang (Alt r s) u
| lang_Star0 r : lang (Star r) EmptyString
| lang_StarS r c u v :
    lang r (String c u) -> lang (Star r) v -> lang (Star r) (String c u +:+ v).
End RegexNotions.

(** ** core/searcher.js: the search *)

Module ChannelSearch.
Import JsString Errors Regex Extractor Searcher.

Record SearchResult : Type := mkSearchResult {
  r_title : string;
  r_url : string;
  r_upload_date : option string;
  r_uploader : option string;
  r_duration : option Z;
  r_view_count : option Z
}.

Definition NOT_A_CHANNEL : string := "URL must be a YouTube channel URL".

Section Search.
Variable toISOString : Z -> string.
Variable now : nat -> Z.
(** [String.prototype.toLowerCase] *)
Variable toLowerCase : string -> string.

Definition result_of (video : Video) : SearchResult :=
  mkSearchResult (title video) (url video) (formatUploadDate (upload_date video))
                 (uploader video) (duration video) (view_count video).

(** [searchChannelVideos]; [info] and [fetched_list] are what
    [extractVideos] is given. *)
Definition searchChannelVideos (channelUrl query : string)
           (info : Outcome Video Failure)
           (fetched_list : Outcome (option (list (option Entry))) JsError)
  : Outcome (list SearchResult) Failure :=
  match detectUrlType channelUrl with
  | Some channel =>
      match extractVideos toISOString now channelUrl info fetched_list with
      | Threw error => Threw error
      | Returned videos =>
          let queryLower := toLowerCase query in
          let matchedVideos :=
            List.filter (fun video => includes queryLower (toLowerCase (title video)))
                        videos in
          Returned (map result_of matchedVideos)
      end
  | _ => Threw (ValidationError NOT_A_CHANNEL)
  end.
End Search.
End ChannelSearch.

(** ** The command line: the options of [download] *)

Module Cli.
(** [Math.min(Math.max(parseInt(options.concurrency, 10), MIN), MAX)] when
    the option parses to the integer [parsed]. *)
Definition concurrency (parsed : Z) : nat :=
  Z.to_nat (Z.min (Z.max parsed (Z.of_nat CONFIG.MIN_CONCURRENCY))
                  (Z.of_nat CONFIG.MAX_CONCURRENCY)).
End Cli.

(** ** core/downloader.js: the orchestrator *)

Module Orchestrator.
Import JsString Errors Downloader.

(** The two trackers [downloadSubtitles] creates. *)
Record Tracking : Type := mkTracking {
  progress : Progress.ProgressTracker;
  stats : Stats.StatsCollector
}.

(** What [downloadSubtitles] returns. *)
Record Summary : Type := mkSummary {
  succeeded : list (Queue.Succeeded Video DownloadResult);
  failed : list (Queue.Failed Video Thrown);
  summary_stats : Stats.StatsSnapshot
}.

Section DownloadSubtitles.
(** [Math.pow] of the engine, which [withRetry] calls. *)
Variable Math_pow : JsDouble.number -> JsDouble.number -> JsDouble.number.
Variable chalk : Chalk.
Variable outputDir : string.
Variable languages : list string.
Variable maxRetries : Z.
(** [world index k]: how the external steps settle at the [k]-th
    invocation of the download of the video at position [index]. *)
Variable world : nat -> nat -> Steps.
(** [Date.now()] when the collector is created, started, ended and read. *)
Variable created started ended read : Z.

(** The worker up to its first [await]. *)
Definition begin (tr : Tracking) (job : Video * nat) : Tracking :=
  let '(video, _) := job in
  mkTracking (Progress.startVideo chalk (progress tr) (id video) (title video)) (stats tr).

(** The worker once [withRetry] has settled: the [try] and the [catch] of
    the function given to [processQueue]. Reading [error.message] of a
    thrown [undefined] throws in the [catch], before the trackers are
    told. *)
Definition finish (tr : Tracking) (job : Video * nat)
  : option (Tracking * Outcome DownloadResult Thrown) :=
  let '(video, index) := job in
  match download_with_retry Math_pow video outputDir (world index) maxRetries with
  | None => None
  | Some run =>
      match Retry.result run with
      | Returned result =>
          Some (mkTracking
                  (Progress.succeedVideo chalk (progress tr) (id video) (title video))
                  (Stats.recordSuccess (stats tr) (id video) (title video)
                                       (r_totalSize result) (Some languages)),
                Returned result)
      | Threw ThrownUndefined =>
          Some (tr, Threw (ThrownError (TypeError
                  "Cannot read properties of undefined (reading 'message')")))
      | Threw (ThrownError error) =>
          let errorMessage := slice0 100 (message error) in
          Some (mkTracking
                  (Progress.failVideo chalk (progress tr) (id video) (title video)
                                      errorMessage)
                  (Stats.recordFailure (stats tr) (id video) (title video) error),
                Threw (ThrownError error))
      end
  end.

(** [processQueue] around that worker: the jobs the limiter lets in
    begin, in their order, then one of the jobs in flight, chosen by
    [pick], finishes and its outcome is pushed on a bucket. *)
Fixpoint drain (fuel : nat) (concurrency : nat) (pick : nat -> nat) (n : nat)
         (st : Queue.Sched Video DownloadResult Thrown) (tr : Tracking)
  : option (Queue.Results Video DownloadResult Thrown * Tracking) :=
  let '(pending', active') :=
    Queue.dequeue concurrency (Queue.pending st) (Queue.active st) in
  let tr := fold_left begin (skipn (length (Queue.active st)) active') tr in
  match active' with
  | [] => Some (Queue.results st, tr)
  | first :: _ =>
      match fuel with
      | O => None
      | S fuel' =>
          let k := pick n mod length active' in
          let job := nth k active' first in
          match finish tr job with
          | None => None
          | Some (tr', outcome) =>
              drain fuel' concurrency pick (S n)
                    (Queue.mkSched pending' (firstn k active' ++ skipn (S k) active')
                       (Queue.settle (fun _ _ => outcome) job (Queue.results st)))
                    tr'
          end
      end
  end.

(** [downloadSubtitles(videos, options)]: what it returns, with the
    progress tracker as it leaves it on the terminal. *)
Definition downloadSubtitles (videos : list Video) (concurrency : nat) (pick : nat -> nat)
  : option (Outcome (Summary * Progress.ProgressTracker) string) :=
  let tr := mkTracking (Progress.start chalk Progress.new (length videos))
                       (Stats.start (Stats.reset created) started (length videos)) in
  if concurrency =? 0 then
    Some (Threw "Expected `concurrency` to be a number from 1 and up")
  else
    match drain (length videos) concurrency pick 0
            (Queue.mkSched (Queue.enumerate 0 videos) [] (Queue.mkResults [] [])) tr with
    | None => None
    | Some (results, tr) =>
        let progress := Progress.complete chalk (progress tr) in
        let stats := Stats.end_ (stats tr) ended in
        Some (Returned (mkSummary (Queue.succeeded results) (Queue.failed results)
                                  (Stats.getStats stats read),
                        progress))
    end.
End DownloadSubtitles.
End Orchestrator.

(** ** Notions of the orchestrator *)

Module OrchestratorNotions.
Import Orchestrator.

(** The two trackers have been told of [s] successes and [f] failures
    among [n] videos. *)
Definition counted (tr : Tracking) (n s f : nat) : Prop :=
  Stats.total (stats tr) = n
  /\ Stats.succeeded (stats tr) = s
  /\ Stats.failed (stats tr) = f
  /\ length (Stats.errors (stats tr)) = f
  /\ Progress.total (Progress.stats (progress tr)) = n
  /\ Progress.n_succeeded (Progress.stats (progress tr)) = s
  /\ Progress.n_failed (Progress.stats (progress tr)) = f
  /\ Progress.completed (Progress.stats (progress tr)) = s + f
  /\ Progress.mainSpinner (progress tr) <> None.

(** The failures the trackers hear of: none when no attempt is allowed. *)
Definition told (maxRetries : Z) (failures : nat) : nat :=
  if (0 <=? maxRetries)%Z then failures else 0.

(** What the worker's promise settles with after a run of [withRetry]:
    its result, or what its [catch] throws. *)
Definition settles (run : Retry.Run Downloader.DownloadResult)
  : Outcome Downloader.DownloadResult Errors.Thrown :=
  match Retry.result run with
  | Returned result => Returned result
  | Threw Errors.ThrownUndefined =>
      Threw (Errors.ThrownError (Errors.TypeError
               "Cannot read properties of undefined (reading 'message')"))
  | Threw (Errors.ThrownError error) => Threw (Errors.ThrownError error)
  end.

(** The worker of [downloadSubtitles] as [processQueue] sees it, without
    what it tells the trackers. ([withRetry] always settles; the last case
    is never taken.) *)
Definition worker (Math_pow : JsDouble.number -> JsDouble.number -> JsDouble.number)
           (outputDir : string) (maxRetries : Z) (world : nat -> nat -> Downloader.Steps)
           (video : Downloader.Video) (index : nat)
  : Outcome Downloader.DownloadResult Errors.Thrown :=
  match Downloader.download_with_retry Math_pow video outputDir (world index) maxRetries with
  | Some run => settles run
  | None => Threw Errors.ThrownUndefined
  end.
End OrchestratorNotions.

(** * Properties *)

(** ** The error classifier *)

Module ErrorsFacts.
Import JsString Errors Samples.

Lemma flagged_404_classified : isRetryableError flagged_404 = false.
Proof. vm_compute. reflexivity. Qed.

(** C2, as stated, fails: the classifier does not always return the flag
    of a [DownloadError]; a retryable flag loses against a message that
    matches a non-retryable pattern. *)
Lemma flag_does_not_always_win :
  ~ (forall videoId flag msg,
        isRetryableError (mkError (DownloadError videoId flag) msg) = flag).
Proof.
  intros claim.
  specialize (claim "dQw4w9WgXcQ" true "HTTP Error 404: Not Found").
  change (isRetryableError flagged_404 = true) in claim.
  rewrite flagged_404_classified in claim.
  discriminate claim.
Qed.

(** C2, amended: for a [DownloadError] the classifier answers [false] when
    the message matches a non-retryable pattern and the flag otherwise;
    the retryable patterns are never consulted, so a non-retryable flag
    always wins. *)
Theorem isRetryableError_DownloadError :
  (forall videoId flag msg,
      isRetryableError (mkError (DownloadError videoId flag) msg)
      = negb (some_test nonRetryablePatterns msg) && flag)
  /\ (forall videoId msg,
      isRetryableError (mkError (DownloadError videoId false) msg) = false).
Proof.
  assert (shape : forall videoId flag msg,
             isRetryableError (mkError (DownloadError videoId flag) msg)
             = negb (some_test nonRetryablePatterns msg) && flag).
  { intros videoId flag msg. unfold isRetryableError. cbn [message cls].
    destruct (some_test nonRetryablePatterns msg); reflexivity. }
  split; [exact shape|].
  intros videoId msg. rewrite shape. apply andb_false_r.
Qed.

End ErrorsFacts.

(** ** The retry loop *)

Module RetryFacts.
Import Errors JsDouble Retry Samples NumberNotions Notions.

Section Loop.
Context {R : Type}.
Variable Math_pow : number -> number -> number.
Variable fn : nat -> Outcome R Thrown.
Variable o : Options.

(** The loop ends: [maxRetries + 1 - attempt] iterations are enough. *)
Lemma loop_total fuel : forall attempt lastError invoked slept,
    (maxRetries o + 1 - attempt <= Z.of_nat fuel)%Z ->
    exists run, loop Math_pow fn o fuel attempt lastError invoked slept = Some run.
Proof.
  induction fuel as [|fuel IH]; intros attempt lastError invoked slept Hfuel.
  - cbn [loop]. destruct (attempt <=? maxRetries o)%Z eqn:Hle; [|eauto].
    apply Z.leb_le in Hle. lia.
  - cbn [loop]. destruct (attempt <=? maxRetries o)%Z eqn:Hle; [|eauto].
    destruct (fn invoked) as [r|[|e]]; [eauto|eauto|].
    destruct (negb (isRetryableError e)); [eauto|].
    destruct (attempt + 1 >? maxRetries o)%Z; [eauto|].
    apply IH. lia.
Qed.

Lemma withRetry_total : exists run, withRetry Math_pow fn o = Some run.
Proof. unfold withRetry. apply loop_total. lia. Qed.

Lemma delays_ok_snoc slept :
  delays_ok Math_pow o slept ->
  delays_ok Math_pow o (slept ++ [delay_of Math_pow o (Z.of_nat (length slept) + 1)]).
Proof.
  intros Hok i d Hnth.
  destruct (Nat.lt_ge_cases i (length slept)) as [Hlt|Hge].
  - rewrite nth_error_app1 in Hnth by exact Hlt. now apply Hok.
  - rewrite nth_error_app2 in Hnth by exact Hge.
    destruct (i - length slept) as [|k] eqn:Hk; cbn in Hnth.
    + injection Hnth as <-. replace i with (length slept) by lia. reflexivity.
    + destruct k; discriminate Hnth.
Qed.

Lemma loop_delays fuel : forall attempt lastError invoked slept run,
    loop Math_pow fn o fuel attempt lastError invoked slept = Some run ->
    attempt = Z.of_nat (length slept) ->
    delays_ok Math_pow o slept ->
    delays_ok Math_pow o (delays run).
Proof.
  induction fuel as [|fuel IH]; intros attempt lastError invoked slept run Hrun Hatt Hok;
    cbn [loop] in Hrun; destruct (attempt <=? maxRetries o)%Z.
  - discriminate Hrun.
  - now injection Hrun as <-.
  - destruct (fn invoked) as [r|[|e]].
    + now injection Hrun as <-.
    + now injection Hrun as <-.
    + destruct (negb (isRetryableError e)); [now injection Hrun as <-|].
      destruct (attempt + 1 >? maxRetries o)%Z; [now injection Hrun as <-|].
      eapply IH; [exact Hrun| |].
      * rewrite length_app. cbn. lia.
      * subst attempt. apply delays_ok_snoc, Hok.
  - now injection Hrun as <-.
Qed.

Lemma delays_from_snoc n :
  delays_from Math_pow o 0 (S n)
  = delays_from Math_pow o 0 n ++ [delay_of Math_pow o (Z.of_nat n + 1)].
Proof. unfold delays_from. rewrite seq_S, map_app. reflexivity. Qed.

(** Every retry is preceded by the sleep of its delay, and nothing else is
    slept: the delays are those of the retries 1, 2, ... up to the last
    invocation. *)
Lemma loop_sleeps fuel : forall attempt lastError invoked slept run,
    loop Math_pow fn o fuel attempt lastError invoked slept = Some run ->
    attempt = Z.of_nat invoked ->
    slept = delays_from Math_pow o 0 invoked ->
    (0 < invoked -> (attempt <= maxRetries o)%Z) ->
    delays run = delays_from Math_pow o 0 (calls run - 1).
Proof.
  induction fuel as [|fuel IH]; intros attempt lastError invoked slept run Hrun Hatt Hslept Hin;
    cbn [loop] in Hrun; destruct (attempt <=? maxRetries o)%Z eqn:Hle.
  - discriminate Hrun.
  - injection Hrun as <-. cbn [calls delays]. apply Z.leb_gt in Hle.
    assert (invoked = 0) by (destruct invoked; [reflexivity|]; specialize (Hin ltac:(lia)); lia).
    subst invoked. exact Hslept.
  - assert (Hdone : forall res, run = mkRun res (S invoked) slept ->
              delays run = delays_from Math_pow o 0 (calls run - 1)).
    { intros res ->. cbn [calls delays]. replace (S invoked - 1) with invoked by lia.
      exact Hslept. }
    destruct (fn invoked) as [r|[|e]].
    + injection Hrun as <-. now eapply Hdone.
    + injection Hrun as <-. now eapply Hdone.
    + destruct (negb (isRetryableError e)); [injection Hrun as <-; now eapply Hdone|].
      destruct (attempt + 1 >? maxRetries o)%Z eqn:Hgt;
        [injection Hrun as <-; now eapply Hdone|].
      rewrite Z.gtb_ltb in Hgt. apply Z.ltb_ge in Hgt.
      eapply IH; [exact Hrun| | |].
      * lia.
      * rewrite delays_from_snoc, Hslept, Hatt. reflexivity.
      * intros _. exact Hgt.
  - injection Hrun as <-. cbn [calls delays]. apply Z.leb_gt in Hle.
    assert (invoked = 0) by (destruct invoked; [reflexivity|]; specialize (Hin ltac:(lia)); lia).
    subst invoked. exact Hslept.
Qed.

(** The delays of the retries 1, ..., [n], written out. *)
Lemma delays_from_formula n :
  delays_from Math_pow o 0 n
  = map (fun k => Math_min (mul (baseDelay o)
                                (Math_pow (backoffFactor o) (of_Z (Z.of_nat k - 1))))
                           (maxDelay o))
        (seq 1 n).
Proof.
  unfold delays_from. rewrite <- seq_shift, map_map. apply map_ext.
  intros i. unfold delay_of. do 4 f_equal. lia.
Qed.

(** A first invocation that fails with a non-retryable error ends the
    call at once. *)
Lemma first_failure_is_final e :
  (0 <= maxRetries o)%Z ->
  fn 0 = Threw (ThrownError e) ->
  isRetryableError e = false ->
  withRetry Math_pow fn o = Some (mkRun (Threw (ThrownError e)) 1 []).
Proof.
  intros Hmax Hfn Hcls. unfold withRetry.
  destruct (Z.to_nat (maxRetries o + 1)) as [|fuel] eqn:Hfuel; [lia|].
  cbn [loop]. replace (0 <=? maxRetries o)%Z with true by (symmetry; now apply Z.leb_le).
  rewrite Hfn, Hcls. reflexivity.
Qed.

(** One more round: a retryable failure with attempts left sleeps the
    delay of the attempt and goes on. *)
Lemma loop_retry fuel attempt lastError invoked slept e :
  (attempt + 1 <= maxRetries o)%Z ->
  fn invoked = Threw (ThrownError e) ->
  isRetryableError e = true ->
  loop Math_pow fn o (S fuel) attempt lastError invoked slept
  = loop Math_pow fn o fuel (attempt + 1) (ThrownError e) (S invoked)
         (slept ++ [delay_of Math_pow o (attempt + 1)]).
Proof.
  intros Hleft Hfn Hcls. cbn [loop].
  replace (attempt <=? maxRetries o)%Z with true by (symmetry; apply Z.leb_le; lia).
  rewrite Hfn, Hcls. cbn [negb].
  replace (attempt + 1 >? maxRetries o)%Z with false; [reflexivity|].
  symmetry. rewrite Z.gtb_ltb. apply Z.ltb_ge. exact Hleft.
Qed.

(** The last round: a retryable failure with no attempt left is
    rethrown. *)
Lemma loop_exhausted fuel attempt lastError invoked slept e :
  attempt = maxRetries o ->
  fn invoked = Threw (ThrownError e) ->
  isRetryableError e = true ->
  loop Math_pow fn o (S fuel) attempt lastError invoked slept
  = Some (mkRun (Threw (ThrownError e)) (S invoked) slept).
Proof.
  intros -> Hfn Hcls. cbn [loop]. rewrite Z.leb_refl, Hfn, Hcls. cbn [negb].
  replace (maxRetries o + 1 >? maxRetries o)%Z with true; [reflexivity|].
  symmetry. rewrite Z.gtb_ltb. apply Z.ltb_lt. lia.
Qed.

(** With no attempt allowed the operation is not invoked at all. *)
Lemma negative_maxRetries_never_invokes :
  (maxRetries o < 0)%Z ->
  withRetry Math_pow fn o = Some (mkRun (Threw ThrownUndefined) 0 []).
Proof.
  intros Hneg. unfold withRetry.
  replace (Z.to_nat (maxRetries o + 1)) with 0 by lia.
  cbn [loop]. replace (0 <=? maxRetries o)%Z with false; [reflexivity|].
  symmetry. apply Z.leb_gt. exact Hneg.
Qed.
End Loop.

(** C3: when the first invocation of the wrapped operation fails with an
    error classified as non-retryable, [withRetry] has invoked the
    operation exactly once, rethrows that very error, and has slept no
    delay. (An invocation takes place as soon as [maxRetries] is not
    negative.) *)
Theorem nonretryable_first_failure_no_retry
        {R : Type} (Math_pow : number -> number -> number)
        (fn : nat -> Outcome R Thrown) (o : Options) (e : JsError) :
  (0 <= maxRetries o)%Z ->
  fn 0 = Threw (ThrownError e) ->
  isRetryableError e = false ->
  withRetry Math_pow fn o = Some (mkRun (Threw (ThrownError e)) 1 []).
Proof. apply first_failure_is_final. Qed.

Lemma nonretryable_first_failure_no_retry_witness :
  withRetry nearest_pow (fun _ : nat => @Threw unit Thrown (ThrownError boom)) defaults
  = Some (mkRun (Threw (ThrownError boom)) 1 []).
Proof.
  apply (nonretryable_first_failure_no_retry nearest_pow
           (fun _ => Threw (ThrownError boom)) defaults boom).
  - vm_compute. discriminate.
  - reflexivity.
  - vm_compute. reflexivity.
Defined.

(** C4, as the claim has it, fails: the delay is computed on Numbers, and
    a product that no Number holds is rounded. With a base delay of 1, a
    factor of 3 and a ceiling of 10^20, the delay before the 35th retry is
    16677181699666568, while [min (1 * 3 ^ 34) (10 ^ 20)] is
    16677181699666569. *)
Lemma delay_is_rounded :
  exists run d,
    withRetry nearest_pow always_times_out
              (mkOptions 35 (of_Z 1) (of_Z (10 ^ 20)) (of_Z 3)) = Some run
    /\ nth_error (delays run) 34 = Some d
    /\ to_Z d = Some 16677181699666568%Z
    /\ Z.min (1 * 3 ^ 34) (10 ^ 20) = 16677181699666569%Z.
Proof.
  destruct (withRetry_total nearest_pow always_times_out
              (mkOptions 35 (of_Z 1) (of_Z (10 ^ 20)) (of_Z 3))) as [run Hrun].
  exists run. vm_compute in Hrun. injection Hrun as <-.
  eexists. split; [vm_compute; reflexivity|].
  split; [reflexivity|]. split; vm_compute; reflexivity.
Qed.

(** C4: [withRetry] always settles; every retry is preceded by exactly one
    sleep, and the delay slept before the [n]-th retry ([n >= 1]) is
    [Math.min(baseDelay * Math.pow(backoffFactor, n - 1), maxDelay)] as it
    is evaluated on Numbers: the power is the one the engine returns and
    the product is rounded to the nearest Number. With the default
    parameters, and an engine whose [Math.pow] returns 1, 2 and 4 for the
    powers 0, 1 and 2 of 2, an operation that keeps failing with a
    retryable error is invoked 4 times and retried after exactly 1000,
    2000 and 4000 milliseconds. *)
Theorem retry_delay_formula :
  (forall (R : Type) (Math_pow : number -> number -> number)
          (fn : nat -> Outcome R Thrown) (o : Options),
      exists run,
        withRetry Math_pow fn o = Some run
        /\ delays run
           = map (fun n => Math_min (mul (baseDelay o)
                                         (Math_pow (backoffFactor o)
                                                   (of_Z (Z.of_nat n - 1))))
                                    (maxDelay o))
                 (seq 1 (calls run - 1)))
  /\ (forall (R : Type) (Math_pow : number -> number -> number)
             (fn : nat -> Outcome R Thrown),
         exact_at Math_pow 2 0 -> exact_at Math_pow 2 1 -> exact_at Math_pow 2 2 ->
         (forall k, exists e, fn k = Threw (ThrownError e) /\ isRetryableError e = true) ->
         exists run,
           withRetry Math_pow fn defaults = Some run
           /\ delays run = [of_Z 1000; of_Z 2000; of_Z 4000]
           /\ calls run = 4).
Proof.
  split.
  - intros R Math_pow fn o. destruct (withRetry_total Math_pow fn o) as [run Hrun].
    exists run. split; [exact Hrun|].
    rewrite <- delays_from_formula.
    eapply loop_sleeps; [exact Hrun|reflexivity|reflexivity|lia].
  - intros R Math_pow fn Hpow0 Hpow1 Hpow2 Hfail.
    destruct (Hfail 0) as (e0 & H0 & C0), (Hfail 1) as (e1 & H1 & C1),
             (Hfail 2) as (e2 & H2 & C2), (Hfail 3) as (e3 & H3 & C3).
    eexists. split; [|split].
    + unfold withRetry.
      change (Z.to_nat (maxRetries defaults + 1)) with 4.
      rewrite (loop_retry Math_pow fn defaults 3 0 _ 0 [] e0 ltac:(vm_compute; discriminate) H0 C0).
      rewrite (loop_retry Math_pow fn defaults 2 1 _ 1 _ e1 ltac:(vm_compute; discriminate) H1 C1).
      rewrite (loop_retry Math_pow fn defaults 1 2 _ 2 _ e2 ltac:(vm_compute; discriminate) H2 C2).
      rewrite (loop_exhausted Math_pow fn defaults 0 3 _ 3 _ e3 eq_refl H3 C3).
      reflexivity.
    + cbn [delays app]. unfold delay_of.
      change (backoffFactor defaults) with (of_Z 2).
      change (0 + 1 - 1)%Z with 0%Z. change (1 + 1 - 1)%Z with 1%Z.
      change (2 + 1 - 1)%Z with 2%Z.
      unfold exact_at in Hpow0, Hpow1, Hpow2. rewrite Hpow0, Hpow1, Hpow2.
      vm_compute. reflexivity.
    + reflexivity.
Qed.

Lemma retry_delay_formula_witness :
  exists run,
    withRetry nearest_pow always_times_out defaults = Some run
    /\ delays run = [of_Z 1000; of_Z 2000; of_Z 4000]
    /\ calls run = 4.
Proof.
  apply (proj2 retry_delay_formula unit nearest_pow always_times_out).
  - vm_compute. reflexivity.
  - vm_compute. reflexivity.
  - vm_compute. reflexivity.
  - intros k. exists timeout_error. split; reflexivity.
Defined.

End RetryFacts.

(** ** The task queue *)

Module QueueFacts.
Import Queue Samples.

Lemma remove_nth_perm {A : Type} (d : A) (l : list A) : forall k,
    k < length l ->
    Permutation l (nth k l d :: firstn k l ++ skipn (S k) l).
Proof.
  induction l as [|x l IH]; intros k Hk; cbn in Hk; [lia|].
  destruct k as [|k]; cbn.
  - reflexivity.
  - rewrite (IH k) at 1 by lia. apply perm_swap.
Qed.

Section Run.
Context {T R E : Type}.
Variable processFn : T -> nat -> Outcome R E.
Variable items : list T.

Lemma enumerate_indices (l : list T) : forall from,
    map snd (enumerate from l) = seq from (length l).
Proof.
  induction l as [|x l IH]; intros from; cbn; [reflexivity|].
  now rewrite IH.
Qed.

Lemma enumerate_jobs (l : list T) : forall from,
    (forall i x, nth_error l i = Some x -> nth_error items (from + i) = Some x) ->
    Forall (job_ok items) (enumerate from l).
Proof.
  induction l as [|x l IH]; intros from Hsub; cbn; constructor.
  - unfold job_ok. cbn. rewrite <- (Nat.add_0_r from). now apply Hsub.
  - apply IH. intros i y Hy. replace (S from + i) with (from + S i) by lia.
    now apply Hsub.
Qed.

(** Admission moves a prefix of the waiting jobs behind the jobs in
    flight; with room for one job nothing waits while nothing runs. *)
Lemma dequeue_spec c : forall p a p' a' : list (T * nat),
    dequeue c p a = (p', a') ->
    exists moved, p = moved ++ p' /\ a' = a ++ moved
                  /\ (1 <= c -> a' = [] -> p' = []).
Proof.
  induction p as [|job rest IH]; intros a p' a' Hdeq; cbn [dequeue] in Hdeq.
  - injection Hdeq as <- <-. exists []. rewrite !app_nil_r. repeat split.
  - destruct (length a <? c) eqn:Hroom.
    + destruct (IH _ _ _ Hdeq) as (moved & -> & -> & _).
      exists (job :: moved). rewrite <- app_assoc. repeat split.
      intros _ Hnil. destruct a; discriminate Hnil.
    + injection Hdeq as <- <-. exists []. rewrite app_nil_r. repeat split.
      intros Hc ->. apply Nat.ltb_ge in Hroom. cbn in Hroom. lia.
Qed.

Lemma settle_indices job res :
  Permutation (indices (settle processFn job res)) (snd job :: indices res).
Proof.
  destruct job as [item index]. unfold settle, indices.
  destruct (processFn item index); cbn [succeeded failed snd].
  - rewrite map_app. cbn. rewrite <- app_assoc. cbn.
    symmetry. apply Permutation_middle.
  - rewrite map_app. cbn. rewrite app_assoc.
    symmetry. rewrite <- Permutation_cons_append. reflexivity.
Qed.

Lemma settle_ok job res :
  job_ok items job -> results_ok processFn items res ->
  results_ok processFn items (settle processFn job res).
Proof.
  destruct job as [item index]. unfold job_ok, settle. cbn [fst snd].
  intros Hjob [Hs Hf].
  destruct (processFn item index) eqn:Hrun; split; cbn [succeeded failed]; try assumption.
  - apply Forall_app. split; [assumption|]. constructor; [|constructor].
    split; assumption.
  - apply Forall_app. split; [assumption|]. constructor; [|constructor].
    split; assumption.
Qed.

(** The queue drains: with fuel for every job that is not settled yet it
    returns, and then every position is in a bucket, once. *)
Lemma drain_spec c pick : 1 <= c -> forall fuel n st,
    length (pending st) + length (active st) <= fuel ->
    sched_ok processFn items st ->
    exists res,
      drain processFn fuel c pick n st = Some res
      /\ Permutation (indices res) (seq 0 (length items))
      /\ results_ok processFn items res.
Proof.
  intros Hc. induction fuel as [|fuel IH]; intros n st Hfuel (Hperm & Hjobs & Hres).
  - destruct st as [p a res]. cbn [pending active results] in *.
    assert (p = [] /\ a = []) as [-> ->].
    { destruct p, a; cbn in Hfuel; try lia. now split. }
    exists res. cbn. split; [reflexivity|split; [exact Hperm|exact Hres]].
  - destruct st as [p a res]. cbn [pending active results] in *.
    cbn [drain pending active results].
    destruct (dequeue c p a) as [p' a'] eqn:Hdeq.
    destruct (dequeue_spec c _ _ _ _ Hdeq) as (moved & -> & -> & Hidle).
    assert (Hsame : Permutation (p' ++ a ++ moved) ((moved ++ p') ++ a)).
    { rewrite (Permutation_app_comm moved p'), <- app_assoc.
      apply Permutation_app_head, Permutation_app_comm. }
    destruct (a ++ moved) as [|first a''] eqn:Hactive.
    + rewrite (Hidle Hc eq_refl) in *.
      apply app_eq_nil in Hactive as [-> ->].
      exists res. split; [reflexivity|split; [exact Hperm|exact Hres]].
    + set (k := pick n mod length (first :: a'')).
      assert (Hk : k < length (first :: a'')).
      { apply Nat.mod_upper_bound. cbn. lia. }
      apply IH.
      * cbn [pending active].
        rewrite length_app, length_firstn, length_skipn.
        rewrite !length_app in Hfuel.
        assert (length (first :: a'') = length a + length moved)
          by (rewrite <- Hactive; apply length_app).
        lia.
      * pose proof (remove_nth_perm first (first :: a'') k Hk) as Hrm.
        split; [|split]; cbn [pending active results].
        -- rewrite settle_indices. rewrite <- Permutation_middle.
           rewrite <- Hperm. rewrite <- Hsame.
           change (snd (nth k (first :: a'') first)
                     :: map snd (p' ++ firstn k (first :: a'') ++ skipn (S k) (first :: a''))
                     ++ indices res)
             with (map snd (nth k (first :: a'') first
                              :: p' ++ firstn k (first :: a'') ++ skipn (S k) (first :: a''))
                     ++ indices res).
           apply Permutation_app_tail, Permutation_map.
           rewrite Permutation_middle. apply Permutation_app_head.
           symmetry. exact Hrm.
        -- rewrite <- Hsame in Hjobs. apply Forall_app in Hjobs as [Hp Ha].
           apply Forall_app. split; [exact Hp|].
           rewrite Hrm in Ha. now inversion Ha.
        -- apply settle_ok; [|exact Hres].
           rewrite <- Hsame in Hjobs. apply Forall_app in Hjobs as [_ Ha].
           rewrite List.Forall_forall in Ha. apply Ha. now apply nth_In.
Qed.

Lemma initial_sched_ok :
  sched_ok processFn items (mkSched (enumerate 0 items) [] (mkResults [] [])).
Proof.
  split; [|split]; cbn [pending active results].
  - unfold indices. cbn. rewrite !app_nil_r, enumerate_indices. reflexivity.
  - rewrite app_nil_r. apply enumerate_jobs. intros i x Hx. exact Hx.
  - split; constructor.
Qed.
End Run.

(** C1: for every list of items, every worker and every concurrency of at
    least 1, [processQueue] returns, whatever the order in which the
    workers settle; the two buckets then hold as many entries as there are
    items, every position of the input has its entry in exactly one of
    them, an entry records what the worker did on its item, and an item
    whose worker threw is in the failed bucket with what was thrown. *)
Theorem processQueue_complete {T R E : Type} (processFn : T -> nat -> Outcome R E)
        (items : list T) (concurrency : nat) (pick : nat -> nat) :
  1 <= concurrency ->
  exists res,
    processQueue processFn items concurrency pick = Some (Returned res)
    /\ length (succeeded res) + length (failed res) = length items
    /\ Permutation (map s_index (succeeded res) ++ map f_index (failed res))
                   (seq 0 (length items))
    /\ (forall s, In s (succeeded res) ->
                  nth_error items (s_index s) = Some (s_item s)
                  /\ processFn (s_item s) (s_index s) = Returned (s_result s))
    /\ (forall f, In f (failed res) ->
                  nth_error items (f_index f) = Some (f_item f)
                  /\ processFn (f_item f) (f_index f) = Threw (f_error f))
    /\ (forall i item e,
           nth_error items i = Some item -> processFn item i = Threw e ->
           In (mkFailed item e i) (failed res)).
Proof.
  intros Hc.
  destruct (drain_spec processFn items concurrency pick Hc (length items) 0
              (mkSched (enumerate 0 items) [] (mkResults [] [])))
    as (res & Hdrain & Hperm & Hs & Hf).
  { cbn [pending active]. rewrite <- (length_map snd), enumerate_indices, length_seq.
    cbn. lia. }
  { apply initial_sched_ok. }
  rewrite List.Forall_forall in Hs, Hf.
  exists res. unfold processQueue. rewrite Hdrain.
  replace (concurrency =? 0) with false by (symmetry; apply Nat.eqb_neq; lia).
  split; [reflexivity|]. split; [|split; [exact Hperm|split; [exact Hs|split; [exact Hf|]]]].
  - apply Permutation_length in Hperm. unfold indices in Hperm.
    rewrite length_app, !length_map, length_seq in Hperm. exact Hperm.
  - intros i item e Hitem Hthrew.
    assert (Hin : In i (indices res)).
    { apply (Permutation_in i (Permutation_sym Hperm)), in_seq.
      assert (i < length items) by (apply nth_error_Some; rewrite Hitem; discriminate).
      lia. }
    unfold indices in Hin. apply in_app_or in Hin as [Hin|Hin];
      apply in_map_iff in Hin as (entry & Hindex & Hentry).
    + destruct (Hs entry Hentry) as [Hat Hrun]. rewrite Hindex in Hat, Hrun.
      rewrite Hitem in Hat. injection Hat as Hat. rewrite <- Hat, Hthrew in Hrun.
      discriminate Hrun.
    + destruct (Hf entry Hentry) as [Hat Hrun]. rewrite Hindex in Hat, Hrun.
      rewrite Hitem in Hat. injection Hat as Hat. rewrite <- Hat, Hthrew in Hrun.
      injection Hrun as Herr. destruct entry as [fi fe fx]. cbn in *. subst. exact Hentry.
Qed.

Lemma processQueue_complete_witness :
  exists res,
    processQueue (fun (x : nat) (_ : nat) => if Nat.even x then Returned x else Threw "odd")
                 [10; 11; 12] 2 (fun n => n)
    = Some (Returned res)
    /\ length (succeeded res) + length (failed res) = 3.
Proof.
  destruct (processQueue_complete
              (fun (x : nat) (_ : nat) => if Nat.even x then Returned x else Threw "odd")
              [10; 11; 12] 2 (fun n => n)) as (res & Hrun & Hlen & _).
  - lia.
  - exists res. split; [exact Hrun|exact Hlen].
Defined.

End QueueFacts.

(** ** The caption parser *)

Module ParserFacts.
Import JsString Errors Parser Samples.

(** *** The plain-text loops *)

Lemma parseVTT_step_push st raw :
  parseVTT_step st raw
  = if vtt_skipped (trim raw) then st else push_distinct st (clean (trim raw)).
Proof. reflexivity. Qed.

Lemma srt_step_push st caption :
  srt_step st caption
  = match cap_text caption with
    | None => st
    | Some t => if is_empty t then st else push_distinct st (trim t)
    end.
Proof. reflexivity. Qed.

Lemma push_distinct_same st text : text = snd st -> push_distinct st text = st.
Proof.
  intros ->. unfold push_distinct. rewrite String.eqb_refl.
  now rewrite andb_false_r.
Qed.

Lemma adjacent_distinct_snoc x : forall l,
    adjacent_distinct l ->
    l = [] \/ List.last l EmptyString <> x ->
    adjacent_distinct (l ++ [x]).
Proof.
  induction l as [|a l IH]; intros Hl Hlast; [exact I|].
  destruct l as [|b l].
  - destruct Hlast as [Hnil|Hne]; [discriminate Hnil|]. cbn. split; [exact Hne|exact I].
  - destruct Hl as [Hab Hl]. split; [exact Hab|].
    apply IH; [exact Hl|]. right.
    destruct Hlast as [Hnil|Hne]; [discriminate Hnil|exact Hne].
Qed.

Lemma push_distinct_coherent st text : coherent st -> coherent (push_distinct st text).
Proof.
  intros [Hprev Hdist]. unfold push_distinct.
  destruct (negb (is_empty text) && negb (String.eqb text (snd st))) eqn:Hpush;
    [|split; assumption].
  apply andb_prop in Hpush as [_ Hnew]. apply negb_true_iff, String.eqb_neq in Hnew.
  split; cbn [fst snd].
  - now rewrite last_last.
  - apply adjacent_distinct_snoc; [exact Hdist|]. right. rewrite <- Hprev. congruence.
Qed.

Lemma parseVTT_step_coherent st raw : coherent st -> coherent (parseVTT_step st raw).
Proof.
  intros Hst. rewrite parseVTT_step_push.
  destruct (vtt_skipped (trim raw)); [exact Hst|now apply push_distinct_coherent].
Qed.

Lemma srt_step_coherent st caption : coherent st -> coherent (srt_step st caption).
Proof.
  intros Hst. rewrite srt_step_push.
  destruct (cap_text caption) as [t|]; [|exact Hst].
  destruct (is_empty t); [exact Hst|now apply push_distinct_coherent].
Qed.

Lemma fold_coherent {A : Type} (step : LineState -> A -> LineState) :
  (forall st a, coherent st -> coherent (step st a)) ->
  forall l st, coherent st -> coherent (fold_left step l st).
Proof.
  intros Hstep. induction l as [|a l IH]; intros st Hst; [exact Hst|].
  cbn. apply IH, Hstep, Hst.
Qed.

Lemma initial_coherent : coherent ([], EmptyString).
Proof. split; [reflexivity|exact I]. Qed.

(** C5, as stated, fails on the tagged path: a cue of two text lines that
    repeats the cue before it is not dropped, its lines are written
    again. *)
Lemma repeated_two_line_cue_is_kept :
  spec_cue_lines vtt_two_line_cue_twice = [["A"; "B"]; ["A"; "B"]]
  /\ parseVTT_lines vtt_two_line_cue_twice = ["A"; "B"; "A"; "B"]
  /\ parseVTT vtt_two_line_cue_twice = join nl ["A"; "B"; "A"; "B"].
Proof. vm_compute. repeat split. Qed.

(** C5, amended: the plain-text conversion compares entry by entry, a
    cleaned text line on the tagged (VTT) path and a caption on the SRT
    path. An entry whose cleaned, trimmed text equals the text retained
    last is dropped; no retained line repeats the line before it; and the
    container with the cues Hello, Hello, World gives Hello, newline,
    World on both paths. *)
Theorem consecutive_duplicates_dropped :
  (forall lines raw,
      clean (trim raw) = List.last (fst (fold_left parseVTT_step lines ([], EmptyString))) EmptyString ->
      fold_left parseVTT_step (lines ++ [raw]) ([], EmptyString)
      = fold_left parseVTT_step lines ([], EmptyString))
  /\ (forall captions t,
      trim t = List.last (fst (fold_left srt_step captions ([], EmptyString))) EmptyString ->
      fold_left srt_step (captions ++ [mkCaption (Some t)]) ([], EmptyString)
      = fold_left srt_step captions ([], EmptyString))
  /\ (forall content, adjacent_distinct (parseVTT_lines content))
  /\ (forall captions, adjacent_distinct (srt_lines captions))
  /\ fst (convertToPlainText subsrt_fails hello_files "video.en.vtt" "video.en.txt" false)
     = Returned ("Hello" +:+ nl +:+ "World")
  /\ fst (convertToPlainText subsrt_hello hello_files "video.en.srt" "video.en.txt" false)
     = Returned ("Hello" +:+ nl +:+ "World").
Proof.
  split; [|split; [|split; [|split; [|split]]]].
  - intros lines raw Hsame. rewrite fold_left_app. cbn [fold_left].
    rewrite parseVTT_step_push.
    destruct (vtt_skipped (trim raw)); [reflexivity|].
    apply push_distinct_same. rewrite Hsame. symmetry.
    apply (fold_coherent parseVTT_step parseVTT_step_coherent), initial_coherent.
  - intros captions t Hsame. rewrite fold_left_app. cbn [fold_left].
    rewrite srt_step_push. cbn [cap_text].
    destruct (is_empty t); [reflexivity|].
    apply push_distinct_same. rewrite Hsame. symmetry.
    apply (fold_coherent srt_step srt_step_coherent), initial_coherent.
  - intros content.
    apply (fold_coherent parseVTT_step parseVTT_step_coherent), initial_coherent.
  - intros captions.
    apply (fold_coherent srt_step srt_step_coherent), initial_coherent.
  - vm_compute. reflexivity.
  - vm_compute. reflexivity.
Qed.

Lemma consecutive_duplicates_dropped_witness :
  fold_left parseVTT_step (["Hello"] ++ [" <c>Hello</c> "]) ([], EmptyString)
  = fold_left parseVTT_step ["Hello"] ([], EmptyString).
Proof.
  apply (proj1 consecutive_duplicates_dropped ["Hello"] " <c>Hello</c> ").
  vm_compute. reflexivity.
Defined.

(** *** The cues with their timecodes *)

Lemma is_empty_true s : is_empty s = true -> s = EmptyString.
Proof. destruct s; [reflexivity|discriminate]. Qed.

Lemma last_cons_default {A : Type} (x d : A) (l : list A) :
  List.last (x :: l) d = List.last l x.
Proof.
  revert x d. induction l as [|y l IH]; intros x d; [reflexivity|].
  change (List.last (y :: l) d = List.last (y :: l) x).
  now rewrite (IH y d), (IH y x).
Qed.

(** A time-range line opens a cue with an empty text. *)
Lemma timestamp_line_opens st raw s e :
  is_header (trim raw) = false ->
  timestampMatch (trim raw) = Some (s, e) ->
  currentCaption (parseVTTWithTimestamps_step st raw) = Some (mkCue s e EmptyString).
Proof.
  intros Hhead Hts. unfold parseVTTWithTimestamps_step. rewrite Hhead, Hts.
  destruct (save_caption st). reflexivity.
Qed.

(** Each text line replaces the text of the open cue. *)
Lemma text_lines_overwrite : forall texts caps c prev,
    Forall is_text_line texts ->
    fold_left parseVTTWithTimestamps_step texts (mkCueState caps (Some c) prev)
    = mkCueState caps (Some (mkCue (start c) (end_ c) (last_text (text c) texts))) prev.
Proof.
  induction texts as [|raw texts IH]; intros caps c prev Htexts.
  - destruct c. reflexivity.
  - inversion Htexts as [|? ? [Hhead Hts] Hrest]; subst.
    cbn [fold_left]. unfold parseVTTWithTimestamps_step at 2.
    rewrite Hhead, Hts. cbn [currentCaption captions previousText].
    unfold last_text. cbn [map List.filter].
    destruct (is_empty (trim raw)) eqn:Hblank; cbn [negb].
    + apply is_empty_true in Hblank. rewrite Hblank.
      change (clean EmptyString) with EmptyString. cbn [is_empty negb].
      apply IH, Hrest.
    + destruct (is_empty (clean (trim raw))) eqn:Hclean; cbn [negb].
      * apply IH, Hrest.
      * rewrite IH by exact Hrest. cbn [start end_ text].
        unfold last_text. now rewrite last_cons_default.
Qed.

(** C6, as stated, fails: of a cue with the text lines Hello and World only
    World is kept; the lines are not concatenated. *)
Lemma only_last_line_of_cue_is_kept :
  spec_cue_lines vtt_hello_world_one_cue = [["Hello"; "World"]]
  /\ parseVTTWithTimestamps vtt_hello_world_one_cue
     = [mkCue "00:00:01.000" "00:00:04.000" "World"]
  /\ Forall (fun c => includes "Hello" (text c) = false)
            (parseVTTWithTimestamps vtt_hello_world_one_cue).
Proof.
  vm_compute. split; [reflexivity|split; [reflexivity|]].
  constructor; [reflexivity|constructor].
Qed.

(** C6, amended: on the tagged (VTT) path with timecodes, a time-range
    line opens a new cue with its start and end timecodes and an empty
    text; of the text lines that follow, up to the next time-range line or
    the end of the input, each one whose cleaned text is not empty
    replaces the text of the cue, so that the cue keeps the cleaned text of
    the last of them. *)
Theorem cue_text_is_last_text_line st raw s e texts :
  is_header (trim raw) = false ->
  timestampMatch (trim raw) = Some (s, e) ->
  Forall is_text_line texts ->
  let opened := parseVTTWithTimestamps_step st raw in
  let after_texts := fold_left parseVTTWithTimestamps_step texts opened in
  currentCaption opened = Some (mkCue s e EmptyString)
  /\ currentCaption after_texts = Some (mkCue s e (last_text EmptyString texts))
  /\ captions after_texts = captions opened
  /\ previousText after_texts = previousText opened.
Proof.
  intros Hhead Hts Htexts opened after_texts.
  pose proof (timestamp_line_opens st raw s e Hhead Hts) as Hopen.
  fold opened in Hopen. split; [exact Hopen|].
  subst after_texts. destruct opened as [caps cur prev]. cbn [currentCaption] in Hopen.
  subst cur. rewrite text_lines_overwrite by exact Htexts.
  repeat split.
Qed.

Lemma cue_text_is_last_text_line_witness :
  currentCaption
    (fold_left parseVTTWithTimestamps_step ["Hello"; "World"]
       (parseVTTWithTimestamps_step (mkCueState [] None EmptyString)
          "00:00:01.000 --> 00:00:04.000"))
  = Some (mkCue "00:00:01.000" "00:00:04.000" "World").
Proof.
  refine (proj1 (proj2 (cue_text_is_last_text_line
                          (mkCueState [] None EmptyString)
                          "00:00:01.000 --> 00:00:04.000"
                          "00:00:01.000" "00:00:04.000" ["Hello"; "World"] _ _ _))).
  - vm_compute. reflexivity.
  - vm_compute. reflexivity.
  - repeat constructor.
Defined.

End ParserFacts.

(** ** Conversion to plain text *)

Module ConvertFacts.
Import JsString Errors Parser Samples.

(** The tagged path has no content it cannot parse. *)
Lemma vtt_always_parses subsrt_parse subtitlePath content :
  endsWith ".vtt" subtitlePath = true ->
  plainText_of subsrt_parse subtitlePath content = Returned (parseVTT content).
Proof. intros Hvtt. unfold plainText_of. now rewrite Hvtt. Qed.

(** A file under a tagged name whose content is no subtitle file, and
    which the SRT library cannot parse either, is converted all the same:
    [convertToPlainText] returns, writes the output and deletes the
    original; it throws no [ParseError]. *)
Lemma junk_vtt_is_converted :
  subsrt_fails junk
  = Threw (ThrownError (mkError (OtherError "Error") "Cannot determine subtitle format"))
  /\ files one_junk_vtt_file !! "video.en.vtt" = Some junk
  /\ convertToPlainText subsrt_fails one_junk_vtt_file "video.en.vtt" "video.en.txt" true
     = (Returned junk, mkFS {[ "video.en.txt" := junk ]} ∅)
  /\ ~ (exists msg,
           convertToPlainText subsrt_fails one_junk_vtt_file "video.en.vtt" "video.en.txt" true
           = (Threw (ThrownError (mkError (ParseError "video.en.vtt") msg)),
              one_junk_vtt_file)).
Proof.
  assert (Hrun : convertToPlainText subsrt_fails one_junk_vtt_file
                                    "video.en.vtt" "video.en.txt" true
                 = (Returned junk, mkFS {[ "video.en.txt" := junk ]} ∅))
    by (vm_compute; reflexivity).
  split; [reflexivity|]. split; [vm_compute; reflexivity|]. split; [exact Hrun|].
  intros [msg Hthrows]. rewrite Hrun in Hthrows. discriminate Hthrows.
Qed.

(** C10: a subtitle file that is read is rejected for its content only
    on the path of the SRT library, when its name does not end in [.vtt]
    and the library throws on the content: [convertToPlainText] then
    throws a [ParseError] that carries the path of that file, and the
    files are as they were: the output is not written and the original is
    not deleted, whatever [deleteOriginal] says. A file whose name ends in
    [.vtt] is never rejected for its content: when the output can be
    written and the original removed, [convertToPlainText] returns what
    [parseVTT] makes of the content, has written it to the output, and has
    deleted the original when [deleteOriginal] says so. *)
Theorem unparsable_subtitle_is_atomic
        (subsrt_parse : string -> Outcome (list Caption) Thrown)
        (fs : FS) (subtitlePath outputPath : string) (deleteOriginal : bool)
        (content : string) :
  files fs !! subtitlePath = Some content ->
  (endsWith ".vtt" subtitlePath = false ->
   forall error, subsrt_parse content = Threw error ->
   exists msg,
     convertToPlainText subsrt_parse fs subtitlePath outputPath deleteOriginal
     = (Threw (ThrownError (mkError (ParseError subtitlePath) msg)), fs))
  /\ (endsWith ".vtt" subtitlePath = true ->
      outputPath ∉ locked fs -> subtitlePath ∉ locked fs ->
      convertToPlainText subsrt_parse fs subtitlePath outputPath deleteOriginal
      = (Returned (parseVTT content),
         mkFS (if deleteOriginal
               then delete subtitlePath (<[outputPath := parseVTT content]> (files fs))
               else <[outputPath := parseVTT content]> (files fs))
              (locked fs))).
Proof.
  intros Hfile. split.
  - intros Hsrt error Hparse.
    unfold convertToPlainText, readFile. rewrite Hfile.
    unfold plainText_of. rewrite Hsrt, Hparse.
    destruct error as [|e]; cbn [message_of wrap_conversion_error TypeError message];
      eexists; reflexivity.
  - intros Hvtt Hout Hsub.
    unfold convertToPlainText, readFile. rewrite Hfile.
    rewrite (vtt_always_parses _ _ _ Hvtt).
    unfold writeFile. destruct (decide (outputPath ∈ locked fs)) as [Hin|_]; [contradiction|].
    destruct deleteOriginal; [|reflexivity].
    unfold deleteFile. cbn [files locked].
    assert (Hthere : is_Some (<[outputPath := parseVTT content]> (files fs) !! subtitlePath)).
    { apply lookup_insert_is_Some'. right. now rewrite Hfile. }
    destruct Hthere as [kept ->].
    destruct (decide (subtitlePath ∈ locked fs)) as [Hin|_]; [contradiction|].
    reflexivity.
Qed.

Lemma unparsable_subtitle_is_atomic_witness :
  exists msg,
    convertToPlainText subsrt_fails one_srt_file "video.en.srt" "video.en.txt" true
    = (Threw (ThrownError (mkError (ParseError "video.en.srt") msg)), one_srt_file).
Proof.
  refine (proj1 (unparsable_subtitle_is_atomic subsrt_fails one_srt_file
                   "video.en.srt" "video.en.txt" true "junk" _) _
                (ThrownError (mkError (OtherError "Error") "Cannot determine subtitle format"))
                _).
  - vm_compute. reflexivity.
  - vm_compute. reflexivity.
  - reflexivity.
Defined.

End ConvertFacts.

(** ** One video *)

Module DownloaderFacts.
Import JsString Errors Retry Downloader Samples.





End DownloaderFacts.

(** ** The statistics collector *)

Module StatsFacts.
Import JsString Errors Stats Samples.

Lemma push_each {A : Type} (line : A -> string) (l : list A) : forall init,
    fold_left (fun ls f => ls ++ [line f]) l init = init ++ map line l.
Proof.
  induction l as [|x l IH]; intros init; cbn.
  - now rewrite app_nil_r.
  - now rewrite IH, <- app_assoc.
Qed.

(** Recording failures appends to the failure list, one entry a call. *)
Lemma record_failures_errors failures : forall st,
    errors (record_failures st failures) = errors st ++ map failure_record failures.
Proof.
  induction failures as [|f failures IH]; intros st; cbn.
  - now rewrite app_nil_r.
  - unfold record_failures in IH. rewrite IH. cbn [recordFailure errors].
    now rewrite <- app_assoc.
Qed.

Lemma append_append (a b c : string) : (a +:+ b) +:+ c = a +:+ b +:+ c.
Proof.
  induction a as [|ch a IH]; [reflexivity|].
  change (String ch ((a +:+ b) +:+ c) = String ch (a +:+ b +:+ c)). now rewrite IH.
Qed.

(** Joining two lists that both have a line puts one separator between
    them. *)
Lemma join_app sep (a b : list string) :
  a <> [] -> b <> [] -> join sep (a ++ b) = join sep a +:+ sep +:+ join sep b.
Proof.
  intros Ha Hb. induction a as [|x a IH]; [contradiction|].
  destruct a as [|y a].
  - destruct b as [|z b]; [contradiction|]. reflexivity.
  - change (join sep ((x :: y :: a) ++ b)) with (x +:+ sep +:+ join sep ((y :: a) ++ b)).
    rewrite IH by discriminate.
    change (join sep (x :: y :: a)) with (x +:+ sep +:+ join sep (y :: a)).
    now rewrite !append_append.
Qed.

Section Report.
Variable chalk : Chalk.
Variable formatFileSize : Z -> string.

(** The report is the report without failure details followed by the
    failure section, which is chosen by the length of the failure
    list. *)
Lemma reportLines_split st now :
  reportLines chalk formatFileSize st now
  = reportLines chalk formatFileSize (without_errors st) now
    ++ (if (0 <? length (errors st)) && (length (errors st) <=? 5) then
          ["" ; bold chalk (red chalk "Failed Videos:")]
          ++ map (failure_line chalk) (errors st)
        else if 5 <? length (errors st) then
          [""; red chalk (of_nat (length (errors st))
                          +:+ " videos failed (use --verbose for details)")]
        else []).
Proof.
  destruct st as [t0 t1 n ok ko files size langs errs].
  unfold reportLines, without_errors, with_errors,
    getElapsedTime, getAverageTime, getSuccessRate.
  cbn [startTime endTime total succeeded failed count totalSize languages errors].
  change (length (@nil FailureRecord)) with 0.
  change (0 <? 0) with false. change (5 <? 0) with false. cbn [andb].
  destruct ((0 <? length errs) && (length errs <=? 5)).
  - rewrite push_each. symmetry. apply app_assoc.
  - destruct (5 <? length errs); [reflexivity|]. symmetry. apply app_nil_r.
Qed.
(** The lines of a report always end with a rule. *)
Lemma reportLines_without_errors st now :
  reportLines chalk formatFileSize (without_errors st) now <> [].
Proof.
  destruct st as [t0 t1 n ok ko files size langs errs].
  unfold reportLines, without_errors, with_errors.
  cbn [startTime endTime total succeeded failed count totalSize languages errors].
  change (length (@nil FailureRecord)) with 0.
  change (0 <? 0) with false. change (5 <? 0) with false. cbn [andb].
  intros Hnone. apply app_eq_nil in Hnone as [_ Hnone]. discriminate Hnone.
Qed.

(** The report is the report without failure details, then the failure
    section on lines of its own. *)
Lemma generateReport_split st now :
  generateReport chalk formatFileSize st now
  = if (0 <? length (errors st)) && (length (errors st) <=? 5) then
      generateReport chalk formatFileSize (without_errors st) now +:+ nl
      +:+ join nl (["" ; bold chalk (red chalk "Failed Videos:")]
                   ++ map (failure_line chalk) (errors st))
    else if 5 <? length (errors st) then
      generateReport chalk formatFileSize (without_errors st) now +:+ nl
      +:+ join nl [""; red chalk (of_nat (length (errors st))
                                  +:+ " videos failed (use --verbose for details)")]
    else generateReport chalk formatFileSize (without_errors st) now.
Proof.
  unfold generateReport. rewrite reportLines_split.
  destruct ((0 <? length (errors st)) && (length (errors st) <=? 5)).
  - apply join_app; [apply reportLines_without_errors|discriminate].
  - destruct (5 <? length (errors st)).
    + apply join_app; [apply reportLines_without_errors|discriminate].
    + now rewrite app_nil_r.
Qed.
End Report.

(** C8: with more than 5 failures the report of [generateReport] is the
    report without failure details followed, on lines of their own, by a
    blank line and one line that states the number of failures, and by no
    itemized line: it is the same report for any other failures of the same
    number; with 1 to 5 failures it is followed by a blank line, a heading
    and one line for each failure, in order, made of its title and its
    error message; and [getStats] exposes the failure list in full, every
    recorded failure being in it, whatever its length. *)
Theorem report_failure_listing (chalk : Chalk) (formatFileSize : Z -> string)
        (st : StatsCollector) (now : Z) :
  (5 < length (errors st) ->
   generateReport chalk formatFileSize st now
   = generateReport chalk formatFileSize (without_errors st) now +:+ nl
     +:+ join nl [""; red chalk (of_nat (length (errors st))
                                 +:+ " videos failed (use --verbose for details)")])
  /\ (1 <= length (errors st) <= 5 ->
      generateReport chalk formatFileSize st now
      = generateReport chalk formatFileSize (without_errors st) now +:+ nl
        +:+ join nl
              ([""; bold chalk (red chalk "Failed Videos:")]
               ++ map (fun f => red chalk ("  " +:+ BULLET +:+ " " +:+ title f
                                           +:+ ": " +:+ error f))
                      (errors st)))
  /\ snap_errors (getStats st now) = errors st
  /\ (forall failures,
         snap_errors (getStats (record_failures st failures) now)
         = errors st ++ map failure_record failures)
  /\ (forall others,
         5 < length (errors st) -> length others = length (errors st) ->
         generateReport chalk formatFileSize (with_errors st others) now
         = generateReport chalk formatFileSize st now).
Proof.
  split; [|split; [|split; [|split]]].
  - intros Hmany. rewrite generateReport_split.
    replace (length (errors st) <=? 5) with false by (symmetry; apply Nat.leb_gt; lia).
    rewrite andb_false_r.
    replace (5 <? length (errors st)) with true by (symmetry; apply Nat.ltb_lt; lia).
    reflexivity.
  - intros [Hsome Hfew]. rewrite generateReport_split.
    replace (0 <? length (errors st)) with true by (symmetry; apply Nat.ltb_lt; lia).
    replace (length (errors st) <=? 5) with true by (symmetry; apply Nat.leb_le; lia).
    reflexivity.
  - reflexivity.
  - intros failures. cbn [getStats snap_errors]. apply record_failures_errors.
  - intros others Hmany Hsame.
    rewrite (generateReport_split chalk formatFileSize st now).
    rewrite (generateReport_split chalk formatFileSize (with_errors st others) now).
    assert (Hbase : without_errors (with_errors st others) = without_errors st) by reflexivity.
    rewrite Hbase. cbn [with_errors errors]. rewrite Hsame.
    replace (length (errors st) <=? 5) with false by (symmetry; apply Nat.leb_gt; lia).
    rewrite andb_false_r. reflexivity.
Qed.

Lemma report_failure_listing_witness :
  generateReport plain_chalk of_Z six_failures 1000
  = generateReport plain_chalk of_Z (without_errors six_failures) 1000 +:+ nl
    +:+ join nl [""; "6 videos failed (use --verbose for details)"].
Proof.
  refine (proj1 (report_failure_listing plain_chalk of_Z six_failures 1000) _).
  vm_compute. lia.
Defined.

End StatsFacts.

(** ** The progress tracker *)

Module ProgressFacts.
Import JsString Progress Samples.

Lemma map_get_set_other m : forall k k' v,
    k <> k' -> map_get (map_set m k' v) k = map_get m k.
Proof.
  induction m as [|[k0 v0] m IH]; intros k k' v Hne; cbn [map_set map_get].
  - destruct (String.eqb k k') eqn:Heq; [|reflexivity].
    apply String.eqb_eq in Heq. contradiction.
  - destruct (String.eqb k' k0) eqn:Hhit; cbn [map_get].
    + apply String.eqb_eq in Hhit. subst k0.
      destruct (String.eqb k k') eqn:Heq; [|reflexivity].
      apply String.eqb_eq in Heq. contradiction.
    + destruct (String.eqb k k0); [reflexivity|]. now apply IH.
Qed.

Lemma map_get_updateDisplay m k : forall n,
    map_get m k = None -> map_get (updateDisplay_from n m) k = None.
Proof.
  induction m as [|[k0 v0] m IH]; intros n Hnone; [reflexivity|].
  cbn [map_get] in Hnone. destruct (String.eqb k k0) eqn:Hk; [discriminate Hnone|].
  cbn [updateDisplay_from].
  destruct (Status_eqb (status v0) processing && (n <? 5));
    cbn [map_get]; rewrite Hk; now apply IH.
Qed.

Lemma map_get_stopped m k :
  map_get m k = None -> map_get (map stop_entry m) k = None.
Proof.
  induction m as [|[k0 v0] m IH]; intros Hnone; [reflexivity|].
  cbn [map_get] in Hnone. cbn [map stop_entry fst snd map_get].
  destruct (String.eqb k k0); [discriminate Hnone|]. now apply IH.
Qed.

Section Tracker.
Variable chalk : Chalk.

Lemma updateMainSpinner_videoSpinners t :
  videoSpinners (updateMainSpinner chalk t) = videoSpinners t.
Proof. unfold updateMainSpinner. now destruct (mainSpinner t). Qed.

Lemma updateMainSpinner_stats t : stats (updateMainSpinner chalk t) = stats t.
Proof. unfold updateMainSpinner. now destruct (mainSpinner t). Qed.

(** No call other than [startVideo] on that id gives an id an entry. *)
Lemma call_keeps_unknown t c videoId :
  is_startVideo videoId c = false ->
  map_get (videoSpinners t) videoId = None ->
  map_get (videoSpinners (call chalk t c)) videoId = None.
Proof.
  intros Hcall Hnone. destruct c as [n|i ti|i ti|i ti m| |]; cbn [call].
  - exact Hnone.
  - cbn [is_startVideo] in Hcall. apply String.eqb_neq in Hcall.
    unfold startVideo, updateDisplay. cbn [videoSpinners].
    apply map_get_updateDisplay. rewrite map_get_set_other by congruence. exact Hnone.
  - unfold succeedVideo. rewrite updateMainSpinner_videoSpinners. cbn [videoSpinners].
    destruct (map_get (videoSpinners t) i) eqn:Hi; [|exact Hnone].
    rewrite map_get_set_other; [exact Hnone|]. intros ->. congruence.
  - unfold failVideo. rewrite updateMainSpinner_videoSpinners. cbn [videoSpinners].
    destruct (map_get (videoSpinners t) i) eqn:Hi; [|exact Hnone].
    rewrite map_get_set_other; [exact Hnone|]. intros ->. congruence.
  - cbn [complete videoSpinners]. now apply map_get_stopped.
  - cbn [stop videoSpinners]. now apply map_get_stopped.
Qed.

Lemma never_started_unknown videoId : forall calls t,
    started videoId calls = false ->
    map_get (videoSpinners t) videoId = None ->
    map_get (videoSpinners (fold_left (call chalk) calls t)) videoId = None.
Proof.
  induction calls as [|c calls IH]; intros t Hcalls Hnone; [exact Hnone|].
  cbn [started existsb] in Hcalls. apply orb_false_elim in Hcalls as [Hc Hrest].
  cbn [fold_left]. apply IH; [exact Hrest|]. now apply call_keeps_unknown.
Qed.
End Tracker.

(** C9, as stated, fails: [succeedVideo] for an id that was never started
    does change the tracker, it counts one more completed and one more
    succeeded video. *)
Lemma unknown_id_is_counted :
  started "never-started" [CallStart 3] = false
  /\ stats (after plain_chalk [CallStart 3]) = mkCounters 3 0 0 0
  /\ stats (succeedVideo plain_chalk (after plain_chalk [CallStart 3]) "never-started" "t")
     = mkCounters 3 1 1 0
  /\ succeedVideo plain_chalk (after plain_chalk [CallStart 3]) "never-started" "t"
     <> after plain_chalk [CallStart 3].
Proof.
  split; [reflexivity|split; [reflexivity|split; [reflexivity|]]].
  intros Hsame. apply (f_equal stats) in Hsame. vm_compute in Hsame. discriminate Hsame.
Qed.

(** C9, amended: for a video id that was never passed to [startVideo],
    [succeedVideo] and [failVideo] create no per-item status and leave the
    per-item statuses as they were, and they do count the call:
    [completed] and [succeeded] (for [failVideo]: [completed] and
    [failed]) grow by one, [total] is unchanged. *)
Theorem unknown_id_only_counted (chalk : Chalk) (calls : list Call)
        (videoId title errorMessage : string) :
  started videoId calls = false ->
  let t := after chalk calls in
  videoSpinners (succeedVideo chalk t videoId title) = videoSpinners t
  /\ stats (succeedVideo chalk t videoId title)
     = mkCounters (total (stats t)) (S (completed (stats t)))
                  (S (n_succeeded (stats t))) (n_failed (stats t))
  /\ videoSpinners (failVideo chalk t videoId title errorMessage) = videoSpinners t
  /\ stats (failVideo chalk t videoId title errorMessage)
     = mkCounters (total (stats t)) (S (completed (stats t)))
                  (n_succeeded (stats t)) (S (n_failed (stats t))).
Proof.
  intros Hnever t.
  assert (Hnone : map_get (videoSpinners t) videoId = None).
  { apply never_started_unknown; [exact Hnever|reflexivity]. }
  unfold succeedVideo, failVideo.
  rewrite !updateMainSpinner_videoSpinners, !updateMainSpinner_stats.
  cbn [videoSpinners stats]. rewrite Hnone. repeat split.
Qed.

Lemma unknown_id_only_counted_witness :
  stats (succeedVideo plain_chalk
           (after plain_chalk [CallStart 3; CallStartVideo "a" "Title"]) "b" "Other")
  = mkCounters 3 1 1 0.
Proof.
  refine (proj1 (proj2 (unknown_id_only_counted plain_chalk
                          [CallStart 3; CallStartVideo "a" "Title"] "b" "Other" "" _))).
  reflexivity.
Defined.

End ProgressFacts.

(** ** More on the retry loop *)

Module RetryMore.
Import Errors JsDouble Retry Samples NumberNotions Notions.



Section Loop.
Context {R : Type}.
Variable Math_pow : number -> number -> number.
Variable fn : nat -> Outcome R Thrown.
Variable o : Options.

(** [k] retryable failures in a row, with attempts left, are each followed
    by the delay of their attempt. *)
Lemma loop_retries : forall k fuel a lastError slept,
    (Z.of_nat a + Z.of_nat k <= maxRetries o)%Z ->
    (forall i, i < k -> exists e, fn (a + i) = Threw (ThrownError e)
                                  /\ isRetryableError e = true) ->
    exists lastError',
      loop Math_pow fn o (k + fuel) (Z.of_nat a) lastError a slept
      = loop Math_pow fn o fuel (Z.of_nat (a + k)) lastError' (a + k)
             (slept ++ delays_from Math_pow o a k).
Proof.
  induction k as [|k IH]; intros fuel a lastError slept Hleft Hfail.
  - exists lastError. unfold delays_from. cbn [seq map].
    now rewrite app_nil_r, Nat.add_0_r.
  - destruct (Hfail 0 ltac:(lia)) as (e & Hfn & Hcls). rewrite Nat.add_0_r in Hfn.
    destruct (IH fuel (S a) (ThrownError e)
                 (slept ++ [delay_of Math_pow o (Z.of_nat a + 1)]))
      as (last' & Hloop).
    { lia. }
    { intros i Hi. destruct (Hfail (S i) ltac:(lia)) as (e' & Hfn' & Hcls').
      exists e'. split; [|exact Hcls']. now replace (S a + i) with (a + S i) by lia. }
    exists last'. cbn [Nat.add].
    rewrite (RetryFacts.loop_retry Math_pow fn o (k + fuel) (Z.of_nat a) lastError a slept e
               ltac:(lia) Hfn Hcls).
    replace (Z.of_nat (S a)) with (Z.of_nat a + 1)%Z in Hloop by lia.
    rewrite Hloop. replace (S a + k) with (a + S k) by lia.
    f_equal. unfold delays_from. cbn [seq map]. now rewrite <- app_assoc.
Qed.

End Loop.

(** X1: an operation that fails [k] times with retryable errors and then
    returns, with [k] no more than [maxRetries], makes [withRetry] return
    that result after [k + 1] invocations and the first [k] delays, each
    as the engine computes it on Numbers. *)
Theorem succeeds_after_retries {R : Type} (Math_pow : number -> number -> number)
        (fn : nat -> Outcome R Thrown) (o : Options) (k : nat) (r : R) :
  (Z.of_nat k <= maxRetries o)%Z ->
  (forall i, i < k -> exists e, fn i = Threw (ThrownError e) /\ isRetryableError e = true) ->
  fn k = Returned r ->
  withRetry Math_pow fn o
  = Some (mkRun (Returned r) (S k)
                (map (fun n => Math_min (mul (baseDelay o)
                                             (Math_pow (backoffFactor o)
                                                       (of_Z (Z.of_nat n - 1))))
                                        (maxDelay o))
                     (seq 1 k))).
Proof.
  intros Hk Hfail Hok. rewrite <- RetryFacts.delays_from_formula. unfold withRetry.
  replace (Z.to_nat (maxRetries o + 1)) with (k + S (Z.to_nat (maxRetries o) - k)) by lia.
  destruct (loop_retries Math_pow fn o k (S (Z.to_nat (maxRetries o) - k)) 0
              ThrownUndefined [])
    as (last' & Hloop); [cbn; lia|exact Hfail|].
  change 0%Z with (Z.of_nat 0). rewrite Hloop. cbn [Nat.add app loop].
  replace (Z.of_nat k <=? maxRetries o)%Z with true by (symmetry; now apply Z.leb_le).
  now rewrite Hok.
Qed.

Lemma succeeds_after_retries_witness :
  withRetry nearest_pow
            (fun k => if k <? 2 then Threw (ThrownError timeout_error) else Returned 7)
            defaults
  = Some (mkRun (Returned 7) 3 [of_Z 1000; of_Z 2000]).
Proof.
  refine (succeeds_after_retries nearest_pow
            (fun k => if k <? 2 then Threw (ThrownError timeout_error) else Returned 7)
            defaults 2 7 _ _ _).
  - vm_compute. discriminate.
  - intros i Hi. exists timeout_error.
    destruct i as [|[|i]]; [split; reflexivity|split; reflexivity|lia].
  - reflexivity.
Defined.

(** Every allowed invocation fails with a retryable error. *)
Lemma all_attempts_fail {R : Type} (Math_pow : number -> number -> number)
      (fn : nat -> Outcome R Thrown) (o : Options) (n : nat) (e : JsError) :
  maxRetries o = Z.of_nat n ->
  (forall i, i < n -> exists e', fn i = Threw (ThrownError e') /\ isRetryableError e' = true) ->
  fn n = Threw (ThrownError e) ->
  isRetryableError e = true ->
  withRetry Math_pow fn o
  = Some (mkRun (Threw (ThrownError e)) (S n) (delays_from Math_pow o 0 n)).
Proof.
  intros Hmax Hfail Hlast Hcls. unfold withRetry.
  replace (Z.to_nat (maxRetries o + 1)) with (n + 1) by lia.
  destruct (loop_retries Math_pow fn o n 1 0 ThrownUndefined []) as (last' & Hloop);
    [cbn; lia|exact Hfail|].
  change 0%Z with (Z.of_nat 0). rewrite Hloop. cbn [Nat.add app].
  apply RetryFacts.loop_exhausted; [now symmetry|exact Hlast|exact Hcls].
Qed.

(** X2: when every allowed invocation fails with a retryable error, the
    operation is invoked [maxRetries + 1] times, the delay of every retry
    up to the [maxRetries]-th is slept, each as the engine computes it on
    Numbers, and the error of the last invocation is rethrown. *)
Theorem retries_exhausted {R : Type} (Math_pow : number -> number -> number)
        (fn : nat -> Outcome R Thrown) (o : Options) (n : nat) (e : JsError) :
  maxRetries o = Z.of_nat n ->
  (forall i, i < n -> exists e', fn i = Threw (ThrownError e') /\ isRetryableError e' = true) ->
  fn n = Threw (ThrownError e) ->
  isRetryableError e = true ->
  withRetry Math_pow fn o
  = Some (mkRun (Threw (ThrownError e)) (S n)
                (map (fun k => Math_min (mul (baseDelay o)
                                             (Math_pow (backoffFactor o)
                                                       (of_Z (Z.of_nat k - 1))))
                                        (maxDelay o))
                     (seq 1 n))).
Proof.
  intros Hmax Hfail Hlast Hcls. rewrite <- RetryFacts.delays_from_formula.
  now apply all_attempts_fail.
Qed.

Lemma retries_exhausted_witness :
  withRetry nearest_pow always_times_out defaults
  = Some (mkRun (Threw (ThrownError timeout_error)) 4 [of_Z 1000; of_Z 2000; of_Z 4000]).
Proof.
  refine (retries_exhausted nearest_pow always_times_out defaults 3 timeout_error _ _ _ _).
  - reflexivity.
  - intros i _. exists timeout_error. split; reflexivity.
  - reflexivity.
  - reflexivity.
Defined.


End RetryMore.

(** ** More on the error classifier *)

Module ErrorsMore.
Import JsString Errors Samples Notions.

Lemma to_lower_idempotent c : to_lower (to_lower c) = to_lower c.
Proof. destruct c as [[] [] [] [] [] [] [] []]; reflexivity. Qed.

Lemma eqb_ci_lower a c : eqb_ci a (to_lower c) = eqb_ci a c.
Proof. unfold eqb_ci. now rewrite to_lower_idempotent. Qed.

Lemma line_terminator_lower c : is_line_terminator (to_lower c) = is_line_terminator c.
Proof. destruct c as [[] [] [] [] [] [] [] []]; reflexivity. Qed.

(** A pattern of literal characters under the [i] flag and [.*] matches a
    message and its lower-case form alike. *)
Lemma match_here_lower p :
  forallb ci_item p = true ->
  forall s, match_here p (lower s) = option_map lower (match_here p s).
Proof.
  induction p as [|i p IH]; intros Hci s; [reflexivity|].
  cbn [forallb] in Hci. apply andb_prop in Hci as [Hi Hp].
  specialize (IH Hp).
  destruct i as [a|a| | |a| |]; try discriminate Hi.
  - destruct s as [|c s]; [reflexivity|].
    cbn [lower match_here]. rewrite eqb_ci_lower.
    destruct (eqb_ci a c); [apply IH|reflexivity].
  - induction s as [|c s IHs].
    + cbn [lower match_here]. apply (IH EmptyString).
    + cbn [lower match_here] in IHs |- *. rewrite line_terminator_lower.
      destruct (is_line_terminator c).
      * apply (IH (String c s)).
      * rewrite IHs.
        match goal with
        | |- context [option_map lower ?m] => destruct m; [reflexivity|]
        end.
        cbn [option_map]. apply (IH (String c s)).
Qed.

Lemma test_lower p :
  forallb ci_item p = true -> forall s, test p (lower s) = test p s.
Proof.
  intros Hci. induction s as [|c s IHs].
  - reflexivity.
  - change (lower (String c s)) with (String (to_lower c) (lower s)).
    cbn [test]. change (String (to_lower c) (lower s)) with (lower (String c s)).
    rewrite (match_here_lower p Hci (String c s)).
    destruct (match_here p (String c s)); [reflexivity|exact IHs].
Qed.

Lemma some_test_lower ps s :
  forallb (forallb ci_item) ps = true -> some_test ps (lower s) = some_test ps s.
Proof.
  unfold some_test. induction ps as [|p ps IH]; intros Hci; [reflexivity|].
  cbn [forallb] in Hci. apply andb_prop in Hci as [Hp Hps].
  cbn [existsb]. now rewrite test_lower, IH.
Qed.

Lemma isRetryableError_lower c msg :
  isRetryableError (mkError c (lower msg)) = isRetryableError (mkError c msg).
Proof.
  unfold isRetryableError. cbn [message cls].
  now rewrite !some_test_lower by reflexivity.
Qed.

(** X4: the classifier ignores the case of ASCII letters: two errors of
    the same class whose messages differ only in the case of their letters
    are classified alike. *)
Theorem classification_ignores_case (c : ErrorClass) (msg msg' : string) :
  lower msg = lower msg' ->
  isRetryableError (mkError c msg) = isRetryableError (mkError c msg').
Proof.
  intros Hsame.
  rewrite <- (isRetryableError_lower c msg), <- (isRetryableError_lower c msg').
  now rewrite Hsame.
Qed.

Lemma classification_ignores_case_witness :
  isRetryableError (mkError (OtherError "Error") "connect etimedout")
  = isRetryableError (mkError (OtherError "Error") "CONNECT ETIMEDOUT").
Proof.
  apply (classification_ignores_case (OtherError "Error")
           "connect etimedout" "CONNECT ETIMEDOUT").
  reflexivity.
Defined.

End ErrorsMore.

(** ** More on one video *)

Module DownloaderMore.
Import JsString Errors Retry Downloader Samples Notions.

Lemma rethrow_object video e :
  rethrow video (ThrownError e)
  = ThrownError (mkError (DownloadError (id video)
                            (negb (mentions_unavailable (message_or_string e))))
                         (message_or_string e)).
Proof.
  unfold rethrow, mentions_unavailable, message_or_string.
  now destruct (includes "No subtitles" _ || includes "not available" _
                || includes "private" _ || includes "deleted" _).
Qed.

Lemma flagged_false_not_retryable videoId msg :
  isRetryableError (mkError (DownloadError videoId false) msg) = false.
Proof.
  unfold isRetryableError. cbn [message cls].
  now destruct (some_test nonRetryablePatterns msg).
Qed.

Lemma flagged_true_retryable videoId msg :
  some_test nonRetryablePatterns msg = false ->
  isRetryableError (mkError (DownloadError videoId true) msg) = true.
Proof. intros Hnone. unfold isRetryableError. cbn [message cls]. now rewrite Hnone. Qed.

Lemma failed_run video outputDir steps e :
  ensureTempDir steps = Returned tt ->
  executeYtDlp steps = Threw (ThrownError e) ->
  downloadVideoSubtitle video outputDir steps = Threw (rethrow video (ThrownError e)).
Proof.
  intros Hdir Hrun. unfold downloadVideoSubtitle, attempt. now rewrite Hdir, Hrun.
Qed.

Lemma enriched_identity video info :
  id (enrichVideoMetadata video info) = id video
  /\ title (enrichVideoMetadata video info) = title video.
Proof. destruct info; split; reflexivity. Qed.

Lemma convert_all_length steps : forall files totalSize outputFiles total outs,
    convert_all steps files totalSize outputFiles = Returned (total, outs) ->
    length outs = length outputFiles + length files.
Proof.
  induction files as [|f files IH]; intros totalSize outputFiles total outs Hall;
    cbn [convert_all] in Hall.
  - injection Hall as _ <-. cbn. lia.
  - destruct (convertAndMove steps f) as [[finalPath size]|]; [|discriminate Hall].
    apply IH in Hall. rewrite length_app in Hall. cbn in Hall |- *. lia.
Qed.

(** A conversion loop that throws throws what the conversion of one of
    the files threw. *)
Lemma convert_all_throws steps : forall files totalSize outputFiles cause,
    convert_all steps files totalSize outputFiles = Threw cause ->
    exists subtitleFile, In subtitleFile files /\ convertAndMove steps subtitleFile = Threw cause.
Proof.
  induction files as [|f files IH]; intros totalSize outputFiles cause Hall;
    cbn [convert_all] in Hall; [discriminate Hall|].
  destruct (convertAndMove steps f) as [[finalPath size]|error] eqn:Hf.
  - destruct (IH _ _ _ Hall) as (g & Hg & Hthrew). exists g. split; [now right|exact Hthrew].
  - injection Hall as <-. exists f. split; [now left|exact Hf].
Qed.

(** X5: once the temporary directory exists, whatever fails inside
    [downloadVideoSubtitle] leaves it as a [DownloadError] for the id of the
    video. The failure is what the external downloader, the search for
    caption files, the creation of the output directory or the conversion
    of one of the files threw, or the error that says that no subtitles
    are available; the [DownloadError] carries the message of that failure
    (its string form when it has no message), and its retryable flag is
    false exactly when this message contains "No subtitles",
    "not available", "private" or "deleted". (A thrown [undefined] leaves
    as the [TypeError] of reading its message.) *)
Theorem failures_leave_as_DownloadError (video : Video) (outputDir : string)
        (steps : Steps) (t : Thrown) :
  ensureTempDir steps = Returned tt ->
  downloadVideoSubtitle video outputDir steps = Threw t ->
  exists cause,
    (executeYtDlp steps = Threw cause
     \/ findSubtitleFiles steps = Threw cause
     \/ (findSubtitleFiles steps = Returned []
         /\ cause = ThrownError (mkError (DownloadError (id video) false)
                                         "No subtitles available for this video"))
     \/ ensureOutputDir steps = Threw cause
     \/ exists subtitleFiles subtitleFile,
           findSubtitleFiles steps = Returned subtitleFiles
           /\ In subtitleFile subtitleFiles
           /\ convertAndMove steps subtitleFile = Threw cause)
    /\ match cause with
       | ThrownUndefined =>
           t = ThrownError (TypeError "Cannot read properties of undefined (reading 'message')")
       | ThrownError e =>
           t = ThrownError (mkError (DownloadError (id video)
                                       (negb (mentions_unavailable (message_or_string e))))
                                    (message_or_string e))
       end.
Proof.
  intros Hdir Hthrew. unfold downloadVideoSubtitle in Hthrew. rewrite Hdir in Hthrew.
  set (enriched := match or_string (upload_date video) None with
                   | Some _ => video
                   | None => enrichVideoMetadata video (getVideoInfo steps)
                   end) in Hthrew.
  assert (Hid : id enriched = id video).
  { subst enriched. destruct (or_string (upload_date video) None); [reflexivity|].
    apply enriched_identity. }
  destruct (attempt enriched outputDir steps) as [r|cause] eqn:Hattempt;
    [discriminate Hthrew|].
  injection Hthrew as <-. exists cause. split.
  - unfold attempt in Hattempt.
    destruct (executeYtDlp steps) as [[]|error]; [|left; congruence].
    destruct (findSubtitleFiles steps) as [subtitleFiles|error];
      [|right; left; congruence].
    destruct subtitleFiles as [|f files]; cbn [length Nat.eqb] in Hattempt.
    + right. right. left. split; [reflexivity|]. rewrite <- Hid. congruence.
    + destruct (ensureOutputDir steps) as [[]|error];
        [|right; right; right; left; congruence].
      destruct (convert_all steps (f :: files) 0%Z []) as [[totalSize outputFiles]|error]
        eqn:Hall; [discriminate Hattempt|].
      injection Hattempt as ->.
      destruct (convert_all_throws _ _ _ _ _ Hall) as (g & Hg & Hthrew).
      right. right. right. right. exists (f :: files), g. repeat split; assumption.
  - destruct cause as [|e]; [reflexivity|]. apply rethrow_object.
Qed.

Lemma failures_leave_as_DownloadError_witness :
  exists cause,
    (executeYtDlp no_captions = Threw cause
     \/ findSubtitleFiles no_captions = Threw cause
     \/ (findSubtitleFiles no_captions = Returned []
         /\ cause = ThrownError (mkError (DownloadError (id sample_video) false)
                                         "No subtitles available for this video"))
     \/ ensureOutputDir no_captions = Threw cause
     \/ exists subtitleFiles subtitleFile,
           findSubtitleFiles no_captions = Returned subtitleFiles
           /\ In subtitleFile subtitleFiles
           /\ convertAndMove no_captions subtitleFile = Threw cause)
    /\ match cause with
       | ThrownUndefined =>
           ThrownError (mkError (DownloadError "dQw4w9WgXcQ" false)
                                "No subtitles available for this video")
           = ThrownError (TypeError "Cannot read properties of undefined (reading 'message')")
       | ThrownError e =>
           ThrownError (mkError (DownloadError "dQw4w9WgXcQ" false)
                                "No subtitles available for this video")
           = ThrownError (mkError (DownloadError (id sample_video)
                                     (negb (mentions_unavailable (message_or_string e))))
                                  (message_or_string e))
       end.
Proof.
  apply (failures_leave_as_DownloadError sample_video "./output" no_captions);
    reflexivity.
Defined.

(** X6: when the external downloader fails on the first invocation with a
    message that contains "No subtitles", "not available", "private" or
    "deleted", the download is invoked once and not retried, whatever
    [maxRetries] allows. *)
Theorem unavailable_video_is_not_retried
        (Math_pow : JsDouble.number -> JsDouble.number -> JsDouble.number)
        (video : Video) (outputDir : string)
        (world : nat -> Steps) (maxRetries : Z) (e : JsError) :
  (0 <= maxRetries)%Z ->
  ensureTempDir (world 0) = Returned tt ->
  executeYtDlp (world 0) = Threw (ThrownError e) ->
  mentions_unavailable (message_or_string e) = true ->
  download_with_retry Math_pow video outputDir world maxRetries
  = Some (mkRun (Threw (ThrownError (mkError (DownloadError (id video) false)
                                             (message_or_string e)))) 1 []).
Proof.
  intros Hmax Hdir Hrun Hgone. unfold download_with_retry.
  apply RetryFacts.first_failure_is_final; [exact Hmax| |apply flagged_false_not_retryable].
  rewrite (failed_run video outputDir (world 0) e Hdir Hrun), rethrow_object, Hgone.
  reflexivity.
Qed.

Lemma unavailable_video_is_not_retried_witness :
  download_with_retry NumberNotions.nearest_pow sample_video "./output"
    (fun _ => mkSteps (Threw boom) (Returned tt)
                (Threw (ThrownError (mkError (OtherError "Error")
                                             "ERROR: This video is private")))
                (Returned []) (Returned tt) (fun _ => Threw ThrownUndefined)) 3
  = Some (mkRun (Threw (ThrownError (mkError (DownloadError "dQw4w9WgXcQ" false)
                                             "ERROR: This video is private"))) 1 []).
Proof.
  refine (unavailable_video_is_not_retried NumberNotions.nearest_pow sample_video
            "./output" _ 3
            (mkError (OtherError "Error") "ERROR: This video is private") _ _ _ _).
  - lia.
  - reflexivity.
  - reflexivity.
  - vm_compute. reflexivity.
Defined.

(** X7: when the external downloader keeps failing with a message that
    contains none of the four substrings and matches no non-retryable
    pattern, the failure is flagged retryable and the download is invoked
    [maxRetries + 1] times, also when the message matches no retryable
    pattern either. *)
Theorem unknown_failure_is_retried
        (Math_pow : JsDouble.number -> JsDouble.number -> JsDouble.number)
        (video : Video) (outputDir : string)
        (world : nat -> Steps) (n : nat) (e : JsError) :
  (forall k, ensureTempDir (world k) = Returned tt
             /\ executeYtDlp (world k) = Threw (ThrownError e)) ->
  mentions_unavailable (message_or_string e) = false ->
  some_test nonRetryablePatterns (message_or_string e) = false ->
  download_with_retry Math_pow video outputDir world (Z.of_nat n)
  = Some (mkRun (Threw (ThrownError (mkError (DownloadError (id video) true)
                                             (message_or_string e))))
                (S n) (delays_from Math_pow (retry_options (Z.of_nat n)) 0 n)).
Proof.
  intros Hworld Hknown Hpattern. unfold download_with_retry.
  assert (Hfail : forall k, downloadVideoSubtitle video outputDir (world k)
                            = Threw (ThrownError (mkError (DownloadError (id video) true)
                                                          (message_or_string e)))).
  { intros k. destruct (Hworld k) as [Hdir Hrun].
    rewrite (failed_run video outputDir (world k) e Hdir Hrun), rethrow_object, Hknown.
    reflexivity. }
  apply RetryMore.all_attempts_fail.
  - reflexivity.
  - intros i _. eexists. split; [apply Hfail|]. now apply flagged_true_retryable.
  - apply Hfail.
  - now apply flagged_true_retryable.
Qed.

Lemma unknown_failure_is_retried_witness :
  download_with_retry NumberNotions.nearest_pow sample_video "./output"
    (fun _ => mkSteps (Threw boom) (Returned tt) (Threw (ThrownError boom))
                (Returned []) (Returned tt) (fun _ => Threw ThrownUndefined)) 3
  = Some (mkRun (Threw (ThrownError (mkError (DownloadError "dQw4w9WgXcQ" true) "boom")))
                4 [JsDouble.of_Z 1000; JsDouble.of_Z 2000; JsDouble.of_Z 4000]).
Proof.
  refine (unknown_failure_is_retried NumberNotions.nearest_pow sample_video
            "./output" _ 3 boom _ _ _).
  - intros k. split; reflexivity.
  - vm_compute. reflexivity.
  - vm_compute. reflexivity.
Defined.

(** X8: a download that returns has found at least one caption file; its
    result names the video and the output directory, counts the caption
    files found and lists one output file for each of them. *)
Theorem successful_download (video : Video) (outputDir : string) (steps : Steps)
        (r : DownloadResult) :
  downloadVideoSubtitle video outputDir steps = Returned r ->
  exists subtitleFiles,
    findSubtitleFiles steps = Returned subtitleFiles
    /\ 1 <= length subtitleFiles
    /\ r_filesCount r = length subtitleFiles
    /\ length (r_outputFiles r) = length subtitleFiles
    /\ r_videoId r = id video
    /\ r_title r = title video
    /\ r_directory r = outputDir.
Proof.
  unfold downloadVideoSubtitle. intros Hok.
  destruct (ensureTempDir steps); [|discriminate Hok].
  match type of Hok with
  | context [attempt ?v _ _] =>
      assert (Hid : id v = id video /\ title v = title video)
        by (destruct (or_string (upload_date video) None);
            [split; reflexivity|apply enriched_identity]);
      destruct (attempt v outputDir steps) as [r'|] eqn:Htry; [|discriminate Hok]
  end.
  injection Hok as ->. unfold attempt in Htry.
  destruct (executeYtDlp steps); [|discriminate Htry].
  destruct (findSubtitleFiles steps) as [files|]; [|discriminate Htry].
  exists files. split; [reflexivity|].
  destruct (length files =? 0) eqn:Hnone; [discriminate Htry|].
  apply Nat.eqb_neq in Hnone.
  destruct (ensureOutputDir steps); [|discriminate Htry].
  destruct (convert_all steps files 0%Z []) as [[total outs]|] eqn:Hall; [|discriminate Htry].
  apply convert_all_length in Hall. injection Htry as <-. cbn.
  destruct Hid as [Hid Htitle]. repeat split; try assumption; try lia.
Qed.

Lemma successful_download_witness :
  exists subtitleFiles,
    findSubtitleFiles
      (mkSteps (Threw boom) (Returned tt) (Returned tt) (Returned ["a.en.vtt"])
               (Returned tt) (fun _ => Returned ("out/20091025-dQw4w9WgXcQ.en.txt", 12%Z)))
    = Returned subtitleFiles
    /\ 1 <= length subtitleFiles.
Proof.
  destruct (successful_download sample_video "out"
              (mkSteps (Threw boom) (Returned tt) (Returned tt) (Returned ["a.en.vtt"])
                 (Returned tt) (fun _ => Returned ("out/20091025-dQw4w9WgXcQ.en.txt", 12%Z)))
              (mkDownloadResult "dQw4w9WgXcQ" "A video" "out" 1 12
                                ["out/20091025-dQw4w9WgXcQ.en.txt"]))
    as (files & Hfound & Hsome & _).
  - reflexivity.
  - exists files. split; [exact Hfound|exact Hsome].
Defined.

(** X9: [enrichVideoMetadata] never changes the id, the title, the URL or
    the raw upload date of a video; an upload date, an uploader or a
    duration the video had is still present afterwards (it is replaced only
    by a present field of the supplementary fetch); a failed fetch returns
    the video unchanged. *)
Theorem enrichment_fills_without_erasing (video : Video) (fullInfo : Outcome VideoInfo JsError) :
  let enriched := enrichVideoMetadata video fullInfo in
  id enriched = id video
  /\ title enriched = title video
  /\ url enriched = url video
  /\ upload_date_raw enriched = upload_date_raw video
  /\ (or_string (upload_date video) None <> None ->
      or_string (upload_date enriched) None <> None)
  /\ (or_string (uploader video) None <> None ->
      or_string (uploader enriched) None <> None)
  /\ (or_number (duration video) None <> None ->
      or_number (duration enriched) None <> None)
  /\ (forall e, fullInfo = Threw e -> enriched = video).
Proof.
  destruct fullInfo as [info|e]; cbn [enrichVideoMetadata id title url upload_date_raw
                                        upload_date uploader duration].
  - repeat split; try congruence.
    + destruct (info_upload_date info) as [d|]; cbn [or_string]; [|trivial].
      destruct (is_empty d) eqn:Hd; cbn [or_string]; [trivial|]. now rewrite Hd.
    + destruct (info_uploader info) as [u|]; cbn [or_string]; [|trivial].
      destruct (is_empty u) eqn:Hu; cbn [or_string]; [trivial|]. now rewrite Hu.
    + destruct (info_duration info) as [z|]; cbn [or_number]; [|trivial].
      destruct (z =? 0)%Z eqn:Hz; cbn [or_number]; [trivial|]. now rewrite Hz.
  - repeat split; trivial.
Qed.

Lemma enrichment_fills_without_erasing_witness :
  or_string (upload_date (enrichVideoMetadata sample_video
                            (Returned (mkVideoInfo None None None)))) None <> None.
Proof.
  refine (proj1 (proj2 (proj2 (proj2 (proj2
            (enrichment_fills_without_erasing sample_video
               (Returned (mkVideoInfo None None None))))))) _).
  vm_compute. discriminate.
Defined.

End DownloaderMore.

(** ** More on the caption parser *)

Module ParserMore.
Import JsString Errors Parser ParserJson Samples.

(** *** Failures and successes of the plain-text conversion *)

Section PlainText.
Variable subsrt_parse : string -> Outcome (list Caption) Thrown.

Lemma plainText_of_throws subtitlePath content error :
  plainText_of subsrt_parse subtitlePath content = Threw error ->
  exists msg, wrap_conversion_error subtitlePath error
              = ThrownError (mkError (ParseError subtitlePath) msg).
Proof.
  unfold plainText_of. destruct (endsWith ".vtt" subtitlePath); [discriminate|].
  destruct (subsrt_parse content) as [captions|[|e]]; [discriminate| |];
    cbn [message_of]; intros Herr; injection Herr as <-; eexists; reflexivity.
Qed.

(** X10: whatever goes wrong in [convertToPlainText] (the file cannot be
    read, the SRT library throws, the output cannot be written, the
    original cannot be deleted), what it throws is a [ParseError] that
    carries the path of the subtitle file. *)
Theorem conversion_failures_are_ParseErrors
        (fs : FS) (subtitlePath outputPath : string) (deleteOriginal : bool) (t : Thrown) :
  fst (convertToPlainText subsrt_parse fs subtitlePath outputPath deleteOriginal) = Threw t ->
  exists msg, t = ThrownError (mkError (ParseError subtitlePath) msg).
Proof.
  unfold convertToPlainText, readFile, writeFile, deleteFile.
  destruct (files fs !! subtitlePath) as [content|];
    [|cbn; intros Ht; injection Ht as <-; eexists; reflexivity].
  destruct (plainText_of subsrt_parse subtitlePath content) as [plainText|error] eqn:Hparse.
  - destruct (decide (outputPath ∈ locked fs));
      [cbn; intros Ht; injection Ht as <-; eexists; reflexivity|].
    destruct deleteOriginal; [|discriminate].
    cbn [files locked].
    destruct (<[outputPath:=plainText]> (files fs) !! subtitlePath); [|discriminate].
    destruct (decide (subtitlePath ∈ locked fs)); [|discriminate].
    cbn. intros Ht. injection Ht as <-. eexists. reflexivity.
  - cbn [fst]. intros Ht. injection Ht as <-. now apply plainText_of_throws in Hparse.
Qed.

(** X11: when [convertToPlainText] returns a text, the subtitle file
    existed, no path other than the output and the subtitle file has
    changed, the output file holds the returned text when the original is
    kept, and when the original is to be deleted it is gone, the output
    holding the text unless it is that same path. *)
Theorem conversion_success
        (fs fs' : FS) (subtitlePath outputPath : string) (deleteOriginal : bool)
        (plainText : string) :
  convertToPlainText subsrt_parse fs subtitlePath outputPath deleteOriginal
  = (Returned plainText, fs') ->
  (exists content, files fs !! subtitlePath = Some content)
  /\ (forall p, p <> outputPath -> p <> subtitlePath -> files fs' !! p = files fs !! p)
  /\ (deleteOriginal = false -> files fs' !! outputPath = Some plainText)
  /\ (deleteOriginal = true ->
      files fs' !! subtitlePath = None
      /\ (outputPath <> subtitlePath -> files fs' !! outputPath = Some plainText)).
Proof.
  unfold convertToPlainText, readFile, writeFile, deleteFile.
  destruct (files fs !! subtitlePath) as [content|] eqn:Hfile; [|discriminate].
  destruct (plainText_of subsrt_parse subtitlePath content) as [text|]; [|discriminate].
  destruct (decide (outputPath ∈ locked fs)); [discriminate|].
  destruct deleteOriginal.
  - cbn [files locked].
    destruct (<[outputPath:=text]> (files fs) !! subtitlePath) eqn:Hthere.
    + destruct (decide (subtitlePath ∈ locked fs)); [discriminate|].
      intros Hok. injection Hok as <- <-. cbn [files].
      split; [eauto|]. split; [|split; [discriminate|]].
      * intros p Hout Hsub. now rewrite lookup_delete_ne, lookup_insert_ne by congruence.
      * intros _. split; [apply lookup_delete_eq|].
        intros Hne. rewrite lookup_delete_ne by congruence. apply lookup_insert_eq.
    + intros Hok. injection Hok as <- <-. cbn [files].
      split; [eauto|]. split; [|split; [discriminate|]].
      * intros p Hout Hsub. now rewrite lookup_insert_ne by congruence.
      * intros _. split; [exact Hthere|]. intros _. apply lookup_insert_eq.
  - intros Hok. injection Hok as <- <-. cbn [files].
    split; [eauto|]. split; [|split; [|discriminate]].
    + intros p Hout Hsub. now rewrite lookup_insert_ne by congruence.
    + intros _. apply lookup_insert_eq.
Qed.
End PlainText.

Lemma conversion_failures_are_ParseErrors_witness :
  exists msg,
    ThrownError (mkError (ParseError "missing.vtt")
      "Conversion failed: Failed to read file: ENOENT: no such file or directory, open 'missing.vtt'")
    = ThrownError (mkError (ParseError "missing.vtt") msg).
Proof.
  apply (conversion_failures_are_ParseErrors subsrt_fails one_srt_file
           "missing.vtt" "missing.txt" true).
  vm_compute. reflexivity.
Defined.

Lemma conversion_success_witness :
  exists content, files hello_files !! "video.en.vtt" = Some content.
Proof.
  refine (proj1 (conversion_success subsrt_fails hello_files
                   (snd (convertToPlainText subsrt_fails hello_files
                           "video.en.vtt" "video.en.txt" true))
                   "video.en.vtt" "video.en.txt" true ("Hello" +:+ nl +:+ "World") _)).
  vm_compute. reflexivity.
Defined.

(** *** The cues with their timecodes *)

Lemma match_simple_app p q : forall s,
    forallb simple_item p = true ->
    match_here (p ++ q) s
    = match match_here p s with Some r => match_here q r | None => None end.
Proof.
  induction p as [|i p IH]; intros s Hp; [reflexivity|].
  cbn [forallb] in Hp. apply andb_prop in Hp as [Hi Hp].
  destruct i as [a|a| | |a| |]; try discriminate Hi;
    (destruct s as [|c s]; [reflexivity|]); cbn [app match_here].
  - destruct (Ascii.eqb a c); [now apply IH|reflexivity].
  - destruct (is_digit c); [now apply IH|reflexivity].
Qed.

Lemma match_simple_slice p : forall s r,
    forallb simple_item p = true ->
    match_here p s = Some r ->
    match_here p (slice0 (length p) s) = Some EmptyString.
Proof.
  induction p as [|i p IH]; intros s r Hp Hmatch; [now destruct s|].
  cbn [forallb] in Hp. apply andb_prop in Hp as [Hi Hp].
  destruct i as [a|a| | |a| |]; try discriminate Hi;
    (destruct s as [|c s]; [discriminate Hmatch|]);
    cbn [match_here] in Hmatch; cbn [length slice0 match_here].
  - destruct (Ascii.eqb a c); [now apply (IH s r)|discriminate Hmatch].
  - destruct (is_digit c); [now apply (IH s r)|discriminate Hmatch].
Qed.

(** The two groups a time-range line captures are timecodes. *)
Lemma timestampMatch_shape line s e :
  timestampMatch line = Some (s, e) -> is_timecode s /\ is_timecode e.
Proof.
  unfold timestampMatch.
  rewrite (match_simple_app timecode ([Spaces] ++ lit "-->" ++ [Spaces]) line eq_refl).
  destruct (match_here timecode line) as [r|] eqn:Hfirst; [|discriminate].
  destruct (match_here ([Spaces] ++ lit "-->" ++ [Spaces]) r) as [second|]; [|discriminate].
  destruct (match_here timecode second) as [r'|] eqn:Hsecond; [|discriminate].
  intros Hgroups. injection Hgroups as <- <-. split.
  - exact (match_simple_slice timecode line r eq_refl Hfirst).
  - exact (match_simple_slice timecode second r' eq_refl Hsecond).
Qed.

Lemma save_caption_ok st :
  cues_ok st ->
  Forall (fun c => text c <> EmptyString /\ cue_ok c) (fst (save_caption st))
  /\ adjacent_distinct (map text (fst (save_caption st)))
  /\ snd (save_caption st) = List.last (map text (fst (save_caption st))) EmptyString.
Proof.
  intros (Hcues & Hdist & Hprev & Hcur). unfold save_caption.
  destruct (currentCaption st) as [c|]; [|now repeat split].
  destruct (negb (is_empty (text c)) && negb (String.eqb (text c) (previousText st))) eqn:Hpush;
    [|now repeat split].
  apply andb_prop in Hpush as [Hfull Hnew].
  apply negb_true_iff in Hfull. apply negb_true_iff, String.eqb_neq in Hnew.
  cbn [fst snd]. rewrite map_app. cbn [map]. split; [|split].
  - apply Forall_app. split; [exact Hcues|]. constructor; [|constructor].
    split; [|exact Hcur]. intros Hempty. rewrite Hempty in Hfull. discriminate Hfull.
  - apply ParserFacts.adjacent_distinct_snoc; [exact Hdist|]. right.
    rewrite <- Hprev. congruence.
  - now rewrite last_last.
Qed.

Lemma step_cues_ok st raw : cues_ok st -> cues_ok (parseVTTWithTimestamps_step st raw).
Proof.
  intros Hst. unfold parseVTTWithTimestamps_step.
  destruct (is_header (trim raw)); [exact Hst|].
  destruct (timestampMatch (trim raw)) as [[s e]|] eqn:Hts.
  - destruct (save_caption_ok st Hst) as (Hcues & Hdist & Hprev).
    destruct (save_caption st) as [caps prev]. cbn [fst snd] in *.
    repeat split; try assumption; apply (timestampMatch_shape _ _ _ Hts).
  - destruct (currentCaption st) as [c|] eqn:Hc; [|exact Hst].
    destruct (negb (is_empty (trim raw))); [|exact Hst].
    destruct (negb (is_empty (clean (trim raw)))); [|exact Hst].
    destruct Hst as (Hcues & Hdist & Hprev & Hcur). rewrite Hc in Hcur.
    repeat split; try assumption; apply Hcur.
Qed.

Lemma fold_cues_ok lines : forall st,
    cues_ok st -> cues_ok (fold_left parseVTTWithTimestamps_step lines st).
Proof.
  induction lines as [|raw lines IH]; intros st Hst; [exact Hst|].
  cbn [fold_left]. apply IH, step_cues_ok, Hst.
Qed.

(** X12: every cue [parseVTTWithTimestamps] returns has a text that is not
    empty and a start and an end of the shape [HH:MM:SS.mmm], and no cue
    has the text of the cue before it. *)
Theorem timestamped_cues_are_well_formed (content : string) :
  Forall (fun c => text c <> EmptyString
                   /\ match_here timecode (start c) = Some EmptyString
                   /\ match_here timecode (end_ c) = Some EmptyString)
         (parseVTTWithTimestamps content)
  /\ adjacent_distinct (map text (parseVTTWithTimestamps content)).
Proof.
  unfold parseVTTWithTimestamps.
  assert (Hinit : cues_ok (mkCueState [] None EmptyString)).
  { repeat split; constructor. }
  destruct (save_caption_ok _ (fold_cues_ok (split_lines content) _ Hinit))
    as (Hcues & Hdist & _).
  split; [exact Hcues|exact Hdist].
Qed.

(** Without a time-range line no cue is opened. *)
Lemma no_time_range_stays_closed lines : forall st,
    (forall raw, In raw lines -> timestampMatch (trim raw) = None) ->
    currentCaption st = None ->
    fold_left parseVTTWithTimestamps_step lines st = st.
Proof.
  induction lines as [|raw lines IH]; intros st Hnone Hclosed; [reflexivity|].
  cbn [fold_left].
  assert (Hstep : parseVTTWithTimestamps_step st raw = st).
  { unfold parseVTTWithTimestamps_step.
    destruct (is_header (trim raw)); [reflexivity|].
    rewrite (Hnone raw (or_introl eq_refl)), Hclosed. reflexivity. }
  rewrite Hstep. apply IH; [|exact Hclosed].
  intros raw' Hin. apply Hnone. now right.
Qed.

Lemma comma_is_no_timecode line :
  String.get 8 line = Some ","%char -> timestampMatch line = None.
Proof.
  intros Hcomma. unfold timestampMatch.
  rewrite (match_simple_app timecode ([Spaces] ++ lit "-->" ++ [Spaces]) line eq_refl).
  destruct line as [|c0 [|c1 [|c2 [|c3 [|c4 [|c5 [|c6 [|c7 [|c8 rest]]]]]]]]];
    try discriminate Hcomma.
  cbn [String.get Nat.eqb] in Hcomma. injection Hcomma as ->.
  unfold timecode. cbn [match_here Ascii.eqb Bool.eqb andb].
  repeat match goal with
         | |- context [if ?b then _ else None] => destruct b; [|reflexivity]
         end.
  reflexivity.
Qed.

(** X13: [convertToJSON] reads every file as a tagged (VTT) document: a
    line whose ninth character is a comma, as the time-range lines of an
    SRT file, is not a time-range line, and for a file without any
    time-range line the conversion succeeds with an empty list of
    subtitles, which it writes to the output. *)
Theorem json_of_untimed_file_is_empty
        (stringify : string -> list Cue -> string)
        (fs : FS) (subtitlePath outputPath videoId content : string) :
  files fs !! subtitlePath = Some content ->
  outputPath ∉ locked fs ->
  (forall raw, In raw (split_lines content) ->
               String.get 8 (trim raw) = Some ","%char
               \/ timestampMatch (trim raw) = None) ->
  convertToJSON stringify fs subtitlePath outputPath videoId false
  = (Returned (videoId, []),
     mkFS (<[outputPath := stringify videoId []]> (files fs)) (locked fs)).
Proof.
  intros Hfile Hfree Hlines.
  assert (Hnone : parseVTTWithTimestamps content = []).
  { unfold parseVTTWithTimestamps. rewrite no_time_range_stays_closed; [reflexivity| |reflexivity].
    intros raw Hin. destruct (Hlines raw Hin) as [Hcomma|Hno]; [|exact Hno].
    now apply comma_is_no_timecode. }
  unfold convertToJSON, readFile, writeFile. rewrite Hfile, Hnone.
  destruct (decide (outputPath ∈ locked fs)); [contradiction|reflexivity].
Qed.

Lemma json_of_untimed_file_is_empty_witness :
  convertToJSON (fun videoId _ => videoId)
                (mkFS {[ "video.en.srt" := srt_time_line ]} ∅)
                "video.en.srt" "video.en.json" "dQw4w9WgXcQ" false
  = (Returned ("dQw4w9WgXcQ", []),
     mkFS (<[ "video.en.json" := "dQw4w9WgXcQ" ]> {[ "video.en.srt" := srt_time_line ]}) ∅).
Proof.
  refine (json_of_untimed_file_is_empty (fun videoId _ => videoId)
            (mkFS {[ "video.en.srt" := srt_time_line ]} ∅)
            "video.en.srt" "video.en.json" "dQw4w9WgXcQ" srt_time_line _ _ _).
  - vm_compute. reflexivity.
  - cbn. set_solver.
  - intros raw [<-|[]]. left. vm_compute. reflexivity.
Defined.

End ParserMore.

(** ** More on the statistics collector *)

Module StatsMore.
Import JsString Errors Stats Samples StatsNotions.

Lemma record_counters calls : forall st,
    let st' := fold_left record calls st in
    succeeded st' + failed st' = succeeded st + failed st + length calls
    /\ failed st' + length (errors st) = failed st + length (errors st')
    /\ count st' + succeeded st = count st + succeeded st'
    /\ total st' = total st
    /\ errors st' = errors st ++ failures_of calls.
Proof.
  induction calls as [|c calls IH]; intros st; cbn [fold_left].
  - cbn. rewrite app_nil_r. repeat split; lia.
  - specialize (IH (record st c)). cbn zeta in IH |- *.
    destruct IH as (Hsum & Hfailed & Hcount & Htotal & Herrors).
    destruct c as [videoId title fileSize langs|videoId title error].
    + cbn [record recordSuccess succeeded failed count total errors] in *.
      cbn [failures_of length]. repeat split; try lia; assumption.
    + cbn [record recordFailure succeeded failed count total errors] in *.
      rewrite length_app in Hfailed. cbn [length] in Hfailed.
      rewrite <- app_assoc in Herrors.
      cbn [failures_of length]. repeat split; try lia; assumption.
Qed.

(** X14: after [start] and any sequence of [recordSuccess] and
    [recordFailure] calls, the two counters add up to the number of calls,
    the failure counter is the length of the failure list, the file counter
    is the success counter, the total is the one given to [start], and the
    failure list holds the failures in the order of the calls. *)
Theorem collector_counts_every_call (t0 t1 : Z) (totalVideos : nat)
        (calls : list Record_call) :
  let st := recorded t0 t1 totalVideos calls in
  succeeded st + failed st = length calls
  /\ failed st = length (errors st)
  /\ count st = succeeded st
  /\ total st = totalVideos
  /\ errors st = failures_of calls.
Proof.
  pose proof (record_counters calls (start (reset t0) t1 totalVideos)) as H.
  cbn zeta in H |- *. unfold recorded.
  destruct H as (Hsum & Hfailed & Hcount & Htotal & Herrors).
  cbn [start reset succeeded failed count total errors length app] in *.
  repeat split; try lia; assumption.
Qed.

Lemma set_add_spec l x :
  List.NoDup l -> List.NoDup (set_add l x) /\ forall y, In y (set_add l x) <-> In y l \/ y = x.
Proof.
  intros Hl. unfold set_add. destruct (existsb (String.eqb x) l) eqn:Hin.
  - split; [exact Hl|]. intros y. split; [now left|]. intros [Hy| ->]; [exact Hy|].
    apply existsb_exists in Hin as (z & Hz & Heq). apply String.eqb_eq in Heq. now subst.
  - split.
    + apply List.NoDup_app; [exact Hl|repeat constructor; intros []|].
      intros y Hy [Hxy|[]]. subst y.
      assert (existsb (String.eqb x) l = true); [|congruence].
      apply existsb_exists. exists x. split; [exact Hy|apply String.eqb_refl].
    + intros y. rewrite in_app_iff. cbn. intuition congruence.
Qed.

Lemma fold_set_add_spec langs : forall l,
    List.NoDup l ->
    List.NoDup (fold_left set_add langs l)
    /\ forall y, In y (fold_left set_add langs l) <-> In y l \/ In y langs.
Proof.
  induction langs as [|x langs IH]; intros l Hl; cbn [fold_left].
  - split; [exact Hl|]. intros y. cbn. intuition.
  - destruct (set_add_spec l x Hl) as [Hnd Hin].
    destruct (IH _ Hnd) as [Hnd' Hin']. split; [exact Hnd'|].
    intros y. rewrite Hin', Hin. cbn. intuition congruence.
Qed.

Lemma record_languages calls : forall st,
    List.NoDup (languages st) ->
    List.NoDup (languages (fold_left record calls st))
    /\ forall y, In y (languages (fold_left record calls st))
                 <-> In y (languages st) \/ In y (languages_of calls).
Proof.
  induction calls as [|c calls IH]; intros st Hst; cbn [fold_left].
  - split; [exact Hst|]. intros y. cbn. intuition.
  - destruct c as [videoId title fileSize [langs|]|videoId title error];
      cbn [languages_of].
    + destruct (fold_set_add_spec langs (languages st) Hst) as [Hnd Hin].
      destruct (IH (record st (Success videoId title fileSize (Some langs))) Hnd)
        as [Hnd' Hin'].
      split; [exact Hnd'|]. intros y. rewrite Hin'.
      cbn [record recordSuccess languages]. rewrite Hin, in_app_iff. intuition.
    + exact (IH (record st (Success videoId title fileSize None)) Hst).
    + exact (IH (record st (Failure videoId title error)) Hst).
Qed.

(** X15: the languages of the collector are a set: after any sequence of
    recording calls no language is listed twice, and a language is listed
    exactly when a recorded success came with it. *)
Theorem collector_languages_are_a_set (t0 t1 : Z) (totalVideos : nat)
        (calls : list Record_call) :
  List.NoDup (languages (recorded t0 t1 totalVideos calls))
  /\ forall lang, In lang (languages (recorded t0 t1 totalVideos calls))
                  <-> In lang (languages_of calls).
Proof.
  destruct (record_languages calls (start (reset t0) t1 totalVideos)) as [Hnd Hin].
  { constructor. }
  split; [exact Hnd|]. intros lang. unfold recorded. rewrite Hin. cbn. intuition.
Qed.

End StatsMore.

(** ** The rates and times of the collector *)

Module StatsRates.
Import JsString Errors Stats Samples StatsNotions.

Lemma rates_ok_sound bound s t :
  NumberNotions.rates_ok bound = true -> 0 < t <= bound -> s <= t ->
  NumberNotions.rate_ok s t = true.
Proof.
  unfold NumberNotions.rates_ok. intros Hall Ht Hs.
  rewrite List.forallb_forall in Hall. specialize (Hall t).
  rewrite List.forallb_forall in Hall. apply Hall; apply List.in_seq; lia.
Qed.

(** X16: the success rate is 0 when no video is expected. For up to 200
    expected videos of which no more succeeded than were expected, the
    rate lies between 0 and 100; it is the percentage of successes rounded
    to the nearest integer with a half going up,
    [(200 * succeeded + total) / (2 * total)] in integer division, or, only
    where the percentage is an integer and a half, one below it; and it
    shows 100 exactly when [200 * succeeded >= 199 * total]. The lower
    value does occur: 23 successes of 40 are 57 percent, where the
    rounding of the rationals gives 58. *)
Theorem success_rate_is_a_rounded_percentage (st : StatsCollector) :
  (total st = 0 -> getSuccessRate st = 0%Z)
  /\ (0 < total st <= 200 -> succeeded st <= total st ->
      (0 <= getSuccessRate st <= 100)%Z
      /\ (getSuccessRate st = NumberNotions.half_up_percent (succeeded st) (total st)
          \/ (getSuccessRate st
              = NumberNotions.half_up_percent (succeeded st) (total st) - 1)%Z
             /\ ((200 * Z.of_nat (succeeded st) + Z.of_nat (total st))
                 mod (2 * Z.of_nat (total st)) = 0)%Z)
      /\ (getSuccessRate st = 100%Z <-> 199 * total st <= 200 * succeeded st))
  /\ getSuccessRate (mkStats 0 None 40 23 17 23 0 [] []) = 57%Z
  /\ NumberNotions.half_up_percent 23 40 = 58%Z.
Proof.
  split; [|split; [|split; vm_compute; reflexivity]].
  - unfold getSuccessRate. now intros ->.
  - intros Htotal Hle.
    assert (Hall : NumberNotions.rates_ok 200 = true) by (vm_compute; reflexivity).
    pose proof (rates_ok_sound 200 _ _ Hall Htotal Hle) as Hok.
    unfold getSuccessRate.
    replace (total st =? 0) with false by (symmetry; apply Nat.eqb_neq; lia).
    unfold NumberNotions.rate_ok, NumberNotions.is_half in Hok. cbv zeta in Hok.
    apply andb_true_iff in Hok as [Hok Hfull].
    apply andb_true_iff in Hok as [Hok Hnear].
    apply andb_true_iff in Hok as [Hlow Hhigh].
    apply Z.leb_le in Hlow. apply Z.leb_le in Hhigh. apply Bool.eqb_prop in Hfull.
    split; [split; assumption|]. split.
    + apply orb_true_iff in Hnear as [Hexact|Hbelow].
      * left. now apply Z.eqb_eq.
      * right. apply andb_true_iff in Hbelow as [Hbelow Hhalf].
        split; [now apply Z.eqb_eq|now apply Z.eqb_eq].
    + rewrite <- Z.eqb_eq, Hfull, Z.leb_le. lia.
Qed.

Lemma success_rate_is_a_rounded_percentage_witness :
  getSuccessRate (mkStats 0 None 200 29 171 29 0 [] []) = 14%Z
  /\ NumberNotions.half_up_percent 29 200 = 15%Z.
Proof.
  destruct (proj1 (proj2 (success_rate_is_a_rounded_percentage
                            (mkStats 0 None 200 29 171 29 0 [] [])))
              ltac:(cbn; lia) ltac:(cbn; lia)) as (_ & [Hexact|[Hbelow _]] & _).
  - exfalso. revert Hexact. vm_compute. discriminate.
  - split; [rewrite Hbelow|]; vm_compute; reflexivity.
Defined.


(** X17: once [end] was called (at a time that is not 0), the elapsed time
    is the time from [start] to [end] and the report no longer depends on
    the clock; before [end] the elapsed time runs with the clock. *)
Theorem report_is_frozen_after_end (chalk : Chalk) (formatFileSize : Z -> string)
        (st : StatsCollector) (ended now now' : Z) :
  ended <> 0%Z ->
  getElapsedTime (end_ st ended) now = (ended - startTime st)%Z
  /\ generateReport chalk formatFileSize (end_ st ended) now
     = generateReport chalk formatFileSize (end_ st ended) now'
  /\ (endTime st = None -> getElapsedTime st now = (now - startTime st)%Z).
Proof.
  intros Hended.
  assert (Helapsed : forall n, getElapsedTime (end_ st ended) n = (ended - startTime st)%Z).
  { intros n. unfold getElapsedTime, end_. cbn [endTime startTime].
    destruct (ended =? 0)%Z eqn:Hz; [apply Z.eqb_eq in Hz; contradiction|reflexivity]. }
  split; [apply Helapsed|]. split.
  - unfold generateReport, reportLines, getAverageTime. now rewrite !Helapsed.
  - intros Hopen. unfold getElapsedTime. now rewrite Hopen.
Qed.

Lemma report_is_frozen_after_end_witness :
  getElapsedTime (end_ six_failures 5000) 99999 = (5000 - startTime six_failures)%Z.
Proof.
  refine (proj1 (report_is_frozen_after_end plain_chalk of_Z six_failures 5000 99999 0 _)).
  discriminate.
Defined.

End StatsRates.

(** ** More on the task queue *)

Module QueueMore.
Import Queue Samples SerialNotions.

Section Serial.
Context {T R E : Type}.
Variable processFn : T -> nat -> Outcome R E.

Lemma dequeue_one job (rest : list (T * nat)) :
  dequeue 1 (job :: rest) [] = (rest, [job]).
Proof. cbn [dequeue length Nat.ltb Nat.leb app]. now destruct rest. Qed.

Lemma drain_serial pick : forall (p : list (T * nat)) fuel n res,
    length p <= fuel ->
    drain processFn fuel 1 pick n (mkSched p [] res)
    = Some (fold_left (fun res job => settle processFn job res) p res).
Proof.
  induction p as [|job rest IH]; intros fuel n res Hfuel.
  - destruct fuel; reflexivity.
  - destruct fuel as [|fuel]; [cbn in Hfuel; lia|].
    cbn [drain pending active results]. rewrite dequeue_one.
    cbn [length]. rewrite Nat.mod_1_r.
    cbn [nth firstn skipn app fold_left]. apply IH. cbn in Hfuel. lia.
Qed.
End Serial.

(** X18: with a concurrency of 1 the queue is serial: whatever the order
    in which workers could settle, the items are processed one after
    another in the order of submission, each bucket listing its entries in
    that order. *)
Theorem serial_queue_keeps_order {T R E : Type} (processFn : T -> nat -> Outcome R E)
        (items : list T) (pick : nat -> nat) :
  processQueue processFn items 1 pick
  = Some (Returned (settled_in_order processFn items)).
Proof.
  unfold processQueue, settled_in_order. cbn [Nat.eqb].
  rewrite drain_serial; [reflexivity|].
  rewrite <- (length_map snd), QueueFacts.enumerate_indices, length_seq. lia.
Qed.

End QueueMore.

(** ** More on the progress tracker *)

Module ProgressMore.
Import JsString Progress Samples ProgressNotions.

Lemma slice0_length n : forall s, String.length (slice0 n s) = Nat.min n (String.length s).
Proof.
  induction n as [|n IH]; intros [|c s]; cbn [slice0 String.length Nat.min]; try reflexivity.
  now rewrite IH.
Qed.

Lemma append_length s t : String.length (s +:+ t) = String.length s + String.length t.
Proof.
  induction s as [|c s IH]; [reflexivity|].
  change (S (String.length (s +:+ t)) = S (String.length s + String.length t)).
  now rewrite IH.
Qed.

(** X19: [truncate] returns a text that fits as it is, and cuts a longer
    one to exactly [maxLength] characters, the last three of them dots;
    for a limit of at least 3 the result is never longer than the limit. *)
Theorem truncate_fits (text : string) (maxLength : nat) :
  3 <= maxLength ->
  String.length (truncate text maxLength) <= maxLength
  /\ (String.length text <= maxLength -> truncate text maxLength = text)
  /\ (maxLength < String.length text ->
      truncate text maxLength = slice0 (maxLength - 3) text +:+ "..."
      /\ String.length (truncate text maxLength) = maxLength).
Proof.
  intros Hmax. unfold truncate.
  replace (3 <=? maxLength) with true by (symmetry; now apply Nat.leb_le).
  destruct (String.length text <=? maxLength) eqn:Hfit.
  - apply Nat.leb_le in Hfit. repeat split; try lia; intros; lia.
  - apply Nat.leb_gt in Hfit.
    assert (Hlen : String.length (slice0 (maxLength - 3) text +:+ "...") = maxLength).
    { rewrite append_length, slice0_length. cbn [String.length]. lia. }
    repeat split; try lia; intros; lia.
Qed.

Lemma truncate_fits_witness :
  String.length (truncate "A title that is much too long" 10) <= 10.
Proof.
  apply (proj1 (truncate_fits "A title that is much too long" 10 ltac:(lia))).
Defined.

Lemma map_get_set_same m : forall k v, map_get (map_set m k v) k = Some v.
Proof.
  induction m as [|[k0 v0] m IH]; intros k v; cbn [map_set map_get].
  - now rewrite String.eqb_refl.
  - destruct (String.eqb k k0) eqn:Hk; cbn [map_get].
    + now rewrite String.eqb_refl.
    + rewrite Hk. apply IH.
Qed.

Lemma map_set_keys m : forall k v v0,
    map_get m k = Some v0 -> map fst (map_set m k v) = map fst m.
Proof.
  induction m as [|[k0 w] m IH]; intros k v v0 Hget; [discriminate Hget|].
  cbn [map_get] in Hget. cbn [map_set].
  destruct (String.eqb k k0) eqn:Hk.
  - apply String.eqb_eq in Hk. now subst.
  - cbn [map fst]. f_equal. now apply (IH k v v0).
Qed.

Lemma map_get_updateDisplay_some m k : forall n v,
    map_get m k = Some v ->
    exists sp, map_get (updateDisplay_from n m) k = Some (mkEntry sp (title v) (status v)).
Proof.
  induction m as [|[k0 v0] m IH]; intros n v Hget; [discriminate Hget|].
  cbn [map_get] in Hget. cbn [updateDisplay_from].
  destruct (Status_eqb (status v0) processing && (n <? 5)); cbn [map_get];
    destruct (String.eqb k k0).
  - injection Hget as <-. eexists. reflexivity.
  - now apply IH.
  - injection Hget as <-. destruct v0. eexists. reflexivity.
  - now apply IH.
Qed.

Section Tracker.
Variable chalk : Chalk.

(** The counters move with the calls that end a video, and with no
    other. *)
Lemma counters_follow_calls calls : forall t,
    let t' := fold_left (call chalk) calls t in
    n_succeeded (stats t') = n_succeeded (stats t) + count_calls is_succeed calls
    /\ n_failed (stats t') = n_failed (stats t) + count_calls is_fail calls
    /\ completed (stats t')
       = completed (stats t) + count_calls is_succeed calls + count_calls is_fail calls.
Proof.
  unfold count_calls.
  induction calls as [|c calls IH]; intros t; cbn [fold_left].
  - cbn. lia.
  - specialize (IH (call chalk t c)). cbn zeta in IH |- *.
    destruct IH as (Hs & Hf & Hc). rewrite Hs, Hf, Hc.
    destruct c as [n|i ti|i ti|i ti m| |];
      cbn [call List.filter is_succeed is_fail length];
      unfold succeedVideo, failVideo;
      rewrite ?ProgressFacts.updateMainSpinner_stats; cbn; lia.
Qed.
End Tracker.

(** X20: after any sequence of calls on a fresh tracker, [succeeded] is
    the number of [succeedVideo] calls, [failed] the number of [failVideo]
    calls, and [completed] is their sum, whether or not the ids were
    started and however often a video was ended. *)
Theorem tracker_counts_every_ending (chalk : Chalk) (calls : list Call) :
  n_succeeded (stats (after chalk calls)) = count_calls is_succeed calls
  /\ n_failed (stats (after chalk calls)) = count_calls is_fail calls
  /\ completed (stats (after chalk calls))
     = n_succeeded (stats (after chalk calls)) + n_failed (stats (after chalk calls)).
Proof.
  destruct (counters_follow_calls chalk calls new) as (Hs & Hf & Hc).
  unfold after. rewrite Hs, Hf, Hc. cbn. lia.
Qed.

(** X21: [startVideo] gives the id an entry with its title and the status
    processing; [succeedVideo] and [failVideo] on an id that has an entry
    set its status to succeeded or failed, keep its title, leave every
    other entry as it was, and keep the order of the entries. *)
Theorem video_entry_lifecycle (chalk : Chalk) (t : ProgressTracker)
        (videoId title errorMessage : string) :
  (exists sp, map_get (videoSpinners (startVideo chalk t videoId title)) videoId
              = Some (mkEntry sp title processing))
  /\ (forall v, map_get (videoSpinners t) videoId = Some v ->
        let t1 := succeedVideo chalk t videoId title in
        let t2 := failVideo chalk t videoId title errorMessage in
        (exists sp, map_get (videoSpinners t1) videoId
                    = Some (mkEntry sp (Progress.title v) succeeded))
        /\ (exists sp, map_get (videoSpinners t2) videoId
                       = Some (mkEntry sp (Progress.title v) failed))
        /\ (forall other, other <> videoId ->
               map_get (videoSpinners t1) other = map_get (videoSpinners t) other
               /\ map_get (videoSpinners t2) other = map_get (videoSpinners t) other)
        /\ map fst (videoSpinners t1) = map fst (videoSpinners t)
        /\ map fst (videoSpinners t2) = map fst (videoSpinners t)).
Proof.
  split.
  - unfold startVideo, updateDisplay. cbn [videoSpinners].
    destruct (map_get_updateDisplay_some
                (map_set (videoSpinners t) videoId
                   (mkEntry (ora (dim chalk (truncate title 60))) title processing))
                videoId 0 _ (map_get_set_same _ _ _)) as [sp Hsp].
    exists sp. exact Hsp.
  - intros v Hv t1 t2. subst t1 t2. unfold succeedVideo, failVideo.
    rewrite !ProgressFacts.updateMainSpinner_videoSpinners. cbn [videoSpinners].
    rewrite Hv. rewrite !map_get_set_same.
    split; [eexists; reflexivity|]. split; [eexists; reflexivity|].
    split; [|split; now apply (map_set_keys _ _ _ v)].
    intros other Hother.
    split; apply ProgressFacts.map_get_set_other; exact Hother.
Qed.

Lemma video_entry_lifecycle_witness :
  exists sp,
    map_get (videoSpinners
               (succeedVideo plain_chalk
                  (after plain_chalk [CallStart 1; CallStartVideo "a" "Title"]) "a" ""))
            "a"
    = Some (mkEntry sp "Title" succeeded).
Proof.
  refine (proj1 (proj2 (video_entry_lifecycle plain_chalk
                          (after plain_chalk [CallStart 1; CallStartVideo "a" "Title"])
                          "a" "" "") (mkEntry (sp_start (ora "Title")) "Title" processing) _)).
  vm_compute. reflexivity.
Defined.

End ProgressMore.

(** ** The version check *)

Module ValidatorFacts.
Import Validator FileNotions.

Lemma same_version_valid v : forall n i, isVersionValid_from n i v v = true.
Proof.
  induction n as [|n IH]; intros i; cbn [isVersionValid_from]; [reflexivity|].
  rewrite Z.gtb_ltb, Z.ltb_irrefl. apply IH.
Qed.

(** A refusal comes from a part that is smaller, after parts that agree. *)
Lemma refused_at a b : forall n i,
    isVersionValid_from n i a b = false ->
    exists j, i <= j /\ agree_between a b i j /\ (nth j a 0 < nth j b 0)%Z.
Proof.
  induction n as [|n IH]; intros i Hno; cbn [isVersionValid_from] in Hno; [discriminate Hno|].
  destruct (nth i a 0 >? nth i b 0)%Z eqn:Hgt; [discriminate Hno|].
  destruct (nth i a 0 <? nth i b 0)%Z eqn:Hlt.
  - exists i. split; [lia|]. split; [intros k Hk; lia|]. now apply Z.ltb_lt.
  - destruct (IH (S i) Hno) as (j & Hj & Hagree & Hsmall).
    exists j. split; [lia|]. split; [|exact Hsmall].
    intros k Hk. destruct (Nat.eq_dec k i) as [->|Hne]; [|apply Hagree; lia].
    rewrite Z.gtb_ltb in Hgt. apply Z.ltb_ge in Hgt, Hlt. lia.
Qed.

(** A greater part after parts that agree is accepted, wherever the loop
    stops. *)
Lemma accepted_before a b j :
  (nth j a 0 < nth j b 0)%Z ->
  forall n i, i <= j -> agree_between a b i j -> isVersionValid_from n i b a = true.
Proof.
  intros Hsmall. induction n as [|n IH]; intros i Hi Hagree;
    cbn [isVersionValid_from]; [reflexivity|].
  destruct (Nat.eq_dec i j) as [->|Hne].
  - replace (nth j b 0 >? nth j a 0)%Z with true; [reflexivity|].
    symmetry. rewrite Z.gtb_ltb. now apply Z.ltb_lt.
  - rewrite (Hagree i ltac:(lia)), Z.gtb_ltb, Z.ltb_irrefl.
    apply IH; [lia|]. intros k Hk. apply Hagree. lia.
Qed.

(** X22: [isVersionValid] accepts a version against itself; of two
    versions at least one is accepted against the other; and against the
    required 18.0.0 a version without negative parts is accepted exactly
    when its first part is at least 18, a missing part counting as 0. *)
Theorem version_check_is_lexicographic :
  (forall v, isVersionValid v v = true)
  /\ (forall a b, isVersionValid a b = false -> isVersionValid b a = true)
  /\ (forall current,
         Forall (fun part => (0 <= part)%Z) current ->
         isVersionValid current MIN_NODE_VERSION = (18 <=? nth 0 current 0)%Z).
Proof.
  split; [|split].
  - intros v. apply same_version_valid.
  - intros a b Hno. unfold isVersionValid in *.
    destruct (refused_at a b _ _ Hno) as (j & _ & Hagree & Hsmall).
    apply (accepted_before a b j Hsmall); [lia|exact Hagree].
  - intros current Hparts.
    assert (Hnth : forall i, (0 <= nth i current 0)%Z).
    { intros i. destruct (Nat.lt_ge_cases i (length current)) as [Hlt|Hge].
      - rewrite List.Forall_forall in Hparts. apply Hparts. now apply nth_In.
      - rewrite nth_overflow by exact Hge. lia. }
    unfold isVersionValid, MIN_NODE_VERSION.
    cbn [length isVersionValid_from nth].
    pose proof (Hnth 0) as H0. pose proof (Hnth 1) as H1. pose proof (Hnth 2) as H2.
    rewrite !Z.gtb_ltb.
    destruct (18 <? nth 0 current 0)%Z eqn:Hgt.
    + apply Z.ltb_lt in Hgt. symmetry. apply Z.leb_le. lia.
    + apply Z.ltb_ge in Hgt.
      destruct (nth 0 current 0 <? 18)%Z eqn:Hlt.
      * apply Z.ltb_lt in Hlt. symmetry. apply Z.leb_gt. lia.
      * apply Z.ltb_ge in Hlt.
        destruct (0 <? nth 1 current 0)%Z; [symmetry; apply Z.leb_le; lia|].
        replace (nth 1 current 0 <? 0)%Z with false by (symmetry; apply Z.ltb_ge; lia).
        destruct (0 <? nth 2 current 0)%Z; [symmetry; apply Z.leb_le; lia|].
        replace (nth 2 current 0 <? 0)%Z with false by (symmetry; apply Z.ltb_ge; lia).
        symmetry. apply Z.leb_le. lia.
Qed.

Lemma version_check_is_lexicographic_witness :
  isVersionValid [20; 11; 1]%Z MIN_NODE_VERSION = (18 <=? nth 0 [20; 11; 1] 0)%Z.
Proof.
  apply (proj2 (proj2 version_check_is_lexicographic) [20; 11; 1]%Z).
  repeat constructor; lia.
Defined.

End ValidatorFacts.

(** ** The upload date of the search results *)

Module SearcherFacts.
Import JsString Searcher.

(** X23: [formatUploadDate] turns a date of 8 characters, YYYYMMDD, into
    YYYY-MM-DD with the same characters in the same order, returns any
    other date that is not empty as it is, and returns null for a missing
    or empty date. *)
Theorem upload_date_gets_its_dashes :
  (forall s, String.length s = 8 ->
     exists y1 y2 y3 y4 m1 m2 d1 d2,
       s = String y1 (String y2 (String y3 (String y4 (String m1 (String m2
             (String d1 (String d2 EmptyString)))))))
       /\ formatUploadDate (Some s)
          = Some (String y1 (String y2 (String y3 (String y4 (String "-"
                    (String m1 (String m2 (String "-"
                       (String d1 (String d2 EmptyString)))))))))))
  /\ (forall s, s <> EmptyString -> String.length s <> 8 -> formatUploadDate (Some s) = Some s)
  /\ formatUploadDate None = None
  /\ formatUploadDate (Some EmptyString) = None.
Proof.
  split; [|split; [|split; reflexivity]].
  - intros s Hlen.
    destruct s as [|y1 [|y2 [|y3 [|y4 [|m1 [|m2 [|d1 [|d2 [|x s]]]]]]]]]; try discriminate Hlen.
    exists y1, y2, y3, y4, m1, m2, d1, d2. split; reflexivity.
  - intros s Hs Hlen. unfold formatUploadDate.
    destruct s as [|c s]; [contradiction|]. cbn [is_empty].
    now replace (String.length (String c s) =? 8) with false
      by (symmetry; now apply Nat.eqb_neq).
Qed.

Lemma upload_date_gets_its_dashes_witness :
  formatUploadDate (Some "2009-10-25T06:57:33.000Z") = Some "2009-10-25T06:57:33.000Z".
Proof.
  apply (proj1 (proj2 upload_date_gets_its_dashes) "2009-10-25T06:57:33.000Z");
    vm_compute; discriminate.
Defined.

End SearcherFacts.

(** ** File names *)

Module FileUtilsFacts.
Import JsString Errors Parser Searcher FileUtils FileNotions.

(** *** What the operations on strings keep *)

Section Kept.
Variable p : ascii -> bool.

Lemma all_chars_append s t :
  all_chars p (s +:+ t) = all_chars p s && all_chars p t.
Proof.
  induction s as [|c s IH]; [reflexivity|].
  change (p c && all_chars p (s +:+ t) = p c && all_chars p s && all_chars p t).
  now rewrite IH, andb_assoc.
Qed.

Lemma all_chars_slice0 n : forall s, all_chars p s = true -> all_chars p (slice0 n s) = true.
Proof.
  induction n as [|n IH]; intros [|c s] Hs; try reflexivity.
  cbn [slice0 all_chars] in *. apply andb_prop in Hs as [Hc Hs]. now rewrite Hc, IH.
Qed.

Lemma all_chars_drop n : forall s, all_chars p s = true -> all_chars p (drop n s) = true.
Proof.
  induction n as [|n IH]; intros [|c s] Hs; try assumption.
  cbn [drop]. cbn [all_chars] in Hs. apply andb_prop in Hs as [_ Hs]. now apply IH.
Qed.

Lemma all_chars_trimStart s : all_chars p s = true -> all_chars p (trimStart s) = true.
Proof.
  induction s as [|c s IH]; intros Hs; [reflexivity|]. cbn [trimStart].
  destruct (is_space c); [|exact Hs].
  cbn [all_chars] in Hs. apply andb_prop in Hs as [_ Hs]. now apply IH.
Qed.

Lemma all_chars_trimEnd s : all_chars p s = true -> all_chars p (trimEnd s) = true.
Proof.
  induction s as [|c s IH]; intros Hs; [reflexivity|]. cbn [trimEnd].
  cbn [all_chars] in Hs. apply andb_prop in Hs as [Hc Hs].
  destruct (is_space c && is_empty (trimEnd s)); [reflexivity|].
  cbn [all_chars]. now rewrite Hc, IH.
Qed.

Lemma all_chars_collapse s :
  p " "%char = true -> all_chars p s = true -> all_chars p (collapse_spaces s) = true.
Proof.
  intros Hspace. induction s as [|c s IH]; intros Hs; [reflexivity|].
  cbn [all_chars] in Hs. apply andb_prop in Hs as [Hc Hs]. cbn [collapse_spaces].
  destruct (is_space c).
  - destruct s as [|c' s']; [cbn; now rewrite Hspace|].
    destruct (is_space c'); [now apply IH|].
    cbn [all_chars]. rewrite Hspace. now apply IH.
  - cbn [all_chars]. now rewrite Hc, IH.
Qed.

Lemma all_chars_leading_dots s :
  all_chars p s = true -> all_chars p (strip_leading_dots s) = true.
Proof.
  induction s as [|c s IH]; intros Hs; [reflexivity|].
  cbn [strip_leading_dots].
  destruct c as [[] [] [] [] [] [] [] []]; try exact Hs.
  cbn [all_chars] in Hs. apply andb_prop in Hs as [_ Hs]. now apply IH.
Qed.

Lemma all_chars_trailing_dots s :
  all_chars p s = true -> all_chars p (strip_trailing_dots s) = true.
Proof.
  induction s as [|c s IH]; intros Hs; [reflexivity|]. cbn [strip_trailing_dots].
  cbn [all_chars] in Hs. apply andb_prop in Hs as [Hc Hs].
  destruct (Ascii.eqb c "." && is_empty (strip_trailing_dots s)); [reflexivity|].
  cbn [all_chars]. now rewrite Hc, IH.
Qed.

Lemma all_chars_extname s : all_chars p s = true -> all_chars p (extname s) = true.
Proof.
  intros Hs. unfold extname.
  destruct (last_dot_from 0 s) as [[|i]|]; try reflexivity.
  destruct (startsWith "." s && (S i =? String.length s - 1) && (S i =? 1));
    [reflexivity|now apply all_chars_drop].
Qed.

Lemma all_chars_basename s ext :
  all_chars p s = true -> all_chars p (basename s ext) = true.
Proof.
  intros Hs. unfold basename.
  destruct (is_empty ext); [exact Hs|].
  destruct (String.length s <? String.length ext); [exact Hs|].
  destruct (String.eqb ext s); [reflexivity|].
  destruct (endsWith ext s); [now apply all_chars_slice0|exact Hs].
Qed.

Lemma all_chars_slice_to k s : all_chars p s = true -> all_chars p (slice_to k s) = true.
Proof. intros Hs. unfold slice_to. destruct (k <? 0)%Z; now apply all_chars_slice0. Qed.
End Kept.

Lemma remove_invalid_valid s : all_chars is_valid (remove_invalid s) = true.
Proof.
  induction s as [|c s IH]; [reflexivity|]. cbn [remove_invalid].
  destruct (is_invalid c) eqn:Hc; [exact IH|].
  cbn [all_chars]. unfold is_valid at 1. now rewrite Hc, IH.
Qed.

Lemma cleaned_valid filename : all_chars is_valid (cleaned filename) = true.
Proof.
  unfold cleaned, trim.
  apply all_chars_trailing_dots, all_chars_leading_dots, all_chars_trimEnd,
    all_chars_trimStart, all_chars_collapse; [reflexivity|apply remove_invalid_valid].
Qed.

Lemma digits_valid d : all_chars is_valid (NilEmpty.string_of_uint d) = true.
Proof. induction d; cbn [NilEmpty.string_of_uint all_chars]; try exact IHd; reflexivity. Qed.

Lemma decimal_valid z : all_chars is_valid (decimal z) = true.
Proof.
  unfold decimal. destruct (Z.to_int z) as [d|d]; cbn [NilEmpty.string_of_int all_chars].
  - apply digits_valid.
  - apply digits_valid.
Qed.

(** The name that comes out is not empty and has no removed character
    left. *)
Lemma sanitizeFilename_valid (now : Z) (filename : string) :
  sanitizeFilename now filename <> EmptyString
  /\ all_chars is_valid (sanitizeFilename now filename) = true.
Proof.
  unfold sanitizeFilename.
  set (limited := if 200 <? String.length (cleaned filename) then _ else _).
  assert (Hlimited : all_chars is_valid limited = true).
  { subst limited. pose proof (cleaned_valid filename) as Hclean.
    destruct (200 <? String.length (cleaned filename)); [|exact Hclean].
    rewrite all_chars_append, all_chars_slice_to, all_chars_extname; auto.
    now apply all_chars_basename. }
  destruct limited as [|c s] eqn:Hl; cbn [is_empty].
  - split; [discriminate|].
    change (all_chars is_valid ("subtitle_" +:+ decimal now) = true).
    rewrite all_chars_append, decimal_valid. reflexivity.
  - split; [discriminate|exact Hlimited].
Qed.

(** X24: the name [sanitizeFilename] returns is never empty and holds
    none of the characters it removes: no angle bracket, colon, double
    quote, slash, backslash, bar, question mark, star or control
    character. *)
Theorem sanitized_name_is_safe (now : Z) (filename : string) :
  sanitizeFilename now filename <> EmptyString
  /\ all_chars (fun c => negb (is_invalid c)) (sanitizeFilename now filename) = true.
Proof. exact (sanitizeFilename_valid now filename). Qed.

Lemma slice0_short n : forall s, String.length (slice0 n s) <= n.
Proof. intros s. rewrite ProgressMore.slice0_length. lia. Qed.

(** X25: a name whose cleaned form is not empty is returned in its cleaned
    form when that has at most 200 characters, and is otherwise cut to
    exactly 200 characters that end with its extension, provided the
    extension itself has at most 200 characters. *)
Theorem sanitized_name_is_limited (now : Z) (filename : string) :
  cleaned filename <> EmptyString ->
  String.length (extname (cleaned filename)) <= 200 ->
  String.length (sanitizeFilename now filename) <= 200
  /\ (String.length (cleaned filename) <= 200 ->
      sanitizeFilename now filename = cleaned filename)
  /\ (200 < String.length (cleaned filename) ->
      exists stem, sanitizeFilename now filename = stem +:+ extname (cleaned filename)).
Proof.
  intros Hfull Hext. unfold sanitizeFilename.
  destruct (200 <? String.length (cleaned filename)) eqn:Hlong.
  - apply Nat.ltb_lt in Hlong.
    set (ext := extname (cleaned filename)) in *.
    set (base := basename (cleaned filename) ext).
    set (stem := slice_to (200 - Z.of_nat (String.length ext)) base).
    assert (Hstem : String.length stem <= 200 - String.length ext).
    { subst stem. unfold slice_to.
      replace (200 - Z.of_nat (String.length ext) <? 0)%Z with false
        by (symmetry; apply Z.ltb_ge; lia).
      etransitivity; [apply slice0_short|]. lia. }
    assert (Hsome : is_empty (stem +:+ ext) = false).
    { destruct ext as [|c ext'] eqn:Hext'.
      - subst stem base. unfold basename, slice_to. cbn [is_empty String.length].
        change (200 - Z.of_nat 0 <? 0)%Z with false. change (Z.to_nat (200 - Z.of_nat 0)) with 200.
        destruct (cleaned filename) as [|c s]; [contradiction|]. reflexivity.
      - now destruct stem. }
    rewrite Hsome. split; [|split; [lia|intros _; now exists stem]].
    rewrite ProgressMore.append_length. lia.
  - apply Nat.ltb_ge in Hlong.
    destruct (cleaned filename) as [|c s] eqn:Hclean; [contradiction|].
    cbn [is_empty]. split; [exact Hlong|]. split; [reflexivity|]. intros Hlt. lia.
Qed.

Lemma sanitized_name_is_limited_witness :
  String.length (sanitizeFilename 1700000000000 "A/B: what?") <= 200.
Proof.
  apply (proj1 (sanitized_name_is_limited 1700000000000 "A/B: what?"
                  ltac:(vm_compute; discriminate) ltac:(vm_compute; lia))).
Defined.

End FileUtilsFacts.

(** ** A free file name *)

Module UniqueFacts.
Import JsString Errors Parser Searcher FileUtils FileNotions.

Lemma append_inv_head s : forall t t', s +:+ t = s +:+ t' -> t = t'.
Proof.
  induction s as [|c s IH]; intros t t' Heq; [exact Heq|].
  change (String c (s +:+ t) = String c (s +:+ t')) in Heq.
  injection Heq as Heq. now apply IH.
Qed.

Lemma append_inv_tail e : forall s t, s +:+ e = t +:+ e -> s = t.
Proof.
  induction s as [|c s IH]; intros [|d t] Heq.
  - reflexivity.
  - apply (f_equal String.length) in Heq.
    rewrite !ProgressMore.append_length in Heq. cbn [String.length] in Heq. lia.
  - apply (f_equal String.length) in Heq.
    rewrite !ProgressMore.append_length in Heq. cbn [String.length] in Heq. lia.
  - change (String c (s +:+ e) = String d (t +:+ e)) in Heq.
    injection Heq as -> Heq. f_equal. now apply IH.
Qed.

Lemma of_nat_inj n m : of_nat n = of_nat m -> n = m.
Proof.
  unfold of_nat. intros Heq.
  assert (Hd : Nat.to_uint n = Nat.to_uint m).
  { apply (f_equal NilEmpty.uint_of_string) in Heq.
    rewrite !DecimalString.NilEmpty.usu in Heq. now injection Heq. }
  apply (f_equal Nat.of_uint) in Hd. now rewrite !DecimalNat.Unsigned.of_to in Hd.
Qed.

Lemma candidate_inj base ext : Inj eq eq (candidate base ext).
Proof.
  intros j k Heq. unfold candidate in Heq.
  apply append_inv_head in Heq.
  change ("_" +:+ of_nat j +:+ ext) with (String "_" (of_nat j +:+ ext)) in Heq.
  change ("_" +:+ of_nat k +:+ ext) with (String "_" (of_nat k +:+ ext)) in Heq.
  injection Heq as Heq. apply append_inv_tail in Heq. now apply of_nat_inj.
Qed.

(** No more candidates exist than there are files. *)
Lemma candidates_run_out (fs : FS) base ext n :
  (forall j, 1 <= j <= n -> fileExists fs (candidate base ext j) = true) ->
  n <= size (files fs).
Proof.
  intros Hall.
  set (names := candidate base ext <$> seq 1 n).
  assert (Hnodup : NoDup names).
  { apply NoDup_fmap_2; [apply candidate_inj|apply NoDup_seq]. }
  assert (Hsub : (list_to_set names : gset string) ⊆ dom (files fs)).
  { intros x Hx. apply elem_of_list_to_set in Hx.
    apply list_elem_of_fmap in Hx as (j & -> & Hj).
    apply list_elem_of_In, in_seq in Hj.
    specialize (Hall j ltac:(lia)). unfold fileExists in Hall.
    apply elem_of_dom. destruct (files fs !! candidate base ext j); [eauto|discriminate]. }
  apply subseteq_size in Hsub.
  rewrite size_list_to_set, size_dom in Hsub by exact Hnodup.
  subst names. now rewrite length_fmap, length_seq in Hsub.
Qed.

Section Loop.
Variable fs : FS.
Variables base ext : string.

(** What the loop returns is free, and is the first free candidate. *)
Lemma unique_loop_found : forall fuel counter uniquePath p,
    unique_loop fs base ext fuel counter uniquePath = Some p ->
    fileExists fs p = false
    /\ (fileExists fs uniquePath = false -> p = uniquePath)
    /\ (fileExists fs uniquePath = true ->
        exists k, counter <= k /\ p = candidate base ext k
                  /\ forall j, counter <= j < k ->
                               fileExists fs (candidate base ext j) = true).
Proof.
  induction fuel as [|fuel IH]; intros counter uniquePath p Hloop;
    cbn [unique_loop] in Hloop;
    destruct (fileExists fs uniquePath) eqn:Hexists; try discriminate Hloop.
  - injection Hloop as <-. repeat split; [exact Hexists|discriminate].
  - destruct (IH _ _ _ Hloop) as (Hfree & Hfirst & Hlater).
    split; [exact Hfree|]. split; [discriminate|]. intros _.
    destruct (fileExists fs (candidate base ext counter)) eqn:Hnext.
    + destruct (Hlater eq_refl) as (k & Hk & -> & Hall).
      exists k. split; [lia|]. split; [reflexivity|].
      intros j Hj. destruct (Nat.eq_dec j counter) as [->|Hne]; [exact Hnext|].
      apply Hall. lia.
    + exists counter. split; [lia|]. split; [now apply Hfirst|]. intros j Hj. lia.
  - injection Hloop as <-. repeat split; [exact Hexists|discriminate].
Qed.

(** The loop ends before the candidates could all exist. *)
Lemma unique_loop_total : forall fuel counter uniquePath,
    size (files fs) + 2 <= counter + fuel ->
    (forall j, 1 <= j -> S j < counter -> fileExists fs (candidate base ext j) = true) ->
    (2 <= counter -> uniquePath = candidate base ext (counter - 1)) ->
    exists p, unique_loop fs base ext fuel counter uniquePath = Some p.
Proof.
  induction fuel as [|fuel IH]; intros counter uniquePath Hfuel Hbefore Hlast;
    cbn [unique_loop]; destruct (fileExists fs uniquePath) eqn:Hexists; eauto.
  - exfalso.
    assert (Hfull : counter - 1 <= size (files fs)).
    { apply (candidates_run_out fs base ext). intros j Hj.
      destruct (Nat.eq_dec j (counter - 1)) as [->|Hne].
      - rewrite <- Hlast by lia. exact Hexists.
      - apply Hbefore; lia. }
    lia.
  - apply IH; [lia| |intros _; f_equal; lia].
    intros j Hj Hlt. destruct (Nat.eq_dec (S j) counter) as [Heq|Hne].
    + rewrite <- Hexists. f_equal. rewrite Hlast by lia. f_equal. lia.
    + apply Hbefore; lia.
Qed.
End Loop.

(** X26: [ensureUniqueFilename] always returns, and returns a path that
    does not exist: the path it was given when that is free, and otherwise
    the first free path among base_1.ext, base_2.ext, ..., every earlier
    one being taken. *)
Theorem unique_filename_is_free (path_extname : string -> string) (fs : FS)
        (filePath : string) :
  let ext := path_extname filePath in
  let base := slice_to (- Z.of_nat (String.length ext)) filePath in
  exists p,
    ensureUniqueFilename path_extname fs filePath = Some p
    /\ fileExists fs p = false
    /\ (fileExists fs filePath = false -> p = filePath)
    /\ (fileExists fs filePath = true ->
        exists k, 1 <= k /\ p = candidate base ext k
                  /\ forall j, 1 <= j < k -> fileExists fs (candidate base ext j) = true).
Proof.
  intros ext base. unfold ensureUniqueFilename. fold ext. fold base.
  destruct (unique_loop_total fs base ext (S (size (files fs))) 1 filePath) as [p Hp];
    [lia|intros j Hj Hlt; lia|intros Hc; lia|].
  exists p. split; [exact Hp|]. now apply unique_loop_found in Hp.
Qed.

Lemma unique_filename_is_free_witness :
  exists p,
    ensureUniqueFilename (fun _ => ".txt")
      (mkFS (<[ "a.txt" := "x" ]> {[ "a_1.txt" := "y" ]}) ∅) "a.txt" = Some p
    /\ fileExists (mkFS (<[ "a.txt" := "x" ]> {[ "a_1.txt" := "y" ]}) ∅) p = false
    /\ p = "a_2.txt".
Proof.
  pose proof (unique_filename_is_free (fun _ => ".txt")
                (mkFS (<[ "a.txt" := "x" ]> {[ "a_1.txt" := "y" ]}) ∅) "a.txt") as H.
  cbv zeta in H. destruct H as (p & Hp & Hfree & _).
  exists p. split; [exact Hp|]. split; [exact Hfree|].
  vm_compute in Hp. injection Hp as <-. reflexivity.
Defined.

End UniqueFacts.

(** ** The patterns of the URLs *)

Module RegexFacts.
Import Regex RegexNotions.

Lemma app_cons c u v : String c u +:+ v = String c (u +:+ v).
Proof. reflexivity. Qed.

Lemma app_empty u v : u +:+ v = EmptyString -> u = EmptyString /\ v = EmptyString.
Proof. destruct u; [intros H; split; [reflexivity | exact H] | discriminate]. Qed.

Lemma nullable_lang r : nullable r = true <-> lang r EmptyString.
Proof.
  split.
  - induction r; cbn [nullable]; intros H; try discriminate.
    + constructor.
    + apply andb_true_iff in H as [H1 H2].
      change (lang (Cat r1 r2) (EmptyString +:+ EmptyString)). constructor; auto.
    + apply orb_true_iff in H as [H|H]; [apply lang_AltL | apply lang_AltR]; auto.
    + constructor.
  - intros H. remember EmptyString as w eqn:Hw.
    induction H; cbn [nullable]; try discriminate; try reflexivity.
    + apply app_empty in Hw as [-> ->]. rewrite IHlang1, IHlang2; reflexivity.
    + rewrite IHlang by assumption. reflexivity.
    + rewrite IHlang by assumption. apply orb_true_r.
Qed.

Lemma lang_deriv c r : forall s, lang (deriv c r) s -> lang r (String c s).
Proof.
  induction r; cbn [deriv]; intros s H.
  - inversion H.
  - inversion H.
  - destruct (p c) eqn:Hp; inversion H; subst. constructor; exact Hp.
  - destruct (nullable r1) eqn:Hn.
    + inversion H; subst.
      * match goal with H' : lang (Cat _ _) _ |- _ => inversion H'; subst end.
        rewrite <- app_cons. constructor; auto.
      * change (lang (Cat r1 r2) (EmptyString +:+ String c s)).
        constructor; [apply nullable_lang; exact Hn | auto].
    + inversion H; subst. rewrite <- app_cons. constructor; auto.
  - inversion H; subst; [apply lang_AltL | apply lang_AltR]; auto.
  - inversion H; subst. rewrite <- app_cons. constructor; auto.
Qed.

Lemma deriv_lang c r w : lang r w -> forall s, w = String c s -> lang (deriv c r) s.
Proof.
  induction 1; intros s0 Hw; cbn [deriv]; try discriminate.
  - injection Hw as -> <-. rewrite H. constructor.
  - destruct u as [|a u'].
    + change (v = String c s0) in Hw.
      assert (Hn : nullable r = true) by (apply nullable_lang; assumption).
      rewrite Hn. apply lang_AltR. auto.
    + rewrite app_cons in Hw. injection Hw as -> <-.
      assert (Hd : lang (Cat (deriv c r) s) (u' +:+ v)) by (constructor; auto).
      destruct (nullable r); [apply lang_AltL|]; exact Hd.
  - apply lang_AltL; auto.
  - apply lang_AltR; auto.
  - rewrite app_cons in Hw. injection Hw as -> <-. constructor; auto.
Qed.

(** [matches_prefix] decides whether the string starts with a match. *)
Lemma matches_prefix_lang r : forall s,
  matches_prefix r s = true <-> exists u v, s = u +:+ v /\ lang r u.
Proof.
  intros s; revert r; induction s as [|c s IH]; intros r; cbn [matches_prefix].
  - rewrite orb_false_r, nullable_lang. split.
    + intros H. exists EmptyString, EmptyString. split; [reflexivity | exact H].
    + intros (u & v & Huv & H). symmetry in Huv. apply app_empty in Huv as [-> _]. exact H.
  - rewrite orb_true_iff, nullable_lang, IH. split.
    + intros [H | (u & v & -> & H)].
      * exists EmptyString, (String c s). split; [reflexivity | exact H].
      * exists (String c u), v. split; [reflexivity | apply lang_deriv; exact H].
    + intros (u & v & Huv & H). destruct u as [|a u'].
      * left; exact H.
      * rewrite app_cons in Huv. injection Huv as <- ->. right.
        exists u', v. split; [reflexivity | eapply deriv_lang; [exact H | reflexivity]].
Qed.

(** [test] decides whether the string holds a match. *)
Lemma test_lang r : forall s,
  test r s = true <-> exists pre u post, s = pre +:+ (u +:+ post) /\ lang r u.
Proof.
  induction s as [|c s IH]; cbn [test].
  - rewrite orb_false_r, matches_prefix_lang. split.
    + intros (u & v & Huv & H). exists EmptyString, u, v. split; [exact Huv | exact H].
    + intros (pre & u & post & Hs & H). symmetry in Hs. apply app_empty in Hs as [-> Hs].
      exists u, post. split; [symmetry; exact Hs | exact H].
  - rewrite orb_true_iff, matches_prefix_lang, IH. split.
    + intros [(u & v & Huv & H) | (pre & u & post & -> & H)].
      * exists EmptyString, u, v. split; [exact Huv | exact H].
      * exists (String c pre), u, post. split; [reflexivity | exact H].
    + intros (pre & u & post & Hs & H). destruct pre as [|a pre'].
      * left. exists u, post. split; [exact Hs | exact H].
      * rewrite app_cons in Hs. injection Hs as <- ->. right.
        exists pre', u, post. split; [reflexivity | exact H].
Qed.

Lemma lang_str t : forall u, lang (str t) u <-> u = t.
Proof.
  induction t as [|c t IH]; intros u; cbn [str]; split.
  - intros H. inversion H. reflexivity.
  - intros ->. constructor.
  - intros H. inversion H as [| |r s a b Ha Hb| | | |]; subst.
    inversion Ha as [|p c' Hc| | | | |]; subst.
    apply Ascii.eqb_eq in Hc. subst c'. apply IH in Hb. subst b. reflexivity.
  - intros ->. change (lang (Cat (Sym (Ascii.eqb c)) (str t)) (String c EmptyString +:+ t)).
    constructor; [constructor; apply Ascii.eqb_refl | apply IH; reflexivity].
Qed.

End RegexFacts.

Module ExtractorFacts.
Import JsString Errors FileUtils FileNotions Regex RegexNotions Extractor.

(** What the playlist pattern matches: a question mark or an ampersand,
    [list=], and at least one character of an id. *)
Lemma lang_PLAYLIST u :
  lang PLAYLIST u ->
  exists sep c rest,
    is_query_mark sep = true /\ is_id_char c = true
    /\ u = String sep ("list=" +:+ String c rest).
Proof.
  unfold PLAYLIST, plus. intros H.
  inversion H as [| |r s a b Ha Hb| | | |]; subst.
  inversion Ha as [|p sep Hsep| | | | |]; subst.
  inversion Hb as [| |r s l m Hl Hm| | | |]; subst.
  apply (proj1 (RegexFacts.lang_str "list=" l)) in Hl. subst l.
  inversion Hm as [| |r s x y Hx Hy| | | |]; subst.
  inversion Hx as [|p c Hc| | | | |]; subst.
  exists sep, c, y. repeat split; assumption.
Qed.

Lemma PLAYLIST_lang sep c :
  is_query_mark sep = true -> is_id_char c = true ->
  lang PLAYLIST (String sep ("list=" +:+ String c EmptyString)).
Proof.
  intros Hsep Hc. unfold PLAYLIST, plus.
  change (String sep ("list=" +:+ String c EmptyString))
    with (String sep EmptyString +:+ ("list=" +:+ (String c EmptyString +:+ EmptyString))).
  constructor; [constructor; exact Hsep|].
  constructor; [apply RegexFacts.lang_str; reflexivity|].
  constructor; [constructor; exact Hc | constructor].
Qed.

Lemma test_PLAYLIST url :
  test PLAYLIST url = true
  <-> exists pre sep c post,
        is_query_mark sep = true /\ is_id_char c = true
        /\ url = pre +:+ String sep ("list=" +:+ String c post).
Proof.
  rewrite RegexFacts.test_lang. split.
  - intros (pre & u & post & -> & Hu).
    destruct (lang_PLAYLIST u Hu) as (sep & c & rest & Hsep & Hc & ->).
    exists pre, sep, c, (rest +:+ post). repeat split; assumption.
  - intros (pre & sep & c & post & Hsep & Hc & ->).
    exists pre, (String sep ("list=" +:+ String c EmptyString)), post.
    split; [reflexivity | apply PLAYLIST_lang; assumption].
Qed.

(** X27: a URL is taken for a playlist exactly when it holds a [list]
    parameter, that is a question mark or an ampersand followed by
    [list=] and a letter, digit, underscore or hyphen; whatever else the
    URL is, the address of a video or of a channel included. *)
Theorem playlist_is_any_url_with_a_list (url : string) :
  detectUrlType url = Some playlist
  <-> exists pre sep c post,
        is_query_mark sep = true /\ is_id_char c = true
        /\ url = pre +:+ String sep ("list=" +:+ String c post).
Proof.
  rewrite <- test_PLAYLIST. unfold detectUrlType.
  destruct (test PLAYLIST url); [split; reflexivity|].
  destruct (test CHANNEL url); [split; discriminate|].
  destruct (test VIDEO url); split; discriminate.
Qed.

End ExtractorFacts.

Module ListingFacts.
Import JsString Errors FileUtils FileNotions Regex Extractor.

Section Listing.
Variable toISOString : Z -> string.
Variable now : nat -> Z.

(** Every video of a listing comes from an entry with that id. *)
Lemma videos_of_sound entries : forall k v,
    In v (videos_of toISOString now k entries) ->
    id v <> EmptyString
    /\ url v = "https://www.youtube.com/watch?v=" +:+ id v
    /\ title v <> EmptyString
    /\ all_chars is_valid (title v) = true
    /\ exists entry, In (Some entry) entries /\ e_id entry = Some (id v).
Proof.
  induction entries as [|[entry|] rest IH]; intros k v Hin; cbn [videos_of] in Hin.
  - contradiction.
  - assert (Hrest : forall k', In v (videos_of toISOString now k' rest) ->
              id v <> EmptyString
              /\ url v = "https://www.youtube.com/watch?v=" +:+ id v
              /\ title v <> EmptyString
              /\ all_chars is_valid (title v) = true
              /\ exists entry', In (Some entry') (Some entry :: rest)
                                /\ e_id entry' = Some (id v)).
    { intros k' Hin'. destruct (IH k' v Hin') as (H1 & H2 & H3 & H4 & e & He & Hid).
      repeat split; try assumption. exists e. split; [right; exact He | exact Hid]. }
    destruct (e_id entry) as [i|] eqn:Hid; [|now apply (Hrest k)].
    destruct i as [|c i'] eqn:Hi; cbn [is_empty] in Hin; [now apply (Hrest k)|].
    destruct Hin as [<-|Hin]; [|now apply (Hrest (S k))].
    unfold video_of. cbn [id url title].
    split; [discriminate|]. split; [reflexivity|].
    split; [apply FileUtilsFacts.sanitizeFilename_valid|].
    split; [apply FileUtilsFacts.sanitizeFilename_valid|].
    exists entry. split; [left; reflexivity | exact Hid].
  - destruct (IH k v Hin) as (H1 & H2 & H3 & H4 & e & He & Hid).
    repeat split; try assumption. exists e. split; [right; exact He | exact Hid].
Qed.

(** No entry with an id is left out. *)
Lemma videos_of_complete entries : forall k entry i,
    In (Some entry) entries -> e_id entry = Some i -> i <> EmptyString ->
    exists v, In v (videos_of toISOString now k entries) /\ id v = i.
Proof.
  induction entries as [|[first|] rest IH]; intros k entry i Hin Hid Hi; cbn [videos_of].
  - contradiction.
  - destruct Hin as [Heq|Hin].
    + injection Heq as ->. rewrite Hid.
      destruct i as [|c i']; [contradiction|]. cbn [is_empty].
      eexists. split; [left; reflexivity | reflexivity].
    + destruct (e_id first) as [j|]; [|now apply (IH k entry)].
      destruct (is_empty j); [now apply (IH k entry)|].
      destruct (IH (S k) entry i Hin Hid Hi) as (v & Hv & Hvi).
      exists v. split; [right; exact Hv | exact Hvi].
  - destruct Hin as [Heq|Hin]; [discriminate|]. now apply (IH k entry).
Qed.
End Listing.

(** X28: for a URL taken for a playlist or a channel, [extractVideos]
    either returns a list that is not empty, in which every video has an
    id that is not empty, the watch address of that id, a title that is
    not empty and safe in a file name, and the id of one of the entries
    fetched, and in which no entry with an id is missing; or it throws an
    [ExtractionError] for that URL that says the playlist videos could
    not be got. *)
Theorem listing_is_well_formed (toISOString : Z -> string) (now : nat -> Z)
        (address : string) (info : Outcome Video Failure)
        (fetched : Outcome (option (list (option Entry))) JsError) :
  detectUrlType address = Some playlist \/ detectUrlType address = Some channel ->
  match extractVideos toISOString now address info fetched with
  | Returned videos =>
      videos <> []
      /\ exists entries,
           fetched = Returned (Some entries)
           /\ (forall v, In v videos ->
                 id v <> EmptyString
                 /\ url v = "https://www.youtube.com/watch?v=" +:+ id v
                 /\ title v <> EmptyString
                 /\ all_chars is_valid (title v) = true
                 /\ exists entry, In (Some entry) entries /\ e_id entry = Some (id v))
           /\ (forall entry i,
                 In (Some entry) entries -> e_id entry = Some i -> i <> EmptyString ->
                 exists v, In v videos /\ id v = i)
  | Threw failure =>
      exists reason,
        failure = ExtractionError
                    ("Failed to extract videos: Failed to get playlist videos: " +:+ reason)
                    address
  end.
Proof.
  intros Hkind. unfold extractVideos.
  assert (Hlist :
    match getPlaylistVideos toISOString now fetched with
    | Returned videos =>
        videos <> []
        /\ exists entries,
             fetched = Returned (Some entries)
             /\ (forall v, In v videos ->
                   id v <> EmptyString
                   /\ url v = "https://www.youtube.com/watch?v=" +:+ id v
                   /\ title v <> EmptyString
                   /\ all_chars is_valid (title v) = true
                   /\ exists entry, In (Some entry) entries /\ e_id entry = Some (id v))
             /\ (forall entry i,
                   In (Some entry) entries -> e_id entry = Some i -> i <> EmptyString ->
                   exists v, In v videos /\ id v = i)
    | Threw failure =>
        exists reason,
          failure = PlainError ("Failed to get playlist videos: " +:+ reason)
    end).
  { unfold getPlaylistVideos. destruct fetched as [[entries|]|error].
    - destruct entries as [|[first|] rest].
      + cbn. now exists NO_VIDEOS.
      + destruct (videos_of toISOString now 0 (Some first :: rest)) as [|v videos] eqn:Hvideos.
        * cbn. now exists NO_VIDEOS.
        * cbn [length Nat.eqb]. split; [discriminate|].
          exists (Some first :: rest). split; [reflexivity|]. split.
          -- intros w Hw. apply (videos_of_sound toISOString now _ 0).
             rewrite Hvideos. exact Hw.
          -- intros entry i Hin Hid Hi. rewrite <- Hvideos.
             now apply videos_of_complete with (entry := entry).
      + eexists. reflexivity.
    - cbn. now exists NO_VIDEOS.
    - eexists. reflexivity. }
  destruct Hkind as [-> | ->].
  - destruct (getPlaylistVideos toISOString now fetched) as [videos|failure].
    + exact Hlist.
    + destruct Hlist as (reason & ->). exists reason. reflexivity.
  - destruct (getPlaylistVideos toISOString now fetched) as [videos|failure].
    + exact Hlist.
    + destruct Hlist as (reason & ->). exists reason. reflexivity.
Qed.

Lemma listing_is_well_formed_witness :
  detectUrlType "https://www.youtube.com/playlist?list=PL123" = Some playlist
  /\ match extractVideos (fun _ => "2024-01-01T00:00:00.000Z") (fun _ => 1700000000000%Z)
             "https://www.youtube.com/playlist?list=PL123"
             (Threw (PlainError "not asked"))
             (Returned (Some [Some (mkEntry (Some "dQw4w9WgXcQ") (Some "A/B: what?")
                                            None None None None None None None);
                              Some (mkEntry None (Some "no id") None None None None
                                            None None None)]))
     with
     | Returned videos =>
         videos <> []
         /\ exists entries,
              @Returned _ JsError
                        (Some [Some (mkEntry (Some "dQw4w9WgXcQ") (Some "A/B: what?")
                                             None None None None None None None);
                               Some (mkEntry None (Some "no id") None None None None
                                             None None None)])
              = Returned (Some entries)
              /\ (forall v, In v videos ->
                    id v <> EmptyString
                    /\ url v = "https://www.youtube.com/watch?v=" +:+ id v
                    /\ title v <> EmptyString
                    /\ all_chars is_valid (title v) = true
                    /\ exists entry, In (Some entry) entries /\ e_id entry = Some (id v))
              /\ (forall entry i,
                    In (Some entry) entries -> e_id entry = Some i -> i <> EmptyString ->
                    exists v, In v videos /\ id v = i)
     | Threw failure =>
         exists reason,
           failure = ExtractionError
                       ("Failed to extract videos: Failed to get playlist videos: "
                        +:+ reason)
                       "https://www.youtube.com/playlist?list=PL123"
     end.
Proof.
  split; [vm_compute; reflexivity|].
  apply listing_is_well_formed. left. vm_compute. reflexivity.
Defined.

End ListingFacts.

(** ** The search in a channel *)

Module SearchFacts.
Import JsString Errors FileUtils FileNotions Regex Extractor Searcher ChannelSearch.

Section Search.
Variable toISOString : Z -> string.
Variable now : nat -> Z.
Variable toLowerCase : string -> string.
Hypothesis timestamp_length : forall z, String.length (toISOString z) <> 8.

Lemma formatted_timestamp (timestamp : option Z) :
  formatUploadDate (unixToISO toISOString timestamp) = None
  \/ exists t, formatUploadDate (unixToISO toISOString timestamp) = Some (toISOString t).
Proof.
  unfold unixToISO. destruct (or_number timestamp None) as [t|]; [|left; reflexivity].
  unfold formatUploadDate. destruct (is_empty (toISOString (t * 1000))); [left; reflexivity|].
  destruct (String.length (toISOString (t * 1000)) =? 8) eqn:Hlen.
  - apply Nat.eqb_eq in Hlen. now apply timestamp_length in Hlen.
  - right. now exists (t * 1000)%Z.
Qed.

Lemma listed_dates entries : forall k v,
    In v (videos_of toISOString now k entries) ->
    formatUploadDate (upload_date v) = None
    \/ exists t, formatUploadDate (upload_date v) = Some (toISOString t).
Proof.
  induction entries as [|[entry|] rest IH]; intros k v Hin; cbn [videos_of] in Hin.
  - contradiction.
  - destruct (e_id entry) as [i|]; [|now apply (IH k)].
    destruct (is_empty i); [now apply (IH k)|].
    destruct Hin as [<-|Hin]; [|now apply (IH (S k))].
    unfold video_of. cbn [upload_date]. apply formatted_timestamp.
  - now apply (IH k).
Qed.

Lemma channel_listing address info fetched videos :
  detectUrlType address = Some channel ->
  extractVideos toISOString now address info fetched = Returned videos ->
  exists entries, videos = videos_of toISOString now 0 entries.
Proof.
  intros Hkind. unfold extractVideos, getPlaylistVideos. rewrite Hkind.
  destruct fetched as [[entries|]|error]; [| |discriminate].
  - destruct entries as [|[first|] rest]; [discriminate| |discriminate].
    destruct (length (videos_of toISOString now 0 (Some first :: rest)) =? 0);
      [discriminate|].
    intros Heq. injection Heq as <-. now exists (Some first :: rest).
  - discriminate.
Qed.

Lemma channel_failure address info fetched failure :
  detectUrlType address = Some channel ->
  extractVideos toISOString now address info fetched = Threw failure ->
  exists reason,
    failure = ExtractionError ("Failed to extract videos: " +:+ reason) address.
Proof.
  intros Hkind. unfold extractVideos. rewrite Hkind.
  destruct (getPlaylistVideos toISOString now fetched) as [videos|error]; [discriminate|].
  intros Heq. injection Heq as <-. now exists (failure_message error).
Qed.
End Search.

(** X29: [searchChannelVideos] only looks into a channel. Every result it
    returns is a video of the listing whose title holds the query, both in
    small letters; its address is the watch address of an id, and its
    upload date is absent or the ISO timestamp of the entry, never a date
    cut with dashes, as no ISO timestamp has eight characters. When it
    throws, either the URL is not taken for a channel and the error is the
    [ValidationError] that asks for a channel URL, or the listing failed
    and its [ExtractionError] leaves unchanged. A URL with a [list]
    parameter is always refused, a channel address included. *)
Theorem search_only_looks_into_a_channel
        (toISOString : Z -> string) (now : nat -> Z) (toLowerCase : string -> string)
        (channelUrl query : string) (info : Outcome Video Failure)
        (fetched : Outcome (option (list (option Entry))) JsError) :
  (forall z, String.length (toISOString z) <> 8) ->
  match searchChannelVideos toISOString now toLowerCase channelUrl query info fetched with
  | Returned results =>
      detectUrlType channelUrl = Some channel
      /\ forall r, In r results ->
           includes (toLowerCase query) (toLowerCase (r_title r)) = true
           /\ (exists i, i <> EmptyString
                         /\ r_url r = "https://www.youtube.com/watch?v=" +:+ i)
           /\ (r_upload_date r = None \/ exists t, r_upload_date r = Some (toISOString t))
  | Threw failure =>
      (detectUrlType channelUrl <> Some channel
       /\ failure = ValidationError NOT_A_CHANNEL)
      \/ (detectUrlType channelUrl = Some channel
          /\ exists reason,
               failure = ExtractionError ("Failed to extract videos: " +:+ reason) channelUrl)
  end
  /\ (forall pre sep c post,
        is_query_mark sep = true -> is_id_char c = true ->
        channelUrl = pre +:+ String sep ("list=" +:+ String c post) ->
        searchChannelVideos toISOString now toLowerCase channelUrl query info fetched
        = Threw (ValidationError NOT_A_CHANNEL)).
Proof.
  intros Hlength. split.
  - unfold searchChannelVideos.
    destruct (detectUrlType channelUrl) as [[| |]|] eqn:Hkind;
      try (left; split; [discriminate|reflexivity]).
    destruct (extractVideos toISOString now channelUrl info fetched)
      as [videos|failure] eqn:Hvideos.
    + split; [reflexivity|]. intros r Hr.
      apply in_map_iff in Hr as (v & <- & Hv).
      apply List.filter_In in Hv as [Hv Hmatch].
      destruct (channel_listing toISOString now _ _ _ _ Hkind Hvideos) as (entries & ->).
      destruct (ListingFacts.videos_of_sound toISOString now entries 0 v Hv)
        as (Hid & Hurl & _).
      unfold result_of. cbn [r_title r_url r_upload_date].
      split; [exact Hmatch|]. split; [now exists (id v)|].
      now apply (listed_dates toISOString now Hlength entries 0).
    + right. split; [reflexivity|].
      now apply (channel_failure toISOString now _ info fetched).
  - intros pre sep c post Hsep Hc Hurl.
    assert (Hkind : detectUrlType channelUrl = Some playlist).
    { unfold detectUrlType.
      replace (test PLAYLIST channelUrl) with true; [reflexivity|].
      symmetry. apply ExtractorFacts.test_PLAYLIST. now exists pre, sep, c, post. }
    unfold searchChannelVideos. rewrite Hkind. reflexivity.
Qed.

Lemma search_only_looks_into_a_channel_witness :
  searchChannelVideos (fun _ => "2024-01-01T00:00:00.000Z") (fun _ => 1700000000000%Z)
    (fun s => s) "https://www.youtube.com/@SomeChannel/videos?list=PL123" "rocq"
    (Threw (PlainError "not asked")) (Returned None)
  = Threw (ValidationError NOT_A_CHANNEL).
Proof.
  refine (proj2 (search_only_looks_into_a_channel
                   (fun _ => "2024-01-01T00:00:00.000Z") (fun _ => 1700000000000%Z)
                   (fun s => s) "https://www.youtube.com/@SomeChannel/videos?list=PL123"
                   "rocq" (Threw (PlainError "not asked")) (Returned None) _)
                "https://www.youtube.com/@SomeChannel/videos" "?"%char "P"%char "L123"
                _ _ _).
  - intros z. vm_compute. discriminate.
  - reflexivity.
  - reflexivity.
  - reflexivity.
Defined.

End SearchFacts.

(** ** The orchestrator *)

Module OrchestratorFacts.
Import JsString Errors JsDouble Downloader Orchestrator OrchestratorNotions.

Section Loop.
Context {R : Type}.
Variable Math_pow : number -> number -> number.
Variable fn : nat -> Outcome R Thrown.
Variable o : Retry.Options.

(** Once an attempt is allowed, [withRetry] never throws [undefined]. *)
Lemma loop_throws_an_error fuel : forall attempt lastError invoked slept run,
    Retry.loop Math_pow fn o fuel attempt lastError invoked slept = Some run ->
    lastError <> ThrownUndefined \/ (attempt <= Retry.maxRetries o)%Z ->
    Retry.result run <> Threw ThrownUndefined.
Proof.
  induction fuel as [|fuel IH]; intros attempt lastError invoked slept run Hrun Hlast;
    cbn [Retry.loop] in Hrun;
    destruct (attempt <=? Retry.maxRetries o)%Z eqn:Hle.
  - discriminate Hrun.
  - injection Hrun as <-. cbn [Retry.result]. apply Z.leb_gt in Hle.
    destruct Hlast as [Hlast|Hlast]; [congruence|lia].
  - destruct (fn invoked) as [r|[|e]].
    + injection Hrun as <-. discriminate.
    + injection Hrun as <-. discriminate.
    + destruct (negb (isRetryableError e)); [injection Hrun as <-; discriminate|].
      destruct (attempt + 1 >? Retry.maxRetries o)%Z; [injection Hrun as <-; discriminate|].
      eapply IH; [exact Hrun|]. left. discriminate.
  - injection Hrun as <-. cbn [Retry.result]. apply Z.leb_gt in Hle.
    destruct Hlast as [Hlast|Hlast]; [congruence|lia].
Qed.
End Loop.

Section Run.
Variable Math_pow : number -> number -> number.
Variable chalk : Chalk.
Variable outputDir : string.
Variable languages : list string.
Variable maxRetries : Z.
Variable world : nat -> nat -> Steps.

Lemma begin_counted tr job n s f :
  counted tr n s f -> counted (begin chalk tr job) n s f.
Proof. destruct job as [video index]. exact (fun H => H). Qed.

Lemma begin_all_counted jobs n s f : forall tr,
    counted tr n s f -> counted (fold_left (begin chalk) jobs tr) n s f.
Proof.
  induction jobs as [|job jobs IH]; intros tr Htr; [exact Htr|].
  cbn [fold_left]. apply IH, begin_counted, Htr.
Qed.

Lemma main_spinner_stays t :
  Progress.mainSpinner t <> None ->
  Progress.mainSpinner (Progress.updateMainSpinner chalk t) <> None.
Proof.
  unfold Progress.updateMainSpinner. destruct (Progress.mainSpinner t) eqn:Hmain.
  - discriminate.
  - intros H. rewrite Hmain. exact H.
Qed.

(** What the end of a job tells the trackers, and what it leaves for the
    queue: how the download of that very video settled. *)
Lemma finish_spec tr job n s f :
  counted tr n s f ->
  exists tr' outcome,
    finish Math_pow chalk outputDir languages maxRetries world tr job = Some (tr', outcome)
    /\ outcome = worker Math_pow outputDir maxRetries world (fst job) (snd job)
    /\ match outcome with
       | Returned _ => (0 <= maxRetries)%Z /\ counted tr' n (S s) f
       | Threw _ =>
           if (0 <=? maxRetries)%Z then counted tr' n s (S f) else counted tr' n s f
       end.
Proof.
  intros (Ht & Hs & Hf & He & Hpt & Hps & Hpf & Hpc & Hmain).
  destruct job as [video index]. unfold finish, worker, settles, download_with_retry.
  cbn [fst snd].
  destruct (RetryFacts.withRetry_total Math_pow
              (fun k => downloadVideoSubtitle video outputDir (world index k))
              (retry_options maxRetries)) as (run & Hrun).
  rewrite Hrun.
  destruct (0 <=? maxRetries)%Z eqn:Hmax.
  - apply Z.leb_le in Hmax.
    assert (Hdefined : Retry.result run <> Threw ThrownUndefined).
    { eapply loop_throws_an_error; [exact Hrun|]. right. cbn. exact Hmax. }
    destruct (Retry.result run) as [result|[|error]]; [| contradiction |].
    + eexists _, _. split; [reflexivity|]. split; [reflexivity|]. split; [exact Hmax|].
      unfold counted. cbn [stats progress].
      unfold Progress.succeedVideo.
      rewrite ProgressFacts.updateMainSpinner_stats.
      cbn [Stats.recordSuccess Stats.total Stats.succeeded Stats.failed Stats.errors
           Progress.stats Progress.total Progress.n_succeeded Progress.n_failed
           Progress.completed].
      repeat split; try congruence; try lia.
      apply main_spinner_stays. exact Hmain.
    + eexists _, _. split; [reflexivity|]. split; [reflexivity|].
      unfold counted. cbn [stats progress].
      unfold Progress.failVideo.
      rewrite ProgressFacts.updateMainSpinner_stats.
      cbn [Stats.recordFailure Stats.total Stats.succeeded Stats.failed Stats.errors
           Progress.stats Progress.total Progress.n_succeeded Progress.n_failed
           Progress.completed].
      rewrite length_app. cbn [length].
      repeat split; try congruence; try lia.
      apply main_spinner_stays. exact Hmain.
  - apply Z.leb_gt in Hmax.
    rewrite (RetryFacts.negative_maxRetries_never_invokes Math_pow
               (fun k => downloadVideoSubtitle video outputDir (world index k))
               (retry_options maxRetries) Hmax) in Hrun.
    injection Hrun as <-. cbn [Retry.result].
    eexists _, _. split; [reflexivity|]. split; [reflexivity|].
    repeat split; assumption.
Qed.

(** The queue drains whatever the order in which the downloads end; its
    buckets are those of [processQueue] around the worker, and the
    trackers have then counted what the buckets hold. *)
Lemma drain_counts c pick total : 1 <= c -> forall fuel n st tr,
    length (Queue.pending st) + length (Queue.active st) <= fuel ->
    length (Queue.pending st) + length (Queue.active st)
    + length (Queue.succeeded (Queue.results st))
    + length (Queue.failed (Queue.results st)) = total ->
    counted tr total (length (Queue.succeeded (Queue.results st)))
            (told maxRetries (length (Queue.failed (Queue.results st)))) ->
    ((maxRetries < 0)%Z -> Queue.succeeded (Queue.results st) = []) ->
    exists res tr',
      drain Math_pow chalk outputDir languages maxRetries world fuel c pick n st tr
      = Some (res, tr')
      /\ Queue.drain (worker Math_pow outputDir maxRetries world) fuel c pick n st = Some res
      /\ length (Queue.succeeded res) + length (Queue.failed res) = total
      /\ counted tr' total (length (Queue.succeeded res))
                 (told maxRetries (length (Queue.failed res)))
      /\ ((maxRetries < 0)%Z -> Queue.succeeded res = []).
Proof.
  intros Hc. induction fuel as [|fuel IH]; intros n st tr Hfuel Hsize Htr Hnone.
  - destruct st as [p a res]. cbn [Queue.pending Queue.active Queue.results] in *.
    assert (p = [] /\ a = []) as [-> ->].
    { destruct p, a; cbn in Hfuel; try lia. now split. }
    exists res, tr. cbn [length Nat.add] in Hsize.
    split; [reflexivity|]. split; [reflexivity|]. split; [exact Hsize|].
    split; [exact Htr|exact Hnone].
  - destruct st as [p a res]. cbn [Queue.pending Queue.active Queue.results] in *.
    cbn [drain Queue.drain Queue.pending Queue.active Queue.results].
    destruct (Queue.dequeue c p a) as [p' a'] eqn:Hdeq.
    destruct (QueueFacts.dequeue_spec c _ _ _ _ Hdeq) as (moved & -> & -> & Hidle).
    set (tr1 := fold_left (begin chalk) (skipn (length a) (a ++ moved)) tr).
    assert (Htr1 : counted tr1 total (length (Queue.succeeded res))
                     (told maxRetries (length (Queue.failed res))))
      by (apply begin_all_counted, Htr).
    rewrite length_app in Hfuel, Hsize.
    destruct (a ++ moved) as [|first a''] eqn:Hactive.
    + rewrite (Hidle Hc eq_refl) in *.
      apply app_eq_nil in Hactive as [-> ->].
      exists res, tr1. cbn [length Nat.add] in Hsize.
      split; [reflexivity|]. split; [reflexivity|]. split; [exact Hsize|].
      split; [exact Htr1|exact Hnone].
    + set (k := pick n mod length (first :: a'')).
      assert (Hk : k < length (first :: a'')).
      { apply Nat.mod_upper_bound. cbn. lia. }
      assert (Hlen : length (first :: a'') = length a + length moved)
        by (rewrite <- Hactive; apply length_app).
      set (job := nth k (first :: a'') first).
      destruct (finish_spec tr1 job _ _ _ Htr1) as (tr2 & outcome & Hfinish & Hworker & Hout).
      rewrite Hfinish.
      assert (Hsettle : Queue.settle (fun _ _ => outcome) job res
                        = Queue.settle (worker Math_pow outputDir maxRetries world) job res).
      { destruct job as [item index]. unfold Queue.settle. cbn [fst snd] in Hworker.
        now rewrite <- Hworker. }
      rewrite <- Hsettle.
      apply IH; cbn [Queue.pending Queue.active Queue.results].
      * rewrite length_app, length_firstn, length_skipn. lia.
      * rewrite length_app, length_firstn, length_skipn.
        destruct job as [item index]. unfold Queue.settle.
        destruct outcome; cbn [Queue.succeeded Queue.failed];
          rewrite length_app; cbn [length] in *; lia.
      * destruct job as [item index]. unfold Queue.settle.
        destruct outcome; cbn [Queue.succeeded Queue.failed];
          rewrite length_app; cbn [length].
        -- rewrite Nat.add_1_r. exact (proj2 Hout).
        -- unfold told in *. destruct (0 <=? maxRetries)%Z.
           ++ rewrite Nat.add_1_r. exact Hout.
           ++ exact Hout.
      * intros Hneg. destruct job as [item index]. unfold Queue.settle.
        destruct outcome; cbn [Queue.succeeded Queue.failed].
        -- destruct Hout as [Hmax _]. lia.
        -- now apply Hnone.
Qed.

(** An entry of a bucket of [processQueue] around the worker is how the
    download of its video settled. *)
Lemma worker_returned video index result :
  worker Math_pow outputDir maxRetries world video index = Returned result ->
  exists run,
    download_with_retry Math_pow video outputDir (world index) maxRetries = Some run
    /\ Retry.result run = Returned result.
Proof.
  unfold worker, settles.
  destruct (download_with_retry Math_pow video outputDir (world index) maxRetries)
    as [run|]; [|discriminate].
  intros Hsettled. exists run. split; [reflexivity|].
  destruct (Retry.result run) as [r|[|e]]; [congruence|discriminate|discriminate].
Qed.

Lemma worker_threw video index error :
  worker Math_pow outputDir maxRetries world video index = Threw error ->
  exists run,
    download_with_retry Math_pow video outputDir (world index) maxRetries = Some run
    /\ match Retry.result run with
       | Returned _ => False
       | Threw ThrownUndefined =>
           error = ThrownError (TypeError
                     "Cannot read properties of undefined (reading 'message')")
       | Threw (ThrownError e) => error = ThrownError e
       end.
Proof.
  unfold worker, settles.
  destruct (RetryFacts.withRetry_total Math_pow
              (fun k => downloadVideoSubtitle video outputDir (world index k))
              (retry_options maxRetries)) as (run & Hrun).
  unfold download_with_retry. rewrite Hrun.
  intros Hsettled. exists run. split; [reflexivity|].
  destruct (Retry.result run) as [r|[|e]]; [discriminate|congruence|congruence].
Qed.
End Run.

(** X30: whatever number the command line is given for the concurrency,
    and in whatever order the downloads end, [downloadSubtitles] returns.
    Every position of the list of videos has its entry in exactly one of
    the two buckets; an entry holds the video of its position and how the
    download of that video settled under [withRetry]: its result in the
    succeeded bucket, its error in the failed bucket. The statistics and
    the progress tracker count as many successes as the succeeded bucket
    holds. With a retry count of 0 or more they also count as many
    failures as the failed bucket holds. With a negative retry count
    [withRetry] invokes no download for any video; no video succeeds and
    every video is in the failed bucket, yet the statistics count no
    failure and list no error, and the spinner ends on its line for a run
    without failure. *)
Theorem download_bookkeeping (Math_pow : number -> number -> number)
        (chalk : Chalk) (outputDir : string) (languages : list string)
        (maxRetries : Z) (world : nat -> nat -> Steps) (created started ended read : Z)
        (videos : list Video) (parsed : Z) (pick : nat -> nat) :
  exists summary tracker,
    downloadSubtitles Math_pow chalk outputDir languages maxRetries world
                      created started ended read
                      videos (Cli.concurrency parsed) pick
    = Some (Returned (summary, tracker))
    /\ Permutation (map Queue.s_index (succeeded summary)
                    ++ map Queue.f_index (failed summary))
                   (seq 0 (length videos))
    /\ (forall s, In s (succeeded summary) ->
          nth_error videos (Queue.s_index s) = Some (Queue.s_item s)
          /\ exists run,
               download_with_retry Math_pow (Queue.s_item s) outputDir
                                   (world (Queue.s_index s)) maxRetries = Some run
               /\ Retry.result run = Returned (Queue.s_result s))
    /\ (forall f, In f (failed summary) ->
          nth_error videos (Queue.f_index f) = Some (Queue.f_item f)
          /\ exists run,
               download_with_retry Math_pow (Queue.f_item f) outputDir
                                   (world (Queue.f_index f)) maxRetries = Some run
               /\ match Retry.result run with
                  | Returned _ => False
                  | Threw ThrownUndefined =>
                      Queue.f_error f
                      = ThrownError (TypeError
                          "Cannot read properties of undefined (reading 'message')")
                  | Threw (ThrownError e) => Queue.f_error f = ThrownError e
                  end)
    /\ Queue.processQueue (worker Math_pow outputDir maxRetries world) videos
                          (Cli.concurrency parsed) pick
       = Some (Returned (Queue.mkResults (succeeded summary) (failed summary)))
    /\ length (succeeded summary) + length (failed summary) = length videos
    /\ Stats.snap_total (summary_stats summary) = length videos
    /\ Stats.snap_succeeded (summary_stats summary) = length (succeeded summary)
    /\ Progress.n_succeeded (Progress.stats tracker) = length (succeeded summary)
    /\ ((0 <= maxRetries)%Z ->
        Stats.snap_failed (summary_stats summary) = length (failed summary)
        /\ Progress.n_failed (Progress.stats tracker) = length (failed summary)
        /\ Progress.completed (Progress.stats tracker) = length videos)
    /\ ((maxRetries < 0)%Z ->
        (forall video index,
            download_with_retry Math_pow video outputDir (world index) maxRetries
            = Some (Retry.mkRun (Threw ThrownUndefined) 0 []))
        /\ succeeded summary = []
        /\ length (failed summary) = length videos
        /\ Stats.snap_failed (summary_stats summary) = 0
        /\ Stats.snap_errors (summary_stats summary) = []
        /\ exists spinner,
             Progress.mainSpinner tracker = Some spinner
             /\ Progress.persisted spinner
                = Some (Progress.MarkSucceed,
                        green chalk (bold chalk "All downloads completed successfully!"))).
Proof.
  assert (Hc : 1 <= Cli.concurrency parsed).
  { unfold Cli.concurrency, CONFIG.MIN_CONCURRENCY, CONFIG.MAX_CONCURRENCY. lia. }
  unfold downloadSubtitles, Queue.processQueue.
  replace (Cli.concurrency parsed =? 0) with false by (symmetry; apply Nat.eqb_neq; lia).
  set (tr0 := mkTracking _ _).
  set (st0 := Queue.mkSched (Queue.enumerate 0 videos) [] (Queue.mkResults [] [])).
  assert (Hfuel : length (Queue.pending st0) + length (Queue.active st0) <= length videos).
  { subst st0. cbn [Queue.pending Queue.active].
    rewrite <- (length_map snd), QueueFacts.enumerate_indices, length_seq. cbn. lia. }
  destruct (drain_counts Math_pow chalk outputDir languages maxRetries world
              (Cli.concurrency parsed) pick (length videos) Hc (length videos) 0 st0 tr0 Hfuel)
    as (res & tr & Hdrain & Hqueue & Hsize & Htr & Hnone).
  { subst st0. cbn [Queue.pending Queue.active Queue.results Queue.succeeded Queue.failed].
    rewrite <- (length_map snd), QueueFacts.enumerate_indices, length_seq. cbn. lia. }
  { unfold counted, told. subst tr0 st0. cbn. destruct (0 <=? maxRetries)%Z; repeat split;
      discriminate. }
  { reflexivity. }
  destruct (QueueFacts.drain_spec (worker Math_pow outputDir maxRetries world) videos
              (Cli.concurrency parsed) pick Hc (length videos) 0 st0 Hfuel
              (QueueFacts.initial_sched_ok _ videos))
    as (res' & Hqueue' & Hperm & Hsucceeded & Hfailed).
  rewrite Hqueue in Hqueue'. injection Hqueue' as <-.
  rewrite List.Forall_forall in Hsucceeded, Hfailed.
  rewrite Hdrain, Hqueue.
  destruct Htr as (Ht & Hs & Hf & He & Hpt & Hps & Hpf & Hpc & Hmain).
  eexists _, _. split; [reflexivity|].
  cbn [succeeded failed summary_stats Stats.getStats Stats.end_ Stats.snap_total
       Stats.snap_succeeded Stats.snap_failed Stats.snap_errors Stats.total
       Stats.succeeded Stats.failed Stats.errors].
  unfold Progress.complete at 1 2 3. cbn [Progress.stats].
  split; [exact Hperm|]. split.
  { intros s Hin. destruct (Hsucceeded s Hin) as [Hat Hrun]. split; [exact Hat|].
    now apply worker_returned. }
  split.
  { intros f Hin. destruct (Hfailed f Hin) as [Hat Hrun]. split; [exact Hat|].
    now apply worker_threw. }
  split; [now destruct res|].
  split; [exact Hsize|]. split; [exact Ht|]. split; [exact Hs|]. split; [exact Hps|].
  unfold told in *. split.
  - intros Hmax. replace (0 <=? maxRetries)%Z with true in * by (symmetry; now apply Z.leb_le).
    split; [exact Hf|]. split; [exact Hpf|]. lia.
  - intros Hneg. replace (0 <=? maxRetries)%Z with false in * by (symmetry; now apply Z.leb_gt).
    split.
    { intros video index. unfold download_with_retry.
      now apply RetryFacts.negative_maxRetries_never_invokes. }
    specialize (Hnone Hneg). rewrite Hnone in *. cbn [length] in *.
    split; [reflexivity|]. split; [lia|]. split; [exact Hf|].
    split; [now destruct (Stats.errors (stats tr))|].
    unfold Progress.complete. cbn [Progress.mainSpinner].
    destruct (Progress.mainSpinner (progress tr)) as [spinner|]; [|contradiction].
    rewrite Hpf. cbn [Nat.eqb]. eexists. split; reflexivity.
Qed.

Lemma download_bookkeeping_witness :
  exists summary tracker,
    downloadSubtitles NumberNotions.nearest_pow Samples.plain_chalk "./output" ["en"] (-1)
                      (fun _ _ => Samples.no_captions) 0 1 2 3
                      [Samples.sample_video; Samples.sample_video]
                      (Cli.concurrency 3) (fun n => n)
    = Some (Returned (summary, tracker))
    /\ length (failed summary) = 2
    /\ Stats.snap_failed (summary_stats summary) = 0.
Proof.
  destruct (download_bookkeeping NumberNotions.nearest_pow Samples.plain_chalk "./output"
              ["en"] (-1) (fun _ _ => Samples.no_captions) 0 1 2 3
              [Samples.sample_video; Samples.sample_video] 3 (fun n => n))
    as (summary & tracker & Hrun & _ & _ & _ & _ & _ & _ & _ & _ & _ & Hnegative).
  destruct (Hnegative ltac:(lia)) as (_ & _ & Hfailed & Hstats & _).
  exists summary, tracker. split; [exact Hrun|]. split; [exact Hfailed|exact Hstats].
Defined.

End OrchestratorFacts.
